(** * pocketpy VS Code extension: debug-adapter relay and line-profiler overlay

    A shallow embedding of [src/extension.ts] (the current revision, together
    with the earlier revision of the path helpers that is still shipped next to
    it) and the properties of it that the specification states.

    Conventions of the embedding:
    - JavaScript strings are [string]s; a source literal is the same literal.
    - A JavaScript value that may be [undefined] is an [option]; [None] is
      [undefined].
    - A JavaScript exception is the [Throw] completion of a small error monad.
    - Profile numbers (lines, hits, clock ticks) are integers; quotients of
      them are exact rationals ([Q]).  Rounding error of binary64 arithmetic is
      not part of the model.
    - [Map]s whose iteration order is not observed are [gmap]s. *)

From Stdlib Require Import ZArith QArith Qround Lia Lqa Ascii.
From stdpp Require Import gmap strings list pretty sorting.

Local Open Scope Z_scope.

(** ** Node's [path] module, POSIX flavour

    [extension.ts] imports [path] from Node.  The functions below follow
    [path.posix]: [normalizeString] walks the segments between separators,
    drops empty and [.] segments and resolves [..] against the segment before
    it. *)
Module Path.

(** [s.split('/')] *)
Fixpoint split (s : string) : list string :=
  match s with
  | EmptyString => [""]
  | String c r =>
      if Ascii.eqb c "/"%char then "" :: split r
      else match split r with
           | seg :: rest => String c seg :: rest
           | [] => [String c ""]
           end
  end.

(** [segs.join('/')] *)
Definition join_segments (segs : list string) : string := String.concat "/" segs.

Definition startsWith (s pre : string) : bool := String.prefix pre s.

Fixpoint endsWithSlash (s : string) : bool :=
  match s with
  | EmptyString => false
  | String c EmptyString => Ascii.eqb c "/"%char
  | String _ r => endsWithSlash r
  end.

(** [path.isAbsolute(p)]: non-empty and starting with the separator. *)
Definition isAbsolute (p : string) : bool :=
  match p with
  | String c _ => Ascii.eqb c "/"%char
  | EmptyString => false
  end.

(** One separator-delimited segment of [normalizeString]; [res] holds the
    segments kept so far, last one first. *)
Definition normalize_step (allowAboveRoot : bool) (res : list string) (seg : string)
  : list string :=
  if bool_decide (seg = "") || bool_decide (seg = ".") then res
  else if bool_decide (seg = "..") then
    match res with
    | last :: res' =>
        if bool_decide (last = "..")
        then (if allowAboveRoot then ".." :: res else res)
        else res'
    | [] => if allowAboveRoot then [".."] else []
    end
  else seg :: res.

Definition normalize_segments (allowAboveRoot : bool) (segs : list string) : list string :=
  rev (fold_left (normalize_step allowAboveRoot) segs []).

Definition normalizeString (path : string) (allowAboveRoot : bool) : string :=
  join_segments (normalize_segments allowAboveRoot (split path)).

(** [path.normalize(p)] *)
Definition normalize (p : string) : string :=
  if bool_decide (p = "") then "."
  else
    let abs := isAbsolute p in
    let trailing := endsWithSlash p in
    let body := normalizeString p (negb abs) in
    if bool_decide (body = "") then
      (if abs then "/" else if trailing then "./" else ".")
    else
      let body := if trailing then body +:+ "/" else body in
      if abs then "/" +:+ body else body.

(** [path.join(a, b)]: the non-empty arguments joined by the separator,
    then normalised; ['.'] when nothing is left. *)
Definition join (a b : string) : string :=
  let joined :=
    if bool_decide (a = "") then b
    else if bool_decide (b = "") then a
    else a +:+ "/" +:+ b in
  if bool_decide (joined = "") then "." else normalize joined.

(** [path.resolve(p)] for one argument; [cwd] is [process.cwd()]. *)
Definition resolve (cwd p : string) : string :=
  let step (acc : string * bool) (q : string) : string * bool :=
    if snd acc then acc
    else if bool_decide (q = "") then acc
    else (q +:+ "/" +:+ fst acc, isAbsolute q) in
  let '(resolvedPath, resolvedAbsolute) := step (step ("", false) p) cwd in
  let body := normalizeString resolvedPath (negb resolvedAbsolute) in
  if resolvedAbsolute then "/" +:+ body
  else if bool_decide (body = "") then "." else body.

(** Segments of a resolved path. *)
Definition segments_of (p : string) : list string :=
  filter (λ s, s ≠ "") (split p).

Fixpoint common_prefix_length (xs ys : list string) : nat :=
  match xs, ys with
  | x :: xs', y :: ys' =>
      if bool_decide (x = y) then S (common_prefix_length xs' ys') else 0%nat
  | _, _ => 0%nat
  end.

(** [path.relative(from, to)]: both arguments are resolved; the result
    climbs out of what is left of [from] after the common leading segments
    and then descends into the rest of [to]. *)
Definition relative (cwd from to : string) : string :=
  if bool_decide (from = to) then ""
  else
    let from := resolve cwd from in
    let to := resolve cwd to in
    if bool_decide (from = to) then ""
    else
      let fs := segments_of from in
      let ts := segments_of to in
      let n := common_prefix_length fs ts in
      join_segments (replicate (length fs - n) ".." ++ drop n ts).

End Path.

(** ** JavaScript values of a Debug-Adapter-Protocol message

    A message is what [JSON.parse] produced: no [undefined] inside, no sharing.
    Numbers in protocol messages are integers. *)
#[local] Set Warnings "-register-all".

Inductive json : Type :=
  | JNull
  | JBool (b : bool)
  | JNum (n : Z)
  | JStr (s : string)
  | JArr (elems : list json)
  | JObj (fields : list (string * json)).

Module Js.

Fixpoint field (k : string) (fields : list (string * json)) : option json :=
  match fields with
  | [] => None
  | (k', v) :: rest => if bool_decide (k = k') then Some v else field k rest
  end.

(** [v?.k]: [undefined] when [v] is [null] or [undefined]; a primitive or an
    array has none of the property names used by the tracker. *)
Definition opt_member (v : option json) (k : string) : option json :=
  match v with
  | Some (JObj fields) => field k fields
  | _ => None
  end.

(** Truthiness of a value in a condition or on the left of [||]. *)
Definition truthy (v : option json) : bool :=
  match v with
  | None | Some JNull => false
  | Some (JBool b) => b
  | Some (JNum n) => negb (n =? 0)
  | Some (JStr s) => negb (bool_decide (s = ""))
  | Some (JArr _) | Some (JObj _) => true
  end.

Definition isArray (v : option json) : bool :=
  match v with Some (JArr _) => true | _ => false end.

(** [String(v)], as a template literal applies it. *)
Fixpoint ToString (v : json) : string :=
  match v with
  | JNull => "null"
  | JBool true => "true"
  | JBool false => "false"
  | JNum n => pretty n
  | JStr s => s
  | JArr elems =>
      String.concat ","
        (map (λ e, match e with JNull => "" | _ => ToString e end) elems)
  | JObj _ => "[object Object]"
  end.

(** [o.k = f(o.k)] on an object that has the property [k]: the value is
    replaced in place.  Anything else is left as it is. *)
Fixpoint update_field (k : string) (f : json → json) (fields : list (string * json))
  : list (string * json) :=
  match fields with
  | [] => []
  | (k', v) :: rest =>
      if bool_decide (k = k') then (k', f v) :: rest
      else (k', v) :: update_field k f rest
  end.

Definition at_field (k : string) (f : json → json) (v : json) : json :=
  match v with
  | JObj fields => JObj (update_field k f fields)
  | _ => v
  end.

Definition at_index (i : nat) (f : json → json) (v : json) : json :=
  match v with
  | JArr elems => JArr (alter f i elems)
  | _ => v
  end.

Definition at_each (f : json → json) (v : json) : json :=
  match v with
  | JArr elems => JArr (map f elems)
  | _ => v
  end.

End Js.

(** ** Completions and the tracker monad

    A tracker callback receives the message object, may mutate it in place and
    may show notifications; the debug session afterwards carries on with the
    same object.  The state threaded through a callback is therefore the
    message and the notifications shown so far; it survives an exception. *)
Inductive completion (A : Type) : Type :=
  | Normal (a : A)
  | Throw (error : string).
Arguments Normal {A} a.
Arguments Throw {A} error.

Record tracked := Tracked { message : json; notifications : list string }.

Definition M (A : Type) : Type := tracked → completion A * tracked.

Definition ret {A} (a : A) : M A := λ st, (Normal a, st).

Definition bind {A B} (m : M A) (k : A → M B) : M B := λ st,
  match m st with
  | (Normal a, st') => k a st'
  | (Throw e, st') => (Throw e, st')
  end.

Notation "'let*' x ':=' m 'in' k" := (bind m (λ x, k))
  (at level 10, x name, m at level 100, k at level 200).
Notation "m '>>' k" := (bind m (λ _, k))
  (at level 100, k at level 200, right associativity).

Definition lift {A} (c : completion A) : M A := λ st, (c, st).

Definition getMessage : M json := λ st, (Normal (message st), st).

Definition mutate (f : json → json) : M unit := λ st,
  (Normal tt, Tracked (f (message st)) (notifications st)).

(** [vscode.window.showErrorMessage(text)] *)
Definition showErrorMessage (text : string) : M unit := λ st,
  (Normal tt, Tracked (message st) (notifications st ++ [text])).

Definition when (b : bool) (body : M unit) : M unit := if b then body else ret tt.

(** [v.k]: a [TypeError] on [null] and [undefined]. *)
Definition member (v : option json) (k : string) : M (option json) :=
  match v with
  | None => lift (Throw "TypeError: Cannot read properties of undefined")
  | Some JNull => lift (Throw "TypeError: Cannot read properties of null")
  | Some _ => ret (Js.opt_member v k)
  end.

(** Node's [validateString] on an argument of a [path] function. *)
Definition validateString (v : option json) : completion string :=
  match v with
  | Some (JStr s) => Normal s
  | _ => Throw "TypeError [ERR_INVALID_ARG_TYPE]"
  end.

Definition strictEqualsString (v : option json) (literal : string) : bool :=
  match v with
  | Some (JStr s) => bool_decide (s = literal)
  | _ => false
  end.

(** ** PathMappingTrackerFactory.createDebugAdapterTracker

    The callbacks are the same in every revision; they close over the two
    path helpers of their revision. *)
Section Tracker.

Variable toRelativePath : option json → completion string.
Variable toAbsolutePath : option json → completion string.

Definition onWillReceiveMessage : M unit :=
  let* message := getMessage in
  let* command := member (Some message) "command" in
  let path := Js.opt_member (Js.opt_member (Js.opt_member (Some message) "arguments") "source") "path" in
  when (strictEqualsString command "setBreakpoints" && Js.truthy path)
    (let* relative := lift (toRelativePath path) in
     mutate (Js.at_field "arguments" (Js.at_field "source"
              (Js.at_field "path" (λ _, JStr relative))))).

(** [for (const frame of message.body.stackFrames)]; [i] is the index of
    the first frame of [frames] in the array. *)
Fixpoint forStackFrames (i : nat) (frames : list json) : M unit :=
  match frames with
  | [] => ret tt
  | frame :: rest =>
      let* source := member (Some frame) "source" in
      let path := Js.opt_member source "path" in
      when (Js.truthy path)
        (let* absolute := lift (toAbsolutePath path) in
         mutate (Js.at_field "body" (Js.at_field "stackFrames" (Js.at_index i
                  (Js.at_field "source" (Js.at_field "path" (λ _, JStr absolute)))))))
      >> forStackFrames (S i) rest
  end.

Definition onDidSendMessage : M unit :=
  let* message := getMessage in
  let* body := member (Some message) "body" in
  let path := Js.opt_member (Js.opt_member body "source") "path" in
  when (Js.truthy path)
    (let* absolute := lift (toAbsolutePath path) in
     mutate (Js.at_field "body" (Js.at_field "source"
              (Js.at_field "path" (λ _, JStr absolute)))))
  >>
  let* message := getMessage in
  let* body := member (Some message) "body" in
  match Js.opt_member body "stackFrames" with
  | Some (JArr frames) => forStackFrames 0 frames
  | _ => ret tt
  end
  >>
  let* message := getMessage in
  let* type := member (Some message) "type" in
  let* event := member (Some message) "event" in
  when (strictEqualsString type "event" && strictEqualsString event "fatalError")
    (let* body := member (Some message) "body" in
     let errorMsg :=
       match Js.opt_member body "message" with
       | Some v => if Js.truthy (Some v) then Js.ToString v else "Unknown fatal error"
       | None => "Unknown fatal error"
       end in
     showErrorMessage ("[C11 Debugger] " +:+ errorMsg)).

End Tracker.

(** *** The path helpers of the current revision

    [sourceFolder] is [session.configuration.sourceFolder ||
    session.workspaceFolder?.uri.fsPath], which may be [undefined]; [cwd] is
    the working directory of the extension host, read by [path.relative]. *)
Module Current.
Section Helpers.
Variable cwd : string.
Variable sourceFolder : option string.

Definition toRelativePath (absPath : option json) : completion string :=
  match sourceFolder, absPath with
  | Some root, Some (JStr p) => Normal (Path.relative cwd root p)
  | _, _ => Throw "TypeError [ERR_INVALID_ARG_TYPE]"
  end.

Definition toAbsolutePath (relPath : option json) : completion string :=
  match relPath with
  | Some (JStr p) =>
      if negb (Path.isAbsolute p) then
        match sourceFolder with
        | Some root => Normal (Path.join root p)
        | None => Throw "TypeError [ERR_INVALID_ARG_TYPE]"
        end
      else Normal p
  | _ => Throw "TypeError [ERR_INVALID_ARG_TYPE]"
  end.

Definition onWillReceiveMessage : M unit := onWillReceiveMessage toRelativePath.
Definition onDidSendMessage : M unit := onDidSendMessage toAbsolutePath.
End Helpers.
End Current.

(** *** The path helpers of the earlier revision

    [workspaceFolder] is [vscode.workspace.workspaceFolders?.[0]?.uri.fsPath
    ?? ''], always a string. *)
Module Earlier.
Section Helpers.
Variable cwd : string.
Variable workspaceFolder : string.

Definition toRelativePath (absPath : option json) : completion string :=
  match absPath with
  | Some (JStr p) =>
      if Path.startsWith p workspaceFolder
      then Normal (Path.relative cwd workspaceFolder p)
      else Normal p
  | _ => Throw "TypeError: absPath.startsWith is not a function"
  end.

Definition toAbsolutePath (relPath : option json) : completion string :=
  match relPath with
  | Some (JStr p) =>
      if negb (Path.isAbsolute p) then Normal (Path.join workspaceFolder p)
      else Normal p
  | _ => Throw "TypeError [ERR_INVALID_ARG_TYPE]"
  end.

Definition onWillReceiveMessage : M unit := onWillReceiveMessage toRelativePath.
Definition onDidSendMessage : M unit := onDidSendMessage toAbsolutePath.
End Helpers.
End Earlier.

(** What the debug session carries on with after a callback ran on [m]. *)
Definition forwarded (callback : M unit) (m : json) : json :=
  message (snd (callback (Tracked m []))).

Definition notified (callback : M unit) (m : json) : list string :=
  notifications (snd (callback (Tracked m []))).

Definition relay (callback : M unit) (ms : list json) : list json :=
  map (forwarded callback) ms.

(** ** pingserver: the launch handshake

    Time is a virtual clock in milliseconds ([Date.now()]).  What a connection
    attempt does is decided by the endpoint: the socket emits ['error'] (the
    awaited promise rejects), emits ['data'] (it resolves), or emits neither,
    in which case the promise never settles and the [await] never returns. *)
Module Ping.

Inductive attempt : Type :=
  | Refused (after : Z)
  | Answered (after : Z)
  | Silent.

(** The endpoint's behaviour at the [k]-th attempt. *)
Definition endpoint : Type := nat → attempt.

Inductive outcome : Type :=
  | Returned (now : Z)        (* [break]: the server answered *)
  | TimedOut (now : Z)        (* [throw new Error("Timeout: ...")] *)
  | Suspended (since : Z)     (* stuck in an [await] that never settles *)
  | Running (now : Z).        (* still looping when the fuel ran out *)

Definition timeout : Z := 60000.
Definition backoff : Z := 150.

(** [while (true) { ... }], one iteration per unit of fuel. *)
Fixpoint loop (fuel : nat) (server : endpoint) (k : nat) (start now : Z) : outcome :=
  match fuel with
  | O => Running now
  | S fuel' =>
      if now - start >? timeout then TimedOut now
      else
        match server k with
        | Answered after => Returned (now + after)
        | Refused after => loop fuel' server (S k) start (now + after + backoff)
        | Silent => Suspended now
        end
  end.

Definition pingserver (fuel : nat) (server : endpoint) (start : Z) : outcome :=
  loop fuel server 0 start start.

End Ping.

(** ** LineProfilerDecorator *)
Module Profiler.

(** A JavaScript number that need not be finite. *)
Inductive number (A : Type) : Type :=
  | Finite (x : A)
  | PosInfinity
  | NegInfinity
  | NaN.
Arguments Finite {A} x.
Arguments PosInfinity {A}.
Arguments NegInfinity {A}.
Arguments NaN {A}.

(** [a / b] on integers. *)
Definition divide (a b : Z) : number Q :=
  if b =? 0 then
    (if a =? 0 then NaN else if a >? 0 then PosInfinity else NegInfinity)
  else Finite (inject_Z a / inject_Z b)%Q.

(** [x || 0] *)
Definition orZero (x : number Q) : number Q :=
  match x with
  | NaN => Finite 0%Q
  | Finite q => if Qeq_bool q 0 then Finite 0%Q else x
  | _ => x
  end.

(** [Math.round]: the nearest integer, a tie going up. *)
Definition round (q : Q) : Z := Qfloor (q + (1 # 2))%Q.

Definition Math_round (x : number Q) : number Z :=
  match x with
  | Finite q => Finite (round q)
  | PosInfinity => PosInfinity
  | NegInfinity => NegInfinity
  | NaN => NaN
  end.

Definition scale (x : number Q) (k : Q) : number Q :=
  match x with
  | Finite q => Finite (q * k)%Q
  | _ => x
  end.

(** [String(n)] for an integer-valued number. *)
Definition String_ (x : number Z) : string :=
  match x with
  | Finite n => pretty n
  | PosInfinity => "Infinity"
  | NegInfinity => "-Infinity"
  | NaN => "NaN"
  end.

(** [s.padStart(n, ' ')] *)
Definition padStart (n : nat) (s : string) : string :=
  String.concat "" (replicate (n - String.length s) " ") +:+ s.

(** [+x.toFixed(2)] printed by a template literal: [x] rounded to
    hundredths (a tie going away from zero), without trailing zeros. *)
Definition hundredths (q : Q) : Z :=
  if Qle_bool 0 q then round (q * 100)%Q else - round (- q * 100)%Q.

Definition print_hundredths (n : Z) : string :=
  let sign := if n <? 0 then "-" else "" in
  let a := Z.abs n in
  let whole := pretty (a / 100) in
  let frac := a mod 100 in
  if frac =? 0 then sign +:+ whole
  else if frac mod 10 =? 0 then sign +:+ whole +:+ "." +:+ pretty (frac / 10)
  else sign +:+ whole +:+ "." +:+ pretty (frac / 10) +:+ pretty (frac mod 10).

Definition getBlockColors : list string :=
  ["#9C27B0"; "#2196F3"; "#4CAF50"; "#FF9800"; "#F44336"].

Record LineInfo := { color : option string; blockID : option Z }.

Record FoldingRange := { start : Z; end_ : Z }.

Record TextEditor := {
  uri : string;
  fsPath : string;
  languageId : string;
  lines : list string
}.

Definition lineCount (editor : TextEditor) : Z := Z.of_nat (length (lines editor)).

(** [editor.document.lineAt(n).text] *)
Definition lineAt (editor : TextEditor) (n : Z) : completion string :=
  if (0 <=? n) && (n <? lineCount editor) then
    match lines editor !! Z.to_nat n with
    | Some text => Normal text
    | None => Throw "Illegal value for `line`"
    end
  else Throw "Illegal value for `line`".

(** [s.trimStart()]: leading white space and line terminators removed; the
    characters beyond ASCII are matched in their UTF-8 encoding. *)
Fixpoint trimStart (s : string) : string :=
  match s with
  | EmptyString => s
  | String c r =>
      if Ascii.is_space c then trimStart r
      else
        match c, r with
        | "194"%char, String "160"%char r' => trimStart r'
        | "225"%char, String "154"%char (String "128"%char r') => trimStart r'
        | "226"%char, String "128"%char (String c3 r') =>
            let n := N_of_ascii c3 in
            if ((128 <=? n) && (n <=? 138) || (n =? 168) || (n =? 169) || (n =? 175))%N
            then trimStart r' else s
        | "226"%char, String "129"%char (String "159"%char r') => trimStart r'
        | "227"%char, String "128"%char (String "128"%char r') => trimStart r'
        | "239"%char, String "187"%char (String "191"%char r') => trimStart r'
        | _, _ => s
        end
  end.

Definition isFunctionFold (editor : TextEditor) (fr : FoldingRange) : completion bool :=
  match lineAt editor (start fr) with
  | Normal text => Normal (String.prefix "def " (trimStart text))
  | Throw e => Throw e
  end.

(** The loop state of [mapLinesToBlocks].  [endStack] has its top first. *)
Record blocks := {
  lineMap : gmap Z LineInfo;
  endStack : list Z;
  nextBlockId : Z
}.

(** [while (fr.start > endStack[endStack.length - 1]) endStack.pop()];
    the comparison with [undefined] on an empty stack is false. *)
Fixpoint popClosed (start : Z) (stack : list Z) : list Z :=
  match stack with
  | top :: rest => if start >? top then popClosed start rest else stack
  | [] => []
  end.

(** [lineMap.get(endStack[endStack.length - 1])] *)
Definition enclosing (lineMap : gmap Z LineInfo) (stack : list Z) : option LineInfo :=
  match stack with
  | top :: _ => lineMap !! top
  | [] => None
  end.

(** [for (let line = fr.start; line <= fr.end; line++) lineMap.set(line + 1, ...)] *)
Definition assignRange (fr : FoldingRange) (parent own : LineInfo) (lineMap : gmap Z LineInfo)
  : gmap Z LineInfo :=
  fold_left
    (λ m line, <[line + 1 := if bool_decide (line = start fr) then parent else own]> m)
    (seqZ (start fr) (end_ fr - start fr + 1)) lineMap.

(** The body of the loop for a fold range that starts a function. *)
Definition enterBlock (fr : FoldingRange) (st : blocks) : blocks :=
  let stack := popClosed (start fr) (endStack st) in
  let color := getBlockColors !! (length stack mod length getBlockColors)%nat in
  let parent := enclosing (lineMap st) stack in
  let parentInfo := {| color := parent ≫= Profiler.color; blockID := parent ≫= Profiler.blockID |} in
  let ownInfo := {| color := color; blockID := Some (nextBlockId st) |} in
  {| lineMap := assignRange fr parentInfo ownInfo (lineMap st);
     endStack := end_ fr :: stack;
     nextBlockId := nextBlockId st + 1 |}.

Fixpoint forFoldRanges (editor : TextEditor) (foldRanges : list FoldingRange) (st : blocks)
  : completion blocks :=
  match foldRanges with
  | [] => Normal st
  | fr :: rest =>
      match isFunctionFold editor fr with
      | Throw e => Throw e
      | Normal false => forFoldRanges editor rest st
      | Normal true => forFoldRanges editor rest (enterBlock fr st)
      end
  end.

Definition initialBlocks (editor : TextEditor) : blocks :=
  {| lineMap := {[ lineCount editor := {| color := getBlockColors !! 0%nat; blockID := Some 0 |} ]};
     endStack := [lineCount editor];
     nextBlockId := 1 |}.

(** [mapLinesToBlocks]: [editorToColors] is the per-document cache;
    [foldRanges] is what ['vscode.executeFoldingRangeProvider'] returned
    ([?? []] when it returned nothing). *)
Definition mapLinesToBlocks (editorToColors : gmap string (gmap Z LineInfo))
    (editor : TextEditor) (foldRanges : option (list FoldingRange))
  : completion (gmap Z LineInfo * gmap string (gmap Z LineInfo)) :=
  match editorToColors !! uri editor with
  | Some cached => Normal (cached, editorToColors)
  | None =>
      match forFoldRanges editor (default [] foldRanges) (initialBlocks editor) with
      | Throw e => Throw e
      | Normal st => Normal (lineMap st, <[uri editor := lineMap st]> editorToColors)
      end
  end.

(** [formatDuration(clockTicks)]; [this.clocksPerSec] is a finite number. *)
Definition formatDuration (clocksPerSec : Q) (clockTicks : Z) : string :=
  let seconds := (inject_Z clockTicks / (if Qeq_bool clocksPerSec 0 then 1 else clocksPerSec))%Q in
  let ms := (seconds * 1000)%Q in
  let us := (seconds * 1000000)%Q in
  if Qle_bool 1 seconds then
    let wholeS := Qfloor seconds in
    let remainMs := round ((seconds - inject_Z wholeS) * 1000)%Q in
    if remainMs >? 0 then pretty wholeS +:+ "s " +:+ pretty remainMs +:+ "ms"
    else pretty wholeS +:+ "s"
  else if Qle_bool 1 ms then
    let wholeMs := Qfloor ms in
    let remainUs := round ((ms - inject_Z wholeMs) * 1000)%Q in
    if remainUs >? 0 then pretty wholeMs +:+ "ms " +:+ pretty remainUs +:+ "µs"
    else pretty wholeMs +:+ "ms"
  else
    let roundedUs := round us in
    pretty roundedUs +:+ "µs".

Definition generateBackgroundColor (ratio : number Q) : string :=
  let alpha :=
    match ratio with
    | Finite q => print_hundredths (hundredths (q * (8 # 10))%Q)
    | PosInfinity => "Infinity"
    | NegInfinity => "-Infinity"
    | NaN => "NaN"
    end in
  "hsla(210, 60%, 65%, " +:+ alpha +:+ ")".

(** What is drawn before the text of a line. *)
Record Attachment := {
  contentText : string;
  textColor : option string;
  margin : string;
  width : string;
  fontStyle : option string;
  height : option string;
  textDecoration : string
}.

(** [range] is the line of the empty range [(line, 0, line, 0)]. *)
Record DecorationOptions := {
  range : Z;
  hoverMessage : option string;
  before : option Attachment
}.

(** [new vscode.Range(line, 0, line, 0)]: a negative line is an illegal
    argument. *)
Definition Range (line : Z) : completion Z :=
  if line <? 0 then Throw "illegal argument: line must be non-negative"
  else Normal line.

Section Decorator.

Variable clocksPerSec : Q.

Definition createHoverMessage (percent : number Z) (time hits : Z) : string :=
  String_ percent +:+ "% — " +:+ formatDuration clocksPerSec time
    +:+ " • " +:+ pretty hits +:+ " hits".

(** The object literals of the three decoration builders, given the line of
their range. *)
Definition lineDecoration (range : Z) (hover : string) : DecorationOptions :=
  {| range := range; hoverMessage := Some hover; before := None |}.

Definition prefixDecoration (range : Z) (percent : number Z) (blockColor : option string)
  : DecorationOptions :=
  let label := padStart 3 (String_ percent) +:+ "%" in
  let text :=
    match percent with
    | Finite 0 => "#888888"
    | _ => "#f0f0f0"
    end in
  {| range := range; hoverMessage := None;
     before := Some {|
       contentText := label;
       textColor := Some text;
       margin := "0 8px 0 0";
       width := "50px";
       fontStyle := Some "normal";
       height := Some "98%";
       textDecoration :=
         String.concat ";"
           ["display:inline-block"; "box-sizing:border-box";
            "text-align:right"; "padding-right:6px";
            "border-right:10px solid " +:+ default "undefined" blockColor]
     |} |}.

Definition paddingDecoration (range : Z) : DecorationOptions :=
  {| range := range; hoverMessage := None;
     before := Some {|
       contentText := "";
       textColor := None;
       margin := "0 8px 0 0";
       width := "50px";
       fontStyle := None;
       height := None;
       textDecoration :=
         String.concat ";"
           ["display:inline-block"; "box-sizing:border-box"; "padding-right:6px"]
     |} |}.

Definition createLineDecoration (line : Z) (hover : string) : completion DecorationOptions :=
  match Range (line - 1) with
  | Normal r => Normal (lineDecoration r hover)
  | Throw e => Throw e
  end.

Definition createPrefixDecoration (line : Z) (percent : number Z) (blockColor : option string)
  : completion DecorationOptions :=
  match Range (line - 1) with
  | Normal r => Normal (prefixDecoration r percent blockColor)
  | Throw e => Throw e
  end.

Definition createPaddingDecoration (line : Z) : completion DecorationOptions :=
  match Range line with
  | Normal r => Normal (paddingDecoration r)
  | Throw e => Throw e
  end.

Definition ProfileRecord : Type := Z * Z * Z.

(** [blockLevels.get(line) ?? { color: this.getBlockColors()[0], blockID: 0 }] *)
Definition blockInfoOf (blockLevels : gmap Z LineInfo) (line : Z) : LineInfo :=
  default {| color := getBlockColors !! 0%nat; blockID := Some 0 |} (blockLevels !! line).

(** The first loop over the records. *)
Definition addBlockTime (blockLevels : gmap Z LineInfo)
    (blockTimes : gmap (option Z) Z) (record : ProfileRecord) : gmap (option Z) Z :=
  let '(line, _, time) := record in
  let blockInfo := blockInfoOf blockLevels line in
  let blockTime := default 0 (blockTimes !! blockID blockInfo) in
  <[blockID blockInfo := blockTime + time]> blockTimes.

Definition sumBlockTimes (blockLevels : gmap Z LineInfo) (records : list ProfileRecord)
  : gmap (option Z) Z :=
  fold_left (addBlockTime blockLevels) records ∅.

(** [time / totalTime || 0]; [totalTime] is [undefined] when the block
    has no entry. *)
Definition ratioOf (time : Z) (totalTime : option Z) : number Q :=
  orZero (match totalTime with
          | Some total => divide time total
          | None => NaN
          end).

Definition percentOf (ratio : number Q) : number Z := Math_round (scale ratio 100).

(** What the second loop has built so far. *)
Record decorations := {
  colorToOptions : list (string * list DecorationOptions);
  prefixOptions : list DecorationOptions;
  coveredLines : gset Z
}.

(** [if (!m.has(color)) m.set(color, []); m.get(color).push(option)] on a
    [Map], which keeps its keys in insertion order. *)
Fixpoint pushOption (color : string) (option : DecorationOptions)
    (m : list (string * list DecorationOptions)) : list (string * list DecorationOptions) :=
  match m with
  | [] => [(color, [option])]
  | (c, options) :: rest =>
      if bool_decide (c = color) then (c, options ++ [option]) :: rest
      else (c, options) :: pushOption color option rest
  end.

(** The body of the second loop. *)
Definition decorateRecord (blockLevels : gmap Z LineInfo) (blockTimes : gmap (option Z) Z)
    (acc : decorations) (record : ProfileRecord) : completion decorations :=
  let '(line, hits, time) := record in
  let blockInfo := blockInfoOf blockLevels line in
  let totalTime := blockTimes !! blockID blockInfo in
  let ratio := ratioOf time totalTime in
  let percent := percentOf ratio in
  let color := generateBackgroundColor ratio in
  let hover := createHoverMessage percent time hits in
  match createLineDecoration line hover with
  | Throw e => Throw e
  | Normal option =>
      match createPrefixDecoration line percent (Profiler.color blockInfo) with
      | Throw e => Throw e
      | Normal prefix =>
          Normal {| colorToOptions := pushOption color option (colorToOptions acc);
                    prefixOptions := prefixOptions acc ++ [prefix];
                    coveredLines := {[ line - 1 ]} ∪ coveredLines acc |}
      end
  end.

Fixpoint forRecords (blockLevels : gmap Z LineInfo) (blockTimes : gmap (option Z) Z)
    (records : list ProfileRecord) (acc : decorations) : completion decorations :=
  match records with
  | [] => Normal acc
  | record :: rest =>
      match decorateRecord blockLevels blockTimes acc record with
      | Throw e => Throw e
      | Normal acc' => forRecords blockLevels blockTimes rest acc'
      end
  end.

(** [for (let i = 0; i < totalLines; i++) if (!coveredLines.has(i)) ...] *)
Fixpoint padUncovered (covered : gset Z) (lines : list Z) (prefix : list DecorationOptions)
  : completion (list DecorationOptions) :=
  match lines with
  | [] => Normal prefix
  | i :: rest =>
      if bool_decide (i ∈ covered) then padUncovered covered rest prefix
      else
        match createPaddingDecoration i with
        | Throw e => Throw e
        | Normal pad => padUncovered covered rest (prefix ++ [pad])
        end
  end.

(** The arguments [applyToEditor] passes to [applyDecorations]. *)
Record rendering := {
  backgrounds : list (string * list DecorationOptions);
  prefixes : list DecorationOptions
}.

Definition decorate (blockLevels : gmap Z LineInfo) (records : list ProfileRecord)
    (totalLines : Z) : completion rendering :=
  let blockTimes := sumBlockTimes blockLevels records in
  match forRecords blockLevels blockTimes records
          {| colorToOptions := []; prefixOptions := []; coveredLines := ∅ |} with
  | Throw e => Throw e
  | Normal acc =>
      match padUncovered (coveredLines acc) (seqZ 0 totalLines) (prefixOptions acc) with
      | Throw e => Throw e
      | Normal prefix => Normal {| backgrounds := colorToOptions acc; prefixes := prefix |}
      end
  end.

Variable cwd : string.
Variable sourceRoot : string.
Variable data : gmap string (list ProfileRecord).

(** [applyToEditor]: [None] when the editor's decorations are only
    cleared, otherwise what is handed to [applyDecorations], together with
    the cache of line maps. *)
Definition applyToEditor (editorToColors : gmap string (gmap Z LineInfo))
    (editor : TextEditor) (foldRanges : option (list FoldingRange))
  : completion (option rendering * gmap string (gmap Z LineInfo)) :=
  let relPath := Path.normalize (Path.relative cwd sourceRoot (fsPath editor)) in
  match data !! relPath with
  | None | Some [] => Normal (None, editorToColors)
  | Some records =>
      match mapLinesToBlocks editorToColors editor foldRanges with
      | Throw e => Throw e
      | Normal (blockLevels, cache) =>
          match decorate blockLevels records (lineCount editor) with
          | Throw e => Throw e
          | Normal r => Normal (Some r, cache)
          end
      end
  end.

End Decorator.

End Profiler.

(** ** PythonDebugAdapterDescriptorFactory.createDebugAdapterDescriptor

    The factory reads the launch configuration, for [launch] opens a terminal,
    sends the command line to it and waits for the handshake, and settles with
    the server to connect to.  Its effects are the terminals of the window and
    the error notifications; the network is the endpoint met at a host and a
    port. *)
Module Descriptor.

Definition DEFAULT_PORT : json := JNum 6110.
Definition DEFAULT_HOST : json := JStr "localhost".

(** [v || d] *)
Definition orDefault (v : option json) (d : json) : json :=
  match v with
  | Some x => if Js.truthy v then x else d
  | None => d
  end.

(** [`${v}`] *)
Definition template (v : option json) : string :=
  match v with
  | Some x => Js.ToString x
  | None => "undefined"
  end.

(** [args.join(sep)]: only an array has the method. *)
Definition joinArgs (sep : string) (args : option json) : completion string :=
  match args with
  | Some (JArr elems) =>
      Normal (String.concat sep
                (map (λ e, match e with JNull => "" | _ => Js.ToString e end) elems))
  | None => Throw "TypeError: Cannot read properties of undefined (reading 'join')"
  | Some JNull => Throw "TypeError: Cannot read properties of null (reading 'join')"
  | Some _ => Throw "TypeError: args.join is not a function"
  end.

(** [new vscode.DebugAdapterServer(port, host)] *)
Record DebugAdapterServer := { port : json; host : json }.

Record Terminal := {
  name : string;
  cwd : option json;
  sent : list string;
  shown : bool
}.

Record window := { terminals : list Terminal; errors : list string }.

(** How the promise of an [async] function ends. *)
Inductive settled (A : Type) : Type :=
  | Resolved (a : A)
  | Rejected (error : string)
  | Pending               (* suspended in an [await] that never settles *)
  | Unsettled.            (* still running when the fuel ran out *)
Arguments Resolved {A} a.
Arguments Rejected {A} error.
Arguments Pending {A}.
Arguments Unsettled {A}.

(** [now] is the time of the call; [network host port] is the endpoint that
    [net.connect(port, host)] reaches. *)
Definition createDebugAdapterDescriptor (network : json → json → Ping.endpoint)
    (fuel : nat) (now : Z) (config : list (string * json)) (w : window)
  : settled (option DebugAdapterServer) * window :=
  let requestType := Js.field "request" config in
  let port := orDefault (Js.field "port" config) DEFAULT_PORT in
  let host := orDefault (Js.field "host" config) DEFAULT_HOST in
  if strictEqualsString requestType "attach" then
    (Resolved (Some {| port := port; host := host |}), w)
  else if strictEqualsString requestType "launch" then
    let program := Js.field "program" config in
    let args := Js.field "args" config in
    let terminal :=
      {| name := "pocketpy"; cwd := Js.field "cwd" config; sent := []; shown := false |} in
    match joinArgs " " args with
    | Throw e =>
        (Rejected e, {| terminals := terminals w ++ [terminal]; errors := errors w |})
    | Normal joined =>
        let terminal :=
          {| name := name terminal; cwd := cwd terminal;
             sent := sent terminal ++ [template program +:+ " " +:+ joined];
             shown := true |} in
        let w := {| terminals := terminals w ++ [terminal]; errors := errors w |} in
        match Ping.pingserver fuel (network host port) now with
        | Ping.Returned _ => (Resolved (Some {| port := port; host := host |}), w)
        | Ping.TimedOut _ => (Rejected "Timeout: server did not respond within 10s", w)
        | Ping.Suspended _ => (Pending, w)
        | Ping.Running _ => (Unsettled, w)
        end
    end
  else
    (Resolved None,
     {| terminals := terminals w;
        errors := errors w ++ ["unsupported type: " +:+ template requestType] |}).

End Descriptor.

(** ** Loading a report

    The command [pocketpy.loadProfilerReportJson] keys the records of the
    report by their normalised paths; the constructor of
    [LineProfilerDecorator] marks the analysed files read-only in the
    workspace setting [files.readonlyInclude], and [clearReadOnlyConfig] takes
    the marks back. *)
Module Report.

(** [Object.fromEntries(Object.entries(records).map(([k, v]) =>
    [path.normalize(k), v]))]; [entries] is what [Object.entries] returned,
    in its order. *)
Definition normalizeKeys {V : Type} (entries : list (string * V)) : gmap string V :=
  fold_left (λ data kv, <[Path.normalize kv.1 := kv.2]> data) entries ∅.

(** [s.replace(/\\/g, '/')] *)
Fixpoint replaceBackslashes (s : string) : string :=
  match s with
  | EmptyString => EmptyString
  | String c r =>
      String (if Ascii.eqb c "092"%char then "/"%char else c) (replaceBackslashes r)
  end.

(** [vscode.workspace.workspaceFolders?.[0].uri.fsPath ?? sourceRoot] *)
Definition workspacePath (workspaceFolders : option (list string)) (sourceRoot : string)
  : completion string :=
  match workspaceFolders with
  | None => Normal sourceRoot
  | Some [] => Throw "TypeError: Cannot read properties of undefined (reading 'uri')"
  | Some (folder :: _) => Normal folder
  end.

Definition analysisFilesPath (cwd workspacePath sourceRoot filepath : string) : string :=
  let pathPrefix := Path.relative cwd workspacePath sourceRoot in
  replaceBackslashes (Path.join pathPrefix filepath).

(** [set.add(p)] on a [Set], which keeps its elements in insertion order. *)
Definition add (p : string) (set : list string) : list string :=
  if decide (p ∈ set) then set else set ++ [p].

(** The setting as the constructor passes it to [update], and the set of
    paths it remembers. *)
Record marks := { readonlyInclude : gmap string json; analysisFilesSet : list string }.

(** The constructor: [filepaths] is [Object.keys(this.data)], [currentInclude]
    what [get("readonlyInclude", {})] returned. *)
Definition markReadOnly (cwd : string) (workspaceFolders : option (list string))
    (sourceRoot : string) (filepaths : list string) (currentInclude : gmap string json)
  : completion marks :=
  match workspacePath workspaceFolders sourceRoot with
  | Throw e => Throw e
  | Normal workspacePath =>
      Normal
        (fold_left
           (λ acc filepath,
              let p := analysisFilesPath cwd workspacePath sourceRoot filepath in
              {| readonlyInclude := <[p := JBool true]> (readonlyInclude acc);
                 analysisFilesSet := add p (analysisFilesSet acc) |})
           filepaths
           {| readonlyInclude := currentInclude; analysisFilesSet := [] |})
  end.

(** [clearReadOnlyConfig]: what it passes to [update], given the set and
    what [get("readonlyInclude", {})] returned. *)
Definition clearReadOnlyConfig (analysisFilesSet : list string)
    (currentInclude : gmap string json) : gmap string json :=
  fold_left (λ include p, <[p := JBool false]> include) analysisFilesSet currentInclude.

End Report.

(** ** The decoration types of the decorator

    [applyDecorations], [clearEditorDecorations] and [dispose] create,
    apply and dispose decoration types through the editor API.  The calls
    they make are recorded in order; a decoration type is the number the
    window gives it when it is created. *)
Module Decorations.

Inductive call : Type :=
  | createTextEditorDecorationType (dt : nat) (backgroundColor : option string)
  | setDecorations (editor : Profiler.TextEditor) (dt : nat)
      (options : list Profiler.DecorationOptions)
  | disposeType (dt : nat).

(** The [Map] from document URIs to arrays of decoration types is the list
    of its entries, in insertion order. *)
Fixpoint Map_get (key : string) (m : list (string * list nat)) : option (list nat) :=
  match m with
  | [] => None
  | (k, dts) :: rest => if bool_decide (k = key) then Some dts else Map_get key rest
  end.

Fixpoint Map_set (key : string) (dts : list nat) (m : list (string * list nat)) : list (string * list nat) :=
  match m with
  | [] => [(key, dts)]
  | (k, old) :: rest =>
      if bool_decide (k = key) then (k, dts) :: rest else (k, old) :: Map_set key dts rest
  end.

Definition Map_delete (key : string) (m : list (string * list nat)) : list (string * list nat) :=
  filter (λ entry, entry.1 ≠ key) m.

Record decorator := {
  calls : list call;
  nextType : nat;
  prefixDecorationType : nat;
  editorToDecorationTypes : list (string * list nat)
}.

Definition log (new : list call) (d : decorator) : decorator :=
  {| calls := calls d ++ new; nextType := nextType d;
     prefixDecorationType := prefixDecorationType d;
     editorToDecorationTypes := editorToDecorationTypes d |}.

(** The constructor creates the decoration type of the gutter. *)
Definition create (nextType : nat) : decorator :=
  {| calls := [createTextEditorDecorationType nextType None];
     nextType := S nextType;
     prefixDecorationType := nextType;
     editorToDecorationTypes := [] |}.

Definition clearEditorDecorations (editor : Profiler.TextEditor) (d : decorator) : decorator :=
  let key := Profiler.uri editor in
  match Map_get key (editorToDecorationTypes d) with
  | Some dts =>
      {| calls := calls d ++ map disposeType dts; nextType := nextType d;
         prefixDecorationType := prefixDecorationType d;
         editorToDecorationTypes := Map_delete key (editorToDecorationTypes d) |}
  | None => d
  end.

(** [for (const [color, options] of colorToOptions.entries())] *)
Fixpoint forColors (editor : Profiler.TextEditor)
    (colorToOptions : list (string * list Profiler.DecorationOptions))
    (d : decorator) (createdDts : list nat) : decorator * list nat :=
  match colorToOptions with
  | [] => (d, createdDts)
  | (color, options) :: rest =>
      let dt := nextType d in
      let d :=
        {| calls := calls d ++ [createTextEditorDecorationType dt (Some color);
                                setDecorations editor dt options];
           nextType := S dt;
           prefixDecorationType := prefixDecorationType d;
           editorToDecorationTypes := editorToDecorationTypes d |} in
      forColors editor rest d (createdDts ++ [dt])
  end.

Definition applyDecorations (editor : Profiler.TextEditor)
    (colorToOptions : list (string * list Profiler.DecorationOptions))
    (prefixOptions : list Profiler.DecorationOptions) (d : decorator) : decorator :=
  let d := log [setDecorations editor (prefixDecorationType d) []] d in
  let d := clearEditorDecorations editor d in
  let '(d, createdDts) := forColors editor colorToOptions d [] in
  let d :=
    {| calls := calls d; nextType := nextType d;
       prefixDecorationType := prefixDecorationType d;
       editorToDecorationTypes :=
         Map_set (Profiler.uri editor) createdDts (editorToDecorationTypes d) |} in
  log [setDecorations editor (prefixDecorationType d) prefixOptions] d.

(** What [applyToEditor] does with its result: without records the gutter
    and the backgrounds of the editor are cleared, otherwise the rendering is
    applied. *)
Definition show (editor : Profiler.TextEditor) (shown : option Profiler.rendering)
    (d : decorator) : decorator :=
  match shown with
  | None =>
      clearEditorDecorations editor
        (log [setDecorations editor (prefixDecorationType d) []] d)
  | Some r => applyDecorations editor (Profiler.backgrounds r) (Profiler.prefixes r) d
  end.

Definition dispose (d : decorator) : decorator :=
  {| calls :=
       calls d ++ disposeType (prefixDecorationType d)
                  :: concat (map (λ entry, map disposeType entry.2) (editorToDecorationTypes d));
     nextType := nextType d;
     prefixDecorationType := prefixDecorationType d;
     editorToDecorationTypes := [] |}.

End Decorations.

(** ** Vocabulary of the statements *)

(** *** Paths under a root

    A canonical absolute path is the spelling [path.resolve] returns: the
    separator followed by segments that are neither empty nor [.] nor [..],
    joined by single separators, with no separator at the end. *)
Fixpoint slash_free (s : string) : bool :=
  match s with
  | EmptyString => true
  | String c r => negb (Ascii.eqb c "/"%char) && slash_free r
  end.

Definition proper_segment (s : string) : bool :=
  negb (bool_decide (s = "")) && negb (bool_decide (s = "."))
  && negb (bool_decide (s = "..")) && slash_free s.

Definition absolute_of (segs : list string) : string := "/" +:+ Path.join_segments segs.

Definition canonical (p : string) : bool :=
  forallb proper_segment (Path.segments_of p)
  && bool_decide (p = absolute_of (Path.segments_of p)).

(** [p] is [root] itself or lies below it. *)
Definition lies_under (root p : string) : bool :=
  canonical root && canonical p
  && bool_decide (Path.segments_of root `prefix_of` Path.segments_of p).

(** *** Messages up to their path fields *)
Definition blank : json → json := λ _, JNull.

Definition erase_outbound (m : json) : json :=
  Js.at_field "arguments" (Js.at_field "source" (Js.at_field "path" blank)) m.

Definition erase_body (body : json) : json :=
  Js.at_field "source" (Js.at_field "path" blank)
    (Js.at_field "stackFrames"
       (Js.at_each (Js.at_field "source" (Js.at_field "path" blank))) body).

Definition erase_inbound (m : json) : json := Js.at_field "body" erase_body m.

Definition contains (s part : string) : Prop :=
  ∃ before after, s = before +:+ part +:+ after.

(** The path-bearing fields a callback looks at. *)
Definition frame_path (frame : json) : option json :=
  Js.opt_member (Js.opt_member (Some frame) "source") "path".

Definition outbound_paths (m : json) : list (option json) :=
  if strictEqualsString (Js.opt_member (Some m) "command") "setBreakpoints"
  then [Js.opt_member (Js.opt_member (Js.opt_member (Some m) "arguments") "source") "path"]
  else [].

Definition stack_frames (m : json) : list json :=
  match Js.opt_member (Js.opt_member (Some m) "body") "stackFrames" with
  | Some (JArr frames) => frames
  | _ => []
  end.

Definition inbound_paths (m : json) : list (option json) :=
  Js.opt_member (Js.opt_member (Js.opt_member (Some m) "body") "source") "path"
  :: map frame_path (stack_frames m).

Definition is_object (m : json) : bool :=
  match m with JObj _ => true | _ => false end.

(** A path field that is present holds a string, and every stack frame is an
    object: the shape the protocol gives these fields. *)
Definition path_ok (v : option json) : bool :=
  match v with
  | Some (JStr _) => true
  | _ => negb (Js.truthy v)
  end.

Definition well_formed_inbound (m : json) : bool :=
  forallb path_ok (inbound_paths m) && forallb is_object (stack_frames m).

(** [message.body?.message || 'Unknown fatal error'], as text. *)
Definition fatal_error_text (m : json) : string :=
  match Js.opt_member (Js.opt_member (Some m) "body") "message" with
  | Some v => if Js.truthy (Some v) then Js.ToString v else "Unknown fatal error"
  | None => "Unknown fatal error"
  end.

(** The helper does not throw on the path field [v] when it is applied to it. *)
Definition rewritable (helper : option json → completion string) (v : option json) : Prop :=
  Js.truthy v = true → ∃ r, helper v = Normal r.

(** A step of a callback that leaves [view] of the message as it found it. *)
Definition keeps {A V : Type} (view : json → V) (c : M A) : Prop :=
  ∀ st, view (message (snd (c st))) = view (message st).

(** A step of a callback that shows no notification. *)
Definition quiet {A : Type} (c : M A) : Prop :=
  ∀ st, notifications (snd (c st)) = notifications st.

(** *** DurationFormatter, in the words of the specification

    [seconds = ticks / clocksPerSec]; at least a second: whole seconds, then
    the rounded milliseconds of the remainder if they are not zero; else at
    least a millisecond: whole milliseconds, then the rounded microseconds of
    the remainder if they are not zero; else the rounded microseconds. *)
Definition DurationFormatter (ticks : Z) (clocksPerSec : Q) : string :=
  let seconds := (inject_Z ticks / clocksPerSec)%Q in
  if Qle_bool 1 seconds then
    let remainder := (seconds - inject_Z (Qfloor seconds))%Q in
    let ms := Profiler.round (remainder * 1000)%Q in
    pretty (Qfloor seconds) +:+ "s"
      +:+ (if ms =? 0 then "" else " " +:+ pretty ms +:+ "ms")
  else
    let milliseconds := (seconds * 1000)%Q in
    if Qle_bool 1 milliseconds then
      let remainder_us := ((milliseconds - inject_Z (Qfloor milliseconds)) * 1000)%Q in
      let us := Profiler.round remainder_us in
      pretty (Qfloor milliseconds) +:+ "ms"
        +:+ (if us =? 0 then "" else " " +:+ pretty us +:+ "µs")
    else pretty (Profiler.round (seconds * 1000000)%Q) +:+ "µs".

(** A duration text without a redundant zero: the leading unit is at least 1
    and a second unit is only written when it is at least 1; microseconds
    alone may be anything. *)
Inductive carried_down : string → Prop :=
  | whole_seconds (a : Z) :
      1 ≤ a → carried_down (pretty a +:+ "s")
  | seconds_and_ms (a b : Z) :
      1 ≤ a → 1 ≤ b → carried_down (pretty a +:+ "s " +:+ pretty b +:+ "ms")
  | whole_ms (a : Z) :
      1 ≤ a → carried_down (pretty a +:+ "ms")
  | ms_and_us (a b : Z) :
      1 ≤ a → 1 ≤ b → carried_down (pretty a +:+ "ms " +:+ pretty b +:+ "µs")
  | only_us (a : Z) :
      carried_down (pretty a +:+ "µs").

(** *** Scopes and their totals

    The scope of a record is the block id its line is attributed to; the total
    of a scope is the sum of the times of the records in it. *)
Definition scopeOf (blockLevels : gmap Z Profiler.LineInfo) (record : Profiler.ProfileRecord)
  : option Z :=
  Profiler.blockID (Profiler.blockInfoOf blockLevels record.1.1).

Definition scopeTotal (blockLevels : gmap Z Profiler.LineInfo)
    (records : list Profiler.ProfileRecord) (scope : option Z) : Z :=
  foldr Z.add 0 (map snd (filter (λ r, scopeOf blockLevels r = scope) records)).

(** [time / scopeTotal], and 0 when the total is 0. *)
Definition ratio_in_scope (time total : Z) : Q :=
  if total =? 0 then 0%Q else (inject_Z time / inject_Z total)%Q.

Definition module_scope : Profiler.LineInfo :=
  {| Profiler.color := Some "#9C27B0"; Profiler.blockID := Some 0 |}.

(** What the second loop computes for one record. *)
Definition percentOfRecord (blockLevels : gmap Z Profiler.LineInfo)
    (blockTimes : gmap (option Z) Z) (record : Profiler.ProfileRecord) : Profiler.number Z :=
  Profiler.percentOf (Profiler.ratioOf record.2 (blockTimes !! scopeOf blockLevels record)).

Definition prefixOfRecord (blockLevels : gmap Z Profiler.LineInfo)
    (blockTimes : gmap (option Z) Z) (record : Profiler.ProfileRecord)
  : Profiler.DecorationOptions :=
  Profiler.prefixDecoration (record.1.1 - 1) (percentOfRecord blockLevels blockTimes record)
    (Profiler.color (Profiler.blockInfoOf blockLevels record.1.1)).

Definition hoverOfRecord (clocksPerSec : Q) (blockLevels : gmap Z Profiler.LineInfo)
    (blockTimes : gmap (option Z) Z) (record : Profiler.ProfileRecord)
  : Profiler.DecorationOptions :=
  Profiler.lineDecoration (record.1.1 - 1)
    (Profiler.createHoverMessage clocksPerSec (percentOfRecord blockLevels blockTimes record)
       record.2 record.1.2).

(** A background decoration is drawn when it is in the list of some colour. *)
Definition drawn (backgrounds : list (string * list Profiler.DecorationOptions))
    (option : Profiler.DecorationOptions) : Prop :=
  ∃ colour options, (colour, options) ∈ backgrounds ∧ option ∈ options.

(** The gutter labels of a rendering, in order. *)
Definition labels (shown : Profiler.rendering) : list string :=
  omap (λ d, Profiler.contentText <$> Profiler.before d) (Profiler.prefixes shown).

(** *** Function folds

    The fold ranges [mapLinesToBlocks] enters: those whose first line, after
    its leading white space, begins with [def ]. *)
Definition is_function_fold (editor : Profiler.TextEditor) (fr : Profiler.FoldingRange) : bool :=
  match Profiler.isFunctionFold editor fr with
  | Normal b => b
  | Throw _ => false
  end.

Definition function_folds (editor : Profiler.TextEditor) (foldRanges : list Profiler.FoldingRange)
  : list Profiler.FoldingRange :=
  filter (λ fr, is_function_fold editor fr = true) foldRanges.

Definition enterBlocks (folds : list Profiler.FoldingRange) (st : Profiler.blocks)
  : Profiler.blocks :=
  fold_left (λ st fr, Profiler.enterBlock fr st) folds st.

(** A fold range the document has the lines for. *)
Definition within (editor : Profiler.TextEditor) (fr : Profiler.FoldingRange) : Prop :=
  0 ≤ Profiler.start fr < Profiler.lineCount editor
  ∧ Profiler.end_ fr < Profiler.lineCount editor.

(** *** Function scopes

    The function folds of a file are well nested when each spans more than
    one line of the document and, taken in order, each later one starts after
    the earlier one and either lies inside it or starts after its end. *)
Definition spans (lineCount : Z) (c : Profiler.FoldingRange) : Prop :=
  0 ≤ Profiler.start c < Profiler.end_ c ∧ Profiler.end_ c < lineCount.

Definition follows (c d : Profiler.FoldingRange) : Prop :=
  Profiler.start c < Profiler.start d
  ∧ (Profiler.end_ c < Profiler.start d ∨ Profiler.end_ d ≤ Profiler.end_ c).

Definition well_nested (lineCount : Z) (folds : list Profiler.FoldingRange) : Prop :=
  Forall (spans lineCount) folds ∧ StronglySorted follows folds.

(** The folds of [folds], with their positions, that are still open at line
    [s]: those that end at [s] or later. *)
Definition opened (folds : list Profiler.FoldingRange) (s : Z)
  : list (nat * Profiler.FoldingRange) :=
  filter (λ ic, s ≤ Profiler.end_ ic.2) (imap (λ i c, (i, c)) folds).

(** The scope created for the [i]-th function fold [c]: its id is [i + 1],
    its colour the palette entry of its nesting depth, one more than the
    number of earlier folds open at its first line. *)
Definition own_scope (folds : list Profiler.FoldingRange) (ic : nat * Profiler.FoldingRange)
  : Profiler.LineInfo :=
  {| Profiler.color :=
       Profiler.getBlockColors
         !! ((1 + length (opened (take ic.1 folds) (Profiler.start ic.2))) mod 5)%nat;
     Profiler.blockID := Some (Z.of_nat ic.1 + 1) |}.

(** The parent scope of the [j]-th function fold [fr]: the scope of the
    latest earlier fold still open at its first line, or the module scope. *)
Definition parent_scope (folds : list Profiler.FoldingRange) (j : nat)
    (fr : Profiler.FoldingRange) : Profiler.LineInfo :=
  match last (opened (take j folds) (Profiler.start fr)) with
  | Some ic => own_scope folds ic
  | None => module_scope
  end.

(** The block id and the colour of a line of the document, counted from 0 as
    fold ranges count them. *)
Definition scope_at (lineMap : gmap Z Profiler.LineInfo) (line : Z) : option Z :=
  lineMap !! (line + 1) ≫= Profiler.blockID.

Definition colour_at (lineMap : gmap Z Profiler.LineInfo) (line : Z) : option string :=
  lineMap !! (line + 1) ≫= Profiler.color.

(** *** The schedule of the handshake

    An attempt that is refused takes [duration] milliseconds and is followed by
    the back-off; [attempt_start server start k] is the time at which the
    [k]-th attempt begins when the ones before it were refused. *)
Definition duration (a : Ping.attempt) : Z :=
  match a with
  | Ping.Refused after | Ping.Answered after => after
  | Ping.Silent => 0
  end.

Fixpoint attempt_start (server : Ping.endpoint) (start : Z) (k : nat) : Z :=
  match k with
  | O => start
  | S k' => attempt_start server start k' + duration (server k') + Ping.backoff
  end.

Definition request_is (config : list (string * json)) (type : string) : Prop :=
  Js.field "request" config = Some (JStr type).

Definition no_window : Descriptor.window :=
  {| Descriptor.terminals := []; Descriptor.errors := [] |}.

(** *** The inbound rewriting as a map over the message

    [assign helper v] is the value a path field holding [v] has once a
    callback has looked at it: the helper's result when [v] is truthy and the
    helper returns, [v] itself otherwise.  [absolutize helper] applies it to
    [body.source.path] and to the [source.path] of every element of
    [body.stackFrames] and leaves everything else as it is. *)
Definition assign (helper : option json → completion string) (v : json) : json :=
  if Js.truthy (Some v) then
    match helper (Some v) with
    | Normal r => JStr r
    | Throw _ => v
    end
  else v.

Definition absolutize_source (helper : option json → completion string) : json → json :=
  Js.at_field "source" (Js.at_field "path" (assign helper)).

Definition absolutize (helper : option json → completion string) (m : json) : json :=
  Js.at_field "body"
    (λ body, Js.at_field "stackFrames" (Js.at_each (absolutize_source helper))
               (absolutize_source helper body)) m.

(** The elements of an array from index [i] on. *)
Definition at_from (i : nat) (f : json → json) (v : json) : json :=
  match v with
  | JArr elems => JArr (take i elems ++ map f (drop i elems))
  | _ => v
  end.

(** A path field that holds an absolute path. *)
Definition absolute_path (v : option json) : Prop :=
  ∃ s, v = Some (JStr s) ∧ Path.isAbsolute s = true.

(** The path field of a breakpoint request. *)
Definition breakpoint_path (m : json) : option json :=
  Js.opt_member (Js.opt_member (Js.opt_member (Some m) "arguments") "source") "path".

(** *** The layout of a rendering *)

(** The background colour the second loop chooses for a record. *)
Definition colourOfRecord (blockLevels : gmap Z Profiler.LineInfo)
    (blockTimes : gmap (option Z) Z) (record : Profiler.ProfileRecord) : string :=
  Profiler.generateBackgroundColor
    (Profiler.ratioOf record.2 (blockTimes !! scopeOf blockLevels record)).

(** The tints a ratio between 0 and 1 can give: alpha from 0 to 0.8 in
    steps of a hundredth. *)
Definition tints : list string :=
  map (λ n, "hsla(210, 60%, 65%, " +:+ Profiler.print_hundredths n +:+ ")") (seqZ 0 81).

(** The lines, counted from 0, that the records cover. *)
Definition covered_by (records : list Profiler.ProfileRecord) : list Z :=
  map (λ r, r.1.1 - 1) records.

(** The records of the line [i], counted from 0. *)
Definition records_at (records : list Profiler.ProfileRecord) (i : Z)
  : list Profiler.ProfileRecord :=
  filter (λ r, r.1.1 = i + 1) records.

(** The gutter entries of a rendering on the line [i]. *)
Definition gutter_at (shown : Profiler.rendering) (i : Z) : list Profiler.DecorationOptions :=
  filter (λ d, Profiler.range d = i) (Profiler.prefixes shown).

(** Every background decoration of a rendering, colour by colour. *)
Definition all_backgrounds (shown : Profiler.rendering) : list Profiler.DecorationOptions :=
  concat (Profiler.backgrounds shown).*2.

(** What the second loop does to the backgrounds for one record. *)
Definition pushRecord (clocksPerSec : Q) (blockLevels : gmap Z Profiler.LineInfo)
    (blockTimes : gmap (option Z) Z)
    (backgrounds : list (string * list Profiler.DecorationOptions))
    (record : Profiler.ProfileRecord) : list (string * list Profiler.DecorationOptions) :=
  Profiler.pushOption (colourOfRecord blockLevels blockTimes record)
    (hoverOfRecord clocksPerSec blockLevels blockTimes record) backgrounds.

(** The time of all records of a file together. *)
Definition total_time (records : list Profiler.ProfileRecord) : Z :=
  foldr Z.add 0 (map snd records).

(** *** The life of a decoration type *)

(** What the decorator is asked to do, in order. *)
Inductive request : Type :=
  | Show (editor : Profiler.TextEditor) (shown : option Profiler.rendering)
  | Dispose.

Definition serve (d : Decorations.decorator) (r : request) : Decorations.decorator :=
  match r with
  | Show editor shown => Decorations.show editor shown d
  | Dispose => Decorations.dispose d
  end.

(** The decoration types disposed by a sequence of calls, in order. *)
Definition disposed (calls : list Decorations.call) : list nat :=
  omap (λ c, match c with Decorations.disposeType dt => Some dt | _ => None end) calls.

(** How often the decoration type [dt] has been disposed. *)
Definition disposals (d : Decorations.decorator) (dt : nat) : nat :=
  length (filter (λ x, x = dt) (disposed (Decorations.calls d))).

(** The decoration types the decorator holds for its editors. *)
Definition registered (d : Decorations.decorator) : list nat :=
  concat (Decorations.editorToDecorationTypes d).*2.

(** The decorator's books are in order: the background types it holds are
    distinct, were created after the gutter type and have not been disposed,
    and every other background type it created has been disposed once. *)
Record in_order (d : Decorations.decorator) : Prop := {
  keys_distinct : NoDup (Decorations.editorToDecorationTypes d).*1;
  types_distinct : NoDup (registered d);
  types_known : ∀ dt, dt ∈ registered d →
    (Decorations.prefixDecorationType d < dt < Decorations.nextType d)%nat;
  prefix_known : (Decorations.prefixDecorationType d < Decorations.nextType d)%nat;
  disposed_known : ∀ dt, dt ∈ disposed (Decorations.calls d) → (dt < Decorations.nextType d)%nat;
  created_known : ∀ dt color,
    Decorations.createTextEditorDecorationType dt (Some color) ∈ Decorations.calls d →
    (Decorations.prefixDecorationType d < dt < Decorations.nextType d)%nat;
  disposed_once : ∀ dt,
    (Decorations.prefixDecorationType d < dt < Decorations.nextType d)%nat →
    disposals d dt = if decide (dt ∈ registered d) then 0%nat else 1%nat
}.

(** *** Shares *)

(** The ratio the second loop computes for a record. *)
Definition ratioOfRecord (blockLevels : gmap Z Profiler.LineInfo)
    (blockTimes : gmap (option Z) Z) (record : Profiler.ProfileRecord) : Profiler.number Q :=
  Profiler.ratioOf record.2 (blockTimes !! scopeOf blockLevels record).

(** The value of a number that is finite. *)
Definition finite_part (x : Profiler.number Q) : Q :=
  match x with
  | Profiler.Finite q => q
  | _ => 0%Q
  end.

Definition sumQ (l : list Q) : Q := foldr Qplus 0%Q l.

(** The records of a scope. *)
Definition records_in (blockLevels : gmap Z Profiler.LineInfo)
    (records : list Profiler.ProfileRecord) (scope : option Z) : list Profiler.ProfileRecord :=
  filter (λ r, scopeOf blockLevels r = scope) records.

(** *** Fixtures *)
Definition silent_server : Ping.endpoint := λ _, Ping.Silent.

Definition fatal_boom : json :=
  JObj [("seq", JNum 7); ("type", JStr "event"); ("event", JStr "fatalError");
        ("body", JObj [("message", JStr "boom")])].

Definition twelve_lines : Profiler.TextEditor := {|
  Profiler.uri := "file:///proj/a.py";
  Profiler.fsPath := "/proj/a.py";
  Profiler.languageId := "python";
  Profiler.lines :=
    ["import m"; ""; "def f():"; "    a = 1"; "    def g():"; "        b = 2";
     "        return b"; "    c = g()"; "    d = c"; "    e = d"; "    return e"; "f()"]
|}.

Definition three_lines : Profiler.TextEditor := {|
  Profiler.uri := "file:///proj/b.py";
  Profiler.fsPath := "/proj/b.py";
  Profiler.languageId := "python";
  Profiler.lines := ["a = 1"; "b = 2"; "c = 3"]
|}.

Definition nested_folds : list Profiler.FoldingRange :=
  [ {| Profiler.start := 2; Profiler.end_ := 10 |};
    {| Profiler.start := 4; Profiler.end_ := 6 |} ].

Definition stack_trace_response : json :=
  JObj [("seq", JNum 12); ("type", JStr "response"); ("command", JStr "stackTrace");
        ("body", JObj [("stackFrames",
           JArr [JObj [("id", JNum 1); ("name", JStr "g");
                       ("source", JObj [("path", JStr "pkg/util.py")]); ("line", JNum 4)];
                 JObj [("id", JNum 2); ("name", JStr "f");
                       ("source", JObj [("path", JStr "/proj/main.py")]); ("line", JNum 9)];
                 JObj [("id", JNum 3); ("name", JStr "<module>"); ("line", JNum 1)]]);
           ("totalFrames", JNum 3)])].

Definition set_breakpoints_request : json :=
  JObj [("seq", JNum 3); ("type", JStr "request"); ("command", JStr "setBreakpoints");
        ("arguments", JObj [("source", JObj [("path", JStr "/tmp/x.py")]);
                            ("breakpoints", JArr [JObj [("line", JNum 2)]])])].

Definition fatal_error_in_file : json :=
  JObj [("seq", JNum 8); ("type", JStr "event"); ("event", JStr "fatalError");
        ("body", JObj [("message", JStr "boom");
                       ("source", JObj [("path", JStr "pkg/util.py")])])].

Definition hot_loop_records : list Profiler.ProfileRecord :=
  [(1, 1, 10); (3, 100, 600); (5, 100, 350); (6, 100, 40)].

Definition util_editor : Profiler.TextEditor := {|
  Profiler.uri := "file:///proj/pkg/util.py";
  Profiler.fsPath := "/proj/pkg/util.py";
  Profiler.languageId := "python";
  Profiler.lines := ["def work(n):"; "    s = 0"; "    for i in range(n):"; "        s += i";
                     "    print(s)"; "    return s"]
|}.

(** * Properties *)

(** ** Strings and segments *)

Lemma str_app_cons c s t : String c s +:+ t = String c (s +:+ t).
Proof. reflexivity. Qed.

Lemma str_app_nil_r s : s +:+ "" = s.
Proof. induction s as [|c s IH]; [done|]. by rewrite str_app_cons, IH. Qed.

Lemma str_app_assoc s t u : (s +:+ t) +:+ u = s +:+ t +:+ u.
Proof. induction s as [|c s IH]; [done|]. by rewrite !str_app_cons, IH. Qed.

Lemma str_app_eq_nil s t : s +:+ t = "" → s = "" ∧ t = "".
Proof. destruct s; [done|]. by rewrite str_app_cons. Qed.

Lemma split_not_nil s : Path.split s ≠ [].
Proof.
  destruct s as [|c s]; simpl; [done|].
  destruct (Ascii.eqb c "/"); [done|]. by destruct (Path.split s).
Qed.

Lemma split_app_slash a b : Path.split (a +:+ "/" +:+ b) = Path.split a ++ Path.split b.
Proof.
  induction a as [|c a IH]; [done|].
  rewrite str_app_cons. simpl. destruct (Ascii.eqb c "/").
  - by rewrite IH.
  - rewrite IH. pose proof (split_not_nil a). by destruct (Path.split a).
Qed.

Lemma split_slash_free s : slash_free s = true → Path.split s = [s].
Proof.
  induction s as [|c s IH]; [done|]. simpl.
  intros [Hc Hs]%andb_true_iff. apply negb_true_iff in Hc. rewrite Hc.
  by rewrite (IH Hs).
Qed.

Lemma split_is_slash_free s : Forall (λ seg, slash_free seg = true) (Path.split s).
Proof.
  induction s as [|c s IH]; simpl; [by repeat constructor|].
  destruct (Ascii.eqb c "/") eqn:Hc; [by constructor|].
  destruct (Path.split s) as [|seg rest].
  - constructor; [simpl; by rewrite Hc|constructor].
  - inversion_clear IH. constructor; [|done]. simpl. by rewrite Hc.
Qed.

Lemma join_segments_cons x y l :
  Path.join_segments (x :: y :: l) = x +:+ "/" +:+ Path.join_segments (y :: l).
Proof. reflexivity. Qed.

Lemma split_join_segments l :
  l ≠ [] → Forall (λ seg, slash_free seg = true) l →
  Path.split (Path.join_segments l) = l.
Proof.
  induction l as [|x [|y l] IH]; intros Hne Hl; [done| |].
  - inversion_clear Hl. by apply split_slash_free.
  - inversion_clear Hl. rewrite join_segments_cons, split_app_slash.
    rewrite split_slash_free by done. by rewrite IH.
Qed.

Lemma proper_segment_spec s :
  proper_segment s = true ↔ s ≠ "" ∧ s ≠ "." ∧ s ≠ ".." ∧ slash_free s = true.
Proof.
  unfold proper_segment. rewrite !andb_true_iff, !negb_true_iff, !bool_decide_eq_false.
  tauto.
Qed.

Lemma proper_slash_free l :
  Forall (λ s, proper_segment s = true) l → Forall (λ seg, slash_free seg = true) l.
Proof.
  intros Hl. eapply Forall_impl; [exact Hl|].
  by intros s (_ & _ & _ & ?)%proper_segment_spec.
Qed.

Lemma filter_nonempty_proper (l : list string) :
  Forall (λ s, proper_segment s = true) l → filter (λ s, s ≠ "") l = l.
Proof.
  induction 1 as [|s l Hs _ IH]; [done|].
  apply proper_segment_spec in Hs as (? & _).
  rewrite filter_cons_True by done. by rewrite IH.
Qed.

Lemma segments_of_absolute l :
  Forall (λ s, proper_segment s = true) l → Path.segments_of (absolute_of l) = l.
Proof.
  intros Hl. unfold Path.segments_of, absolute_of.
  change (Path.split ("/" +:+ Path.join_segments l))
    with ("" :: Path.split (Path.join_segments l)).
  rewrite filter_cons_False by naive_solver.
  destruct l as [|x l]; [done|].
  rewrite split_join_segments by eauto using proper_slash_free.
  by apply filter_nonempty_proper.
Qed.

Lemma canonical_spec p :
  canonical p = true ↔
  ∃ segs, Forall (λ s, proper_segment s = true) segs ∧ p = absolute_of segs.
Proof.
  unfold canonical. rewrite andb_true_iff, bool_decide_eq_true, forallb_forall.
  split.
  - intros [Hall Hp]. exists (Path.segments_of p). split; [|done].
    apply Forall_forall. intros s Hs. apply Hall. by apply list_elem_of_In.
  - intros (segs & Hsegs & ->). rewrite segments_of_absolute by done. split; [|done].
    intros s Hs. apply list_elem_of_In in Hs.
    by eapply (proj1 (Forall_forall _ _) Hsegs).
Qed.

Lemma lies_under_spec root p :
  lies_under root p = true ↔
  ∃ rs rest,
    Forall (λ s, proper_segment s = true) rs ∧
    Forall (λ s, proper_segment s = true) rest ∧
    root = absolute_of rs ∧ p = absolute_of (rs ++ rest).
Proof.
  unfold lies_under. rewrite !andb_true_iff, bool_decide_eq_true, !canonical_spec.
  split.
  - intros [[(rs & Hrs & ->) (ps & Hps & ->)] Hpre].
    rewrite !segments_of_absolute in Hpre by done.
    destruct Hpre as [rest ->]. apply Forall_app in Hps as [_ Hrest].
    by exists rs, rest.
  - intros (rs & rest & Hrs & Hrest & -> & ->).
    assert (Forall (λ s, proper_segment s = true) (rs ++ rest)) by by apply Forall_app.
    split; [split; eauto|].
    rewrite !segments_of_absolute by done. by exists rest.
Qed.

(** ** Node's path functions on canonical paths *)

Lemma normalize_step_proper b res seg :
  proper_segment seg = true → Path.normalize_step b res seg = seg :: res.
Proof.
  intros (H1 & H2 & H3 & _)%proper_segment_spec. unfold Path.normalize_step.
  by rewrite !bool_decide_eq_false_2.
Qed.

Lemma normalize_step_empty b res : Path.normalize_step b res "" = res.
Proof. reflexivity. Qed.

Lemma fold_normalize_step b segs acc :
  Forall (λ s, s = "" ∨ proper_segment s = true) segs →
  fold_left (Path.normalize_step b) segs acc = rev (filter (λ s, s ≠ "") segs) ++ acc.
Proof.
  intros Hsegs. revert acc.
  induction Hsegs as [|s segs [->|Hs] _ IH]; intros acc; simpl; [done|..].
  - rewrite normalize_step_empty, filter_cons_False by naive_solver. apply IH.
  - rewrite normalize_step_proper by done.
    rewrite filter_cons_True by (by apply proper_segment_spec in Hs as (? & _)).
    rewrite IH. simpl. by rewrite <-(assoc_L (++)).
Qed.

Lemma normalize_segments_proper b segs :
  Forall (λ s, s = "" ∨ proper_segment s = true) segs →
  Path.normalize_segments b segs = filter (λ s, s ≠ "") segs.
Proof.
  intros Hsegs. unfold Path.normalize_segments.
  rewrite fold_normalize_step by done. by rewrite app_nil_r, rev_involutive.
Qed.

Lemma split_absolute_of l :
  Forall (λ s, proper_segment s = true) l →
  Forall (λ s, s = "" ∨ proper_segment s = true) (Path.split (absolute_of l)) ∧
  filter (λ s, s ≠ "") (Path.split (absolute_of l)) = l.
Proof.
  intros Hl. split; [|by apply segments_of_absolute].
  unfold absolute_of.
  change (Path.split ("/" +:+ Path.join_segments l))
    with ("" :: Path.split (Path.join_segments l)).
  constructor; [by left|].
  destruct l as [|x l]; [by repeat constructor|].
  rewrite split_join_segments by eauto using proper_slash_free.
  eapply Forall_impl; [exact Hl|]. by right.
Qed.

Lemma normalizeString_absolute_of b l suffix :
  Forall (λ s, proper_segment s = true) l →
  Forall (λ s, proper_segment s = true) suffix →
  Path.normalizeString (absolute_of l +:+ "/" +:+ Path.join_segments suffix) b
  = Path.join_segments (l ++ suffix).
Proof.
  intros Hl Hs. unfold Path.normalizeString.
  rewrite split_app_slash.
  destruct (split_absolute_of l Hl) as [Hall Hfilter].
  assert (Forall (λ s, s = "" ∨ proper_segment s = true)
            (Path.split (Path.join_segments suffix))
          ∧ filter (λ s, s ≠ "") (Path.split (Path.join_segments suffix)) = suffix)
    as [Hall' Hfilter'].
  { destruct suffix as [|x suffix]; [by split; repeat constructor|].
    rewrite split_join_segments by eauto using proper_slash_free.
    split; [|by apply filter_nonempty_proper].
    eapply Forall_impl; [exact Hs|]. by right. }
  rewrite normalize_segments_proper by by apply Forall_app.
  by rewrite filter_app, Hfilter, Hfilter'.
Qed.

Lemma normalizeString_absolute b l :
  Forall (λ s, proper_segment s = true) l →
  Path.normalizeString (absolute_of l) b = Path.join_segments l.
Proof.
  intros Hl. unfold Path.normalizeString.
  destruct (split_absolute_of l Hl) as [Hall Hfilter].
  by rewrite normalize_segments_proper, Hfilter.
Qed.

Lemma absolute_of_not_empty l : absolute_of l ≠ "".
Proof. done. Qed.

Lemma isAbsolute_absolute_of l : Path.isAbsolute (absolute_of l) = true.
Proof. done. Qed.

Lemma resolve_canonical cwd l :
  Forall (λ s, proper_segment s = true) l →
  Path.resolve cwd (absolute_of l) = absolute_of l.
Proof.
  intros Hl. unfold Path.resolve.
  rewrite (bool_decide_eq_false_2 (absolute_of l = "")) by done.
  cbn [snd fst]. rewrite isAbsolute_absolute_of. cbn [negb].
  change (absolute_of l +:+ "/" +:+ "")
    with (absolute_of l +:+ "/" +:+ Path.join_segments []).
  rewrite normalizeString_absolute_of by done. by rewrite app_nil_r.
Qed.

Lemma absolute_of_inj l k :
  Forall (λ s, proper_segment s = true) l →
  Forall (λ s, proper_segment s = true) k →
  absolute_of l = absolute_of k → l = k.
Proof.
  intros Hl Hk Heq.
  by rewrite <-(segments_of_absolute l Hl), <-(segments_of_absolute k Hk), Heq.
Qed.

Lemma common_prefix_length_app rs rest :
  Path.common_prefix_length rs (rs ++ rest) = length rs.
Proof.
  induction rs as [|r rs IH]; simpl; [by destruct rest|].
  by rewrite bool_decide_eq_true_2, IH.
Qed.

Lemma relative_under cwd rs rest :
  Forall (λ s, proper_segment s = true) rs →
  Forall (λ s, proper_segment s = true) rest →
  Path.relative cwd (absolute_of rs) (absolute_of (rs ++ rest)) = Path.join_segments rest.
Proof.
  intros Hrs Hrest.
  assert (Forall (λ s, proper_segment s = true) (rs ++ rest)) as Hp by by apply Forall_app.
  unfold Path.relative.
  destruct rest as [|x rest].
  { by rewrite app_nil_r, bool_decide_eq_true_2. }
  assert (absolute_of rs ≠ absolute_of (rs ++ x :: rest)) as Hne.
  { intros Heq%absolute_of_inj; [|done..].
    apply (f_equal length) in Heq. rewrite length_app in Heq. simpl in Heq. lia. }
  rewrite bool_decide_eq_false_2 by done.
  rewrite !resolve_canonical by done.
  rewrite bool_decide_eq_false_2 by done.
  rewrite !segments_of_absolute by done.
  rewrite common_prefix_length_app, Nat.sub_diag, drop_app_length. done.
Qed.

Lemma endsWithSlash_cons c s : s ≠ "" → Path.endsWithSlash (String c s) = Path.endsWithSlash s.
Proof. by destruct s. Qed.

Lemma endsWithSlash_app a b : b ≠ "" → Path.endsWithSlash (a +:+ b) = Path.endsWithSlash b.
Proof.
  intros Hb. induction a as [|c a IH]; [done|].
  rewrite str_app_cons, endsWithSlash_cons; [done|].
  by intros [_ ?]%str_app_eq_nil.
Qed.

Lemma endsWithSlash_slash_free s : slash_free s = true → Path.endsWithSlash s = false.
Proof.
  induction s as [|c s IH]; [done|]. simpl.
  intros [Hc Hs]%andb_true_iff. destruct s; [by apply negb_true_iff|by apply IH].
Qed.

Lemma join_segments_proper x l :
  Forall (λ s, proper_segment s = true) (x :: l) →
  Path.join_segments (x :: l) ≠ "" ∧
  Path.endsWithSlash (Path.join_segments (x :: l)) = false ∧
  Path.isAbsolute (Path.join_segments (x :: l)) = false.
Proof.
  revert x. induction l as [|y l IH]; intros x Hl.
  - inversion_clear Hl as [|?? Hx _].
    apply proper_segment_spec in Hx as (? & _ & _ & Hx).
    split; [done|]. split; [by apply endsWithSlash_slash_free|].
    destruct x as [|c x]; [done|]. simpl in *. by apply andb_true_iff in Hx as [->%negb_true_iff _].
  - inversion Hl as [|?? Hx Hl']; subst.
    destruct (IH y Hl') as (Hne & Hend & _).
    apply proper_segment_spec in Hx as (? & _ & _ & Hx).
    rewrite join_segments_cons. split_and!.
    + destruct x; [done|]. by rewrite str_app_cons.
    + rewrite !endsWithSlash_app; [done..|]. destruct y; by rewrite ?str_app_cons.
    + destruct x as [|c x]; [done|]. rewrite str_app_cons. simpl in *.
      by apply andb_true_iff in Hx as [->%negb_true_iff _].
Qed.

Lemma isAbsolute_join_segments l :
  Forall (λ s, proper_segment s = true) l → Path.isAbsolute (Path.join_segments l) = false.
Proof. destruct l; [done|]. intros Hl. by apply join_segments_proper. Qed.

Lemma normalize_canonical l :
  Forall (λ s, proper_segment s = true) l → Path.normalize (absolute_of l) = absolute_of l.
Proof.
  intros Hl. unfold Path.normalize.
  rewrite (bool_decide_eq_false_2 (absolute_of l = "")) by done.
  rewrite isAbsolute_absolute_of. cbn [negb]. cbv zeta.
  rewrite normalizeString_absolute by done.
  destruct l as [|x l]; [done|].
  destruct (join_segments_proper x l Hl) as (Hne & Hend & _).
  rewrite bool_decide_eq_false_2 by done.
  unfold absolute_of at 1. rewrite endsWithSlash_app by done. by rewrite Hend.
Qed.

Lemma join_under rs rest :
  Forall (λ s, proper_segment s = true) rs →
  Forall (λ s, proper_segment s = true) rest →
  Path.join (absolute_of rs) (Path.join_segments rest) = absolute_of (rs ++ rest).
Proof.
  intros Hrs Hrest. unfold Path.join.
  rewrite (bool_decide_eq_false_2 (absolute_of rs = "")) by done.
  destruct rest as [|x rest].
  { rewrite (bool_decide_eq_true_2 (Path.join_segments [] = "")) by done.
    rewrite bool_decide_eq_false_2 by done.
    rewrite app_nil_r. by apply normalize_canonical. }
  destruct (join_segments_proper x rest Hrest) as (Hne & Hend & _).
  rewrite (bool_decide_eq_false_2 (Path.join_segments (x :: rest) = "")) by done.
  rewrite bool_decide_eq_false_2 by done.
  unfold Path.normalize.
  rewrite bool_decide_eq_false_2 by done.
  change (Path.isAbsolute (absolute_of rs +:+ "/" +:+ Path.join_segments (x :: rest)))
    with true.
  cbn [negb]. cbv zeta.
  rewrite normalizeString_absolute_of by done.
  assert (Forall (λ s, proper_segment s = true) (rs ++ x :: rest)) as Hall
    by by apply Forall_app.
  destruct (rs ++ x :: rest) as [|y l] eqn:Heq; [by destruct rs|].
  destruct (join_segments_proper y l Hall) as (Hne' & _ & _).
  rewrite bool_decide_eq_false_2 by done.
  rewrite !endsWithSlash_app by done. by rewrite Hend.
Qed.

(** ** PathRewriter *)

Lemma prefix_app a b : String.prefix a (a +:+ b) = true.
Proof.
  induction a as [|c a IH]; [by destruct b|].
  rewrite str_app_cons. simpl. by destruct (ascii_dec c c).
Qed.

Lemma join_segments_app x l y k :
  Path.join_segments ((x :: l) ++ y :: k)
  = Path.join_segments (x :: l) +:+ "/" +:+ Path.join_segments (y :: k).
Proof.
  revert x. induction l as [|z l IH]; intros x; [done|].
  change ((x :: z :: l) ++ y :: k) with (x :: ((z :: l) ++ y :: k)).
  change ((z :: l) ++ y :: k) with (z :: (l ++ y :: k)) at 1.
  rewrite !join_segments_cons. change (z :: l ++ y :: k) with ((z :: l) ++ y :: k).
  by rewrite IH, str_app_assoc.
Qed.

Lemma startsWith_under rs rest :
  Path.startsWith (absolute_of (rs ++ rest)) (absolute_of rs) = true.
Proof.
  unfold Path.startsWith, absolute_of.
  destruct rs as [|x rs].
  { change ("/" +:+ Path.join_segments []) with "/". apply prefix_app. }
  destruct rest as [|y rest].
  - rewrite app_nil_r. rewrite <-(str_app_nil_r (_ +:+ Path.join_segments (x :: rs))) at 2.
    apply prefix_app.
  - rewrite join_segments_app, <-str_app_assoc. apply prefix_app.
Qed.

Lemma common_prefix_length_le xs ys : (Path.common_prefix_length xs ys ≤ length xs)%nat.
Proof.
  revert ys. induction xs as [|x xs IH]; intros [|y ys]; simpl; try lia.
  case_bool_decide; [|lia]. specialize (IH ys). lia.
Qed.

Lemma common_prefix_length_full xs ys :
  Path.common_prefix_length xs ys = length xs → xs `prefix_of` ys.
Proof.
  revert ys. induction xs as [|x xs IH]; intros ys Hlen; [by exists ys|].
  destruct ys as [|y ys]; [done|]. simpl in Hlen.
  case_bool_decide; [|done]. subst y.
  injection Hlen as Hlen. apply IH in Hlen as [k ->]. by exists k.
Qed.

Lemma startsWith_dotdot n l :
  Path.startsWith (Path.join_segments (replicate (S n) ".." ++ l)) ".." = true.
Proof.
  unfold Path.startsWith. simpl replicate.
  destruct (replicate n ".." ++ l) as [|y k] eqn:Heq.
  - change ((".." :: replicate n "..") ++ l) with (".." :: (replicate n ".." ++ l)).
    by rewrite Heq.
  - change ((".." :: replicate n "..") ++ l) with (".." :: (replicate n ".." ++ l)).
    rewrite Heq, join_segments_cons. apply prefix_app.
Qed.

Lemma relative_outside cwd rs ps :
  Forall (λ s, proper_segment s = true) rs →
  Forall (λ s, proper_segment s = true) ps →
  ¬ rs `prefix_of` ps →
  ∃ n l, Path.relative cwd (absolute_of rs) (absolute_of ps)
         = Path.join_segments (replicate (S n) ".." ++ l).
Proof.
  intros Hrs Hps Hnot.
  assert (absolute_of rs ≠ absolute_of ps) as Hne.
  { intros Heq%absolute_of_inj; [|done..]. subst. by apply Hnot. }
  unfold Path.relative.
  rewrite bool_decide_eq_false_2 by done.
  rewrite !resolve_canonical by done.
  rewrite bool_decide_eq_false_2 by done.
  rewrite !segments_of_absolute by done.
  pose proof (common_prefix_length_le rs ps) as Hle.
  assert (Path.common_prefix_length rs ps ≠ length rs) as Hlt
    by (by intros ?%common_prefix_length_full).
  destruct (length rs - Path.common_prefix_length rs ps)%nat as [|n] eqn:Hn; [lia|].
  eauto.
Qed.

(** C3. For every path [p] lying under the active root, making it relative
    to the root and then absolute again gives [p] back, in the current revision
    of the helpers and in the earlier one. *)
Theorem toAbsolute_toRelative_roundtrip (cwd root p : string) :
  lies_under root p = true →
  (∃ rel, Current.toRelativePath cwd (Some root) (Some (JStr p)) = Normal rel
          ∧ Current.toAbsolutePath (Some root) (Some (JStr rel)) = Normal p)
  ∧ (∃ rel, Earlier.toRelativePath cwd root (Some (JStr p)) = Normal rel
            ∧ Earlier.toAbsolutePath root (Some (JStr rel)) = Normal p).
Proof.
  intros (rs & rest & Hrs & Hrest & -> & ->)%lies_under_spec.
  assert (∀ rel, rel = Path.join_segments rest →
            Path.isAbsolute rel = false ∧ Path.join (absolute_of rs) rel = absolute_of (rs ++ rest))
    as Hback.
  { intros rel ->. split; [by apply isAbsolute_join_segments|by apply join_under]. }
  destruct (Hback _ eq_refl) as [Habs Hjoin].
  split.
  - exists (Path.join_segments rest). unfold Current.toRelativePath, Current.toAbsolutePath.
    rewrite relative_under by done. by rewrite Habs, Hjoin.
  - exists (Path.join_segments rest). unfold Earlier.toRelativePath, Earlier.toAbsolutePath.
    rewrite startsWith_under, relative_under by done. by rewrite Habs, Hjoin.
Qed.

Lemma toAbsolute_toRelative_roundtrip_witness :
  lies_under "/home/u/proj" "/home/u/proj/pkg/mod.py" = true
  ∧ Current.toRelativePath "/" (Some "/home/u/proj") (Some (JStr "/home/u/proj/pkg/mod.py"))
    = Normal "pkg/mod.py"
  ∧ ∃ rel, Current.toRelativePath "/" (Some "/home/u/proj") (Some (JStr "/home/u/proj/pkg/mod.py"))
           = Normal rel
           ∧ Current.toAbsolutePath (Some "/home/u/proj") (Some (JStr rel))
             = Normal "/home/u/proj/pkg/mod.py".
Proof.
  split; [reflexivity|]. split; [reflexivity|].
  apply (toAbsolute_toRelative_roundtrip "/" "/home/u/proj" "/home/u/proj/pkg/mod.py").
  reflexivity.
Defined.

(** C2, as stated, fails in the current revision: [toRelativePath] has no
    guard, so an absolute path outside the root is not returned unchanged but
    rewritten into a path that climbs out of the root. *)
Lemma toRelativePath_outside_root_is_rewritten :
  Path.isAbsolute "/tmp/x.py" = true
  ∧ lies_under "/home/u/proj" "/tmp/x.py" = false
  ∧ Current.toRelativePath "/" (Some "/home/u/proj") (Some (JStr "/tmp/x.py"))
    = Normal "../../../tmp/x.py"
  ∧ Current.toRelativePath "/" (Some "/home/u/proj") (Some (JStr "/tmp/x.py"))
    ≠ Normal "/tmp/x.py".
Proof. split_and!; [reflexivity..|discriminate]. Qed.

(** C2, amended.  For canonical absolute [root] and [p]:
    - when [p] lies under [root], both revisions return the root-relative
      path, the segments of [p] after those of [root];
    - when [p] does not lie under [root], the current revision returns
      [path.relative(root, p)], a relative path that starts with [..] and so is
      not [p];
    - the earlier revision returns [p] unchanged whenever [p] does not start
      with the root string. *)
Theorem toRelativePath_by_revision (cwd root p : string) :
  canonical root = true → canonical p = true →
  (lies_under root p = true →
     ∃ rest, Path.segments_of p = Path.segments_of root ++ rest
             ∧ Current.toRelativePath cwd (Some root) (Some (JStr p))
               = Normal (Path.join_segments rest)
             ∧ Earlier.toRelativePath cwd root (Some (JStr p))
               = Normal (Path.join_segments rest))
  ∧ (lies_under root p = false →
     ∃ rel, Current.toRelativePath cwd (Some root) (Some (JStr p)) = Normal rel
            ∧ Path.startsWith rel ".." = true ∧ rel ≠ p)
  ∧ (Path.startsWith p root = false →
     Earlier.toRelativePath cwd root (Some (JStr p)) = Normal p).
Proof.
  intros Hroot Hp. split_and!.
  - intros (rs & rest & Hrs & Hrest & -> & ->)%lies_under_spec.
    assert (Forall (λ s, proper_segment s = true) (rs ++ rest)) by by apply Forall_app.
    exists rest. rewrite !segments_of_absolute by done. split; [done|].
    unfold Current.toRelativePath, Earlier.toRelativePath.
    by rewrite startsWith_under, relative_under.
  - intros Hout.
    apply canonical_spec in Hroot as (rs & Hrs & ->).
    apply canonical_spec in Hp as (ps & Hps & ->).
    assert (¬ rs `prefix_of` ps) as Hnot.
    { intros Hpre. apply not_true_iff_false in Hout. apply Hout.
      apply lies_under_spec. destruct Hpre as [rest ->].
      apply Forall_app in Hps as [_ ?]. by exists rs, rest. }
    destruct (relative_outside cwd rs ps Hrs Hps Hnot) as (n & l & Hrel).
    exists (Path.join_segments (replicate (S n) ".." ++ l)).
    unfold Current.toRelativePath. rewrite Hrel. split; [done|].
    split; [apply startsWith_dotdot|].
    intros Heq. pose proof (startsWith_dotdot n l) as Hdots.
    rewrite Heq in Hdots. discriminate Hdots.
  - intros Hpre. unfold Earlier.toRelativePath. by rewrite Hpre.
Qed.

Lemma toRelativePath_by_revision_witness :
  (lies_under "/home/u/proj" "/tmp/x.py" = false →
     ∃ rel, Current.toRelativePath "/" (Some "/home/u/proj") (Some (JStr "/tmp/x.py"))
            = Normal rel
            ∧ Path.startsWith rel ".." = true ∧ rel ≠ "/tmp/x.py")
  ∧ (Path.startsWith "/tmp/x.py" "/home/u/proj" = false →
     Earlier.toRelativePath "/" "/home/u/proj" (Some (JStr "/tmp/x.py")) = Normal "/tmp/x.py").
Proof.
  apply (toRelativePath_by_revision "/" "/home/u/proj" "/tmp/x.py"); reflexivity.
Defined.

(** ** In-place updates of a message *)

Lemma update_field_compose k f g fields :
  Js.update_field k f (Js.update_field k g fields)
  = Js.update_field k (λ v, f (g v)) fields.
Proof.
  induction fields as [|[k' v] fields IH]; [done|]. simpl.
  destruct (bool_decide (k = k')) eqn:Hk; simpl; rewrite Hk; [done|]. by rewrite IH.
Qed.

Lemma update_field_ext k f g fields :
  (∀ v, f v = g v) → Js.update_field k f fields = Js.update_field k g fields.
Proof.
  intros Hfg. induction fields as [|[k' v] fields IH]; [done|]. simpl.
  case_bool_decide; [by rewrite Hfg|by rewrite IH].
Qed.

Lemma update_field_comm k1 k2 f g fields :
  k1 ≠ k2 →
  Js.update_field k1 f (Js.update_field k2 g fields)
  = Js.update_field k2 g (Js.update_field k1 f fields).
Proof.
  intros Hne. induction fields as [|[k' v] fields IH]; [done|]. simpl.
  destruct (decide (k2 = k')) as [->|H2], (decide (k1 = k')) as [->|H1]; try done.
  - rewrite (bool_decide_eq_true_2 (k' = k')), (bool_decide_eq_false_2 (k1 = k')) by done.
    simpl. by rewrite (bool_decide_eq_true_2 (k' = k')), (bool_decide_eq_false_2 (k1 = k')).
  - rewrite (bool_decide_eq_true_2 (k' = k')), (bool_decide_eq_false_2 (k2 = k')) by done.
    simpl. by rewrite (bool_decide_eq_true_2 (k' = k')), (bool_decide_eq_false_2 (k2 = k')).
  - rewrite (bool_decide_eq_false_2 (k1 = k')), (bool_decide_eq_false_2 (k2 = k')) by done.
    simpl. rewrite (bool_decide_eq_false_2 (k1 = k')), (bool_decide_eq_false_2 (k2 = k')) by done.
    by rewrite IH.
Qed.

Lemma field_update_field_ne k k' f fields :
  k ≠ k' → Js.field k' (Js.update_field k f fields) = Js.field k' fields.
Proof.
  intros Hne. induction fields as [|[k0 v] fields IH]; [done|]. simpl.
  destruct (decide (k = k0)) as [->|Hk].
  - rewrite (bool_decide_eq_true_2 (k0 = k0)) by done. simpl.
    by rewrite (bool_decide_eq_false_2 (k' = k0)).
  - rewrite (bool_decide_eq_false_2 (k = k0)) by done. simpl.
    case_bool_decide; [done|apply IH].
Qed.

Lemma field_update_field_eq k f fields :
  Js.field k (Js.update_field k f fields) = f <$> Js.field k fields.
Proof.
  induction fields as [|[k0 v] fields IH]; [done|]. simpl.
  destruct (bool_decide (k = k0)) eqn:Hk; simpl; rewrite Hk; [done|apply IH].
Qed.

Lemma at_field_compose k f g v :
  Js.at_field k f (Js.at_field k g v) = Js.at_field k (λ x, f (g x)) v.
Proof. destruct v; try done. simpl. by rewrite update_field_compose. Qed.

Lemma at_field_ext k f g v :
  (∀ x, f x = g x) → Js.at_field k f v = Js.at_field k g v.
Proof. intros Hfg. destruct v; try done. simpl. by rewrite (update_field_ext k f g). Qed.

Lemma at_field_comm k1 k2 f g v :
  k1 ≠ k2 →
  Js.at_field k1 f (Js.at_field k2 g v) = Js.at_field k2 g (Js.at_field k1 f v).
Proof. intros Hne. destruct v; try done. simpl. by rewrite update_field_comm. Qed.

Lemma opt_member_at_field_ne k k' f v :
  k ≠ k' → Js.opt_member (Some (Js.at_field k f v)) k' = Js.opt_member (Some v) k'.
Proof. intros Hne. destruct v; try done. simpl. by apply field_update_field_ne. Qed.

Lemma opt_member_at_field_eq k f v :
  Js.opt_member (Some (Js.at_field k f v)) k = f <$> Js.opt_member (Some v) k.
Proof. destruct v; try done. simpl. apply field_update_field_eq. Qed.

Lemma at_each_at_index e h i v :
  (∀ x, e (h x) = e x) → Js.at_each e (Js.at_index i h v) = Js.at_each e v.
Proof.
  intros Heh. destruct v as [| | | |elems|]; try done. simpl. f_equal.
  revert i. induction elems as [|x elems IH]; intros [|i]; simpl; [done..| |].
  - by rewrite Heh.
  - f_equal. apply IH.
Qed.

Lemma erase_path_idem (f : json → json) v :
  Js.at_field "source" (Js.at_field "path" blank)
    (Js.at_field "source" (Js.at_field "path" f) v)
  = Js.at_field "source" (Js.at_field "path" blank) v.
Proof.
  rewrite at_field_compose. apply at_field_ext. intros x.
  by rewrite at_field_compose.
Qed.

Lemma erase_outbound_assign p m :
  erase_outbound
    (Js.at_field "arguments" (Js.at_field "source" (Js.at_field "path" (λ _, JStr p))) m)
  = erase_outbound m.
Proof.
  unfold erase_outbound. rewrite at_field_compose. apply at_field_ext. intros x.
  apply erase_path_idem.
Qed.

Lemma erase_inbound_assign_source p m :
  erase_inbound
    (Js.at_field "body" (Js.at_field "source" (Js.at_field "path" (λ _, JStr p))) m)
  = erase_inbound m.
Proof.
  unfold erase_inbound. rewrite at_field_compose. apply at_field_ext. intros body.
  unfold erase_body.
  rewrite (at_field_comm "stackFrames" "source") by done.
  rewrite erase_path_idem. by rewrite (at_field_comm "source" "stackFrames").
Qed.

Lemma erase_inbound_assign_frame i p m :
  erase_inbound
    (Js.at_field "body" (Js.at_field "stackFrames" (Js.at_index i
       (Js.at_field "source" (Js.at_field "path" (λ _, JStr p))))) m)
  = erase_inbound m.
Proof.
  unfold erase_inbound. rewrite at_field_compose. apply at_field_ext. intros body.
  unfold erase_body. f_equal. rewrite at_field_compose. apply at_field_ext. intros frames.
  apply at_each_at_index. intros x. apply erase_path_idem.
Qed.

(** ** What a callback can do to the message *)

Ltac unfold_monad :=
  cbv [bind ret lift when getMessage mutate showErrorMessage member].

Section Keeps.
Context {V : Type} (view : json → V).

Lemma keeps_ret {A} (a : A) : keeps view (ret a).
Proof. by intros st. Qed.

Lemma keeps_lift {A} (c : completion A) : keeps view (lift c).
Proof. by intros st. Qed.

Lemma keeps_getMessage : keeps view getMessage.
Proof. by intros st. Qed.

Lemma keeps_member v k : keeps view (member v k).
Proof. intros st. by destruct v as [[]|]. Qed.

Lemma keeps_showErrorMessage text : keeps view (showErrorMessage text).
Proof. by intros st. Qed.

Lemma keeps_mutate f : (∀ m, view (f m) = view m) → keeps view (mutate f).
Proof. intros Hf st. apply Hf. Qed.

Lemma keeps_bind {A B} (c : M A) (k : A → M B) :
  keeps view c → (∀ a, keeps view (k a)) → keeps view (bind c k).
Proof.
  intros Hc Hk st. unfold bind. specialize (Hc st).
  destruct (c st) as [[a|e] st']; [|done].
  simpl in Hc. by rewrite Hk.
Qed.

Lemma keeps_when b c : keeps view c → keeps view (when b c).
Proof. intros Hc. destruct b; [done|apply keeps_ret]. Qed.
End Keeps.

Lemma quiet_ret {A} (a : A) : quiet (ret a).
Proof. by intros st. Qed.

Lemma quiet_lift {A} (c : completion A) : quiet (lift c).
Proof. by intros st. Qed.

Lemma quiet_getMessage : quiet getMessage.
Proof. by intros st. Qed.

Lemma quiet_member v k : quiet (member v k).
Proof. intros st. by destruct v as [[]|]. Qed.

Lemma quiet_mutate f : quiet (mutate f).
Proof. by intros st. Qed.

Lemma quiet_bind {A B} (c : M A) (k : A → M B) :
  quiet c → (∀ a, quiet (k a)) → quiet (bind c k).
Proof.
  intros Hc Hk st. unfold bind. specialize (Hc st).
  destruct (c st) as [[a|e] st']; [|done].
  simpl in Hc. by rewrite Hk.
Qed.

Lemma quiet_when b c : quiet c → quiet (when b c).
Proof. intros Hc. destruct b; [done|apply quiet_ret]. Qed.

Section TrackerFacts.
Variable toRelativePath : option json → completion string.
Variable toAbsolutePath : option json → completion string.

Lemma onWillReceiveMessage_keeps : keeps erase_outbound (onWillReceiveMessage toRelativePath).
Proof.
  unfold onWillReceiveMessage.
  apply keeps_bind; [apply keeps_getMessage|intros message].
  apply keeps_bind; [apply keeps_member|intros command].
  apply keeps_when, keeps_bind; [apply keeps_lift|intros relative].
  apply keeps_mutate. intros m. apply erase_outbound_assign.
Qed.

Lemma onWillReceiveMessage_quiet : quiet (onWillReceiveMessage toRelativePath).
Proof.
  unfold onWillReceiveMessage.
  apply quiet_bind; [apply quiet_getMessage|intros message].
  apply quiet_bind; [apply quiet_member|intros command].
  apply quiet_when, quiet_bind; [apply quiet_lift|intros relative].
  apply quiet_mutate.
Qed.

Lemma forStackFrames_keeps i frames :
  keeps erase_inbound (forStackFrames toAbsolutePath i frames).
Proof.
  revert i. induction frames as [|frame frames IH]; intros i; cbn [forStackFrames].
  { apply keeps_ret. }
  apply keeps_bind; [apply keeps_member|intros source].
  apply keeps_bind; [|intros _; apply IH].
  apply keeps_when, keeps_bind; [apply keeps_lift|intros absolute].
  apply keeps_mutate. intros m. apply erase_inbound_assign_frame.
Qed.

Lemma forStackFrames_quiet i frames : quiet (forStackFrames toAbsolutePath i frames).
Proof.
  revert i. induction frames as [|frame frames IH]; intros i; cbn [forStackFrames].
  { apply quiet_ret. }
  apply quiet_bind; [apply quiet_member|intros source].
  apply quiet_bind; [|intros _; apply IH].
  apply quiet_when, quiet_bind; [apply quiet_lift|intros absolute].
  apply quiet_mutate.
Qed.

Lemma onDidSendMessage_keeps : keeps erase_inbound (onDidSendMessage toAbsolutePath).
Proof.
  unfold onDidSendMessage.
  apply keeps_bind; [apply keeps_getMessage|intros message].
  apply keeps_bind; [apply keeps_member|intros body].
  apply keeps_bind.
  { apply keeps_when, keeps_bind; [apply keeps_lift|intros absolute].
    apply keeps_mutate. intros m. apply erase_inbound_assign_source. }
  intros _.
  apply keeps_bind; [apply keeps_getMessage|intros message'].
  apply keeps_bind; [apply keeps_member|intros body'].
  apply keeps_bind.
  { destruct (Js.opt_member body' "stackFrames") as [[]|];
      try apply keeps_ret. apply forStackFrames_keeps. }
  intros _.
  apply keeps_bind; [apply keeps_getMessage|intros message''].
  apply keeps_bind; [apply keeps_member|intros type].
  apply keeps_bind; [apply keeps_member|intros event].
  apply keeps_when, keeps_bind; [apply keeps_member|intros body''].
  apply keeps_showErrorMessage.
Qed.

End TrackerFacts.

Lemma path_ok_truthy v :
  path_ok v = true → Js.truthy v = true → ∃ s, v = Some (JStr s).
Proof.
  destruct v as [[]|]; simpl; intros Hok Ht; try (rewrite Ht in Hok; discriminate);
    try discriminate; eauto.
Qed.

Lemma erase_inbound_member a b k :
  k ≠ "body" → erase_inbound a = erase_inbound b →
  Js.opt_member (Some a) k = Js.opt_member (Some b) k.
Proof.
  intros Hk Heq.
  rewrite <-(opt_member_at_field_ne "body" k erase_body a) by done.
  rewrite <-(opt_member_at_field_ne "body" k erase_body b) by done.
  unfold erase_inbound in Heq. by rewrite Heq.
Qed.

Lemma erase_inbound_body_member a b k :
  k ≠ "source" → k ≠ "stackFrames" → erase_inbound a = erase_inbound b →
  Js.opt_member (Js.opt_member (Some a) "body") k
  = Js.opt_member (Js.opt_member (Some b) "body") k.
Proof.
  intros Hs Hf Heq.
  assert (∀ m, Js.opt_member (Js.opt_member (Some (erase_inbound m)) "body") k
               = Js.opt_member (Js.opt_member (Some m) "body") k) as Hm.
  { intros m. unfold erase_inbound. rewrite opt_member_at_field_eq.
    destruct (Js.opt_member (Some m) "body") as [body|]; [|done].
    change (erase_body <$> Some body) with (Some (erase_body body)).
    unfold erase_body.
    rewrite opt_member_at_field_ne by done. by rewrite opt_member_at_field_ne. }
  by rewrite <-(Hm a), <-(Hm b), Heq.
Qed.

Lemma erase_inbound_is_object a b :
  erase_inbound a = erase_inbound b → is_object a = is_object b.
Proof. by destruct a, b. Qed.

Lemma stack_frames_assign_source f m :
  stack_frames (Js.at_field "body" (Js.at_field "source" f) m) = stack_frames m.
Proof.
  unfold stack_frames. rewrite opt_member_at_field_eq.
  destruct (Js.opt_member (Some m) "body") as [body|]; [|done].
  change (Js.at_field "source" f <$> Some body) with (Some (Js.at_field "source" f body)).
  by rewrite opt_member_at_field_ne.
Qed.

Section TrackerRuns.
Variable toAbsolutePath : option json → completion string.

Lemma forStackFrames_run frames :
  Forall (rewritable toAbsolutePath) (map frame_path frames) →
  forallb is_object frames = true →
  ∀ i st, ∃ m',
    forStackFrames toAbsolutePath i frames st = (Normal tt, Tracked m' (notifications st)).
Proof.
  induction frames as [|frame frames IH]; intros Hpaths Hobjs i st.
  { exists (message st). by destruct st. }
  simpl in Hpaths, Hobjs.
  inversion Hpaths as [|?? Hpath Hpaths']; subst.
  apply andb_true_iff in Hobjs as [Hobj Hobjs].
  destruct frame as [| | | | |fields]; try done.
  cbn [forStackFrames]. unfold_monad.
  change (Js.opt_member (Js.opt_member (Some (JObj fields)) "source") "path")
    with (frame_path (JObj fields)).
  destruct (Js.truthy (frame_path (JObj fields))) eqn:Ht.
  - destruct (Hpath Ht) as [r ->].
    edestruct (IH Hpaths' Hobjs (S i)) as [m' ->]. by exists m'.
  - edestruct (IH Hpaths' Hobjs (S i) st) as [m' ->]. by exists m'.
Qed.

(** The first statement of [onDidSendMessage]. *)
Lemma assign_source_run m shown :
  let path := Js.opt_member (Js.opt_member (Js.opt_member (Some m) "body") "source") "path" in
  rewritable toAbsolutePath path →
  ∃ m1,
    when (Js.truthy path)
      (let* absolute := lift (toAbsolutePath path) in
       mutate (Js.at_field "body" (Js.at_field "source"
                 (Js.at_field "path" (λ _, JStr absolute)))))
      (Tracked m shown) = (Normal tt, Tracked m1 shown)
    ∧ erase_inbound m1 = erase_inbound m
    ∧ stack_frames m1 = stack_frames m.
Proof.
  intros path Hpath. destruct (Js.truthy path) eqn:Ht; [|by eexists].
  destruct (Hpath Ht) as [r Hr].
  unfold when, bind, lift, mutate. rewrite Hr. eexists. split; [done|].
  split; [apply erase_inbound_assign_source|apply stack_frames_assign_source].
Qed.

Lemma onDidSendMessage_run m shown :
  is_object m = true →
  Forall (rewritable toAbsolutePath) (inbound_paths m) →
  forallb is_object (stack_frames m) = true →
  ∃ m',
    onDidSendMessage toAbsolutePath (Tracked m shown)
    = (Normal tt,
       Tracked m'
         (if strictEqualsString (Js.opt_member (Some m) "type") "event"
             && strictEqualsString (Js.opt_member (Some m) "event") "fatalError"
          then shown ++ ["[C11 Debugger] " +:+ fatal_error_text m] else shown))
    ∧ erase_inbound m' = erase_inbound m.
Proof.
  intros Hobj Hpaths Hframes.
  inversion Hpaths as [|?? Hpath Hpaths']; subst.
  destruct (assign_source_run m shown Hpath) as (m1 & Hstep1 & Herase1 & Hsf1).
  assert (is_object m1 = true) as Hobj1 by by rewrite (erase_inbound_is_object _ _ Herase1).
  destruct (forStackFrames_run (stack_frames m) Hpaths' Hframes 0%nat (Tracked m1 shown))
    as [m2 Hstep2].
  pose proof (forStackFrames_keeps toAbsolutePath 0 (stack_frames m) (Tracked m1 shown))
    as Herase2.
  rewrite Hstep2 in Herase2. cbn [snd message notifications] in Herase2, Hstep2.
  assert (erase_inbound m2 = erase_inbound m) as Herase by by rewrite Herase2.
  assert (is_object m2 = true) as Hobj2 by by rewrite (erase_inbound_is_object _ _ Herase).
  exists m2. split; [|done].
  unfold onDidSendMessage.
  destruct m as [| | | | |fields]; try done.
  destruct m1 as [| | | | |fields1]; try done.
  destruct m2 as [| | | | |fields2]; try done.
  unfold bind at 1. unfold getMessage at 1. cbn [message].
  unfold bind at 1. unfold member at 1. unfold ret at 1.
  unfold bind at 1. rewrite Hstep1.
  unfold bind at 1. unfold getMessage at 1. cbn [message].
  unfold bind at 1. unfold member at 1. unfold ret at 1.
  unfold bind at 1.
  assert (match Js.opt_member (Js.opt_member (Some (JObj fields1)) "body") "stackFrames" with
          | Some (JArr frames) => forStackFrames toAbsolutePath 0 frames
          | _ => ret tt
          end (Tracked (JObj fields1) shown) = (Normal tt, Tracked (JObj fields2) shown))
    as ->.
  { revert Hstep2. rewrite <-Hsf1. unfold stack_frames.
    destruct (Js.opt_member (Js.opt_member (Some (JObj fields1)) "body") "stackFrames")
      as [[]|]; try done; by intros [= <-]. }
  unfold bind at 1. unfold getMessage at 1. cbn [message].
  unfold bind at 1. unfold member at 1. unfold ret at 1.
  unfold bind at 1. unfold member at 1. unfold ret at 1.
  rewrite (erase_inbound_member _ _ "type" ltac:(done) Herase).
  rewrite (erase_inbound_member _ _ "event" ltac:(done) Herase).
  destruct (strictEqualsString _ "event" && strictEqualsString _ "fatalError"); [|done].
  unfold when, bind, member, ret, showErrorMessage. cbn [message notifications].
  unfold fatal_error_text.
  by rewrite (erase_inbound_body_member _ _ "message" ltac:(done) ltac:(done) Herase).
Qed.

Lemma rewritable_not_truthy (paths : list (option json)) :
  existsb Js.truthy paths = false → Forall (rewritable toAbsolutePath) paths.
Proof.
  induction paths as [|v paths IH]; [by constructor|]. simpl.
  intros [Hv Hpaths]%orb_false_iff. constructor; [|by apply IH].
  intros Ht. by rewrite Ht in Hv.
Qed.

Lemma rewritable_well_formed (paths : list (option json)) :
  (∀ s, ∃ r, toAbsolutePath (Some (JStr s)) = Normal r) →
  forallb path_ok paths = true → Forall (rewritable toAbsolutePath) paths.
Proof.
  intros Hstr. induction paths as [|v paths IH]; [by constructor|]. simpl.
  intros [Hv Hpaths]%andb_true_iff. constructor; [|by apply IH].
  intros Ht. destruct (path_ok_truthy _ Hv Ht) as [s ->]. apply Hstr.
Qed.

End TrackerRuns.

Section TrackerUntouched.
Variable toRelativePath : option json → completion string.
Variable toAbsolutePath : option json → completion string.

Lemma forStackFrames_untouched frames :
  existsb Js.truthy (map frame_path frames) = false →
  ∀ i st, snd (forStackFrames toAbsolutePath i frames st) = st.
Proof.
  induction frames as [|frame frames IH]; intros Hpaths i st; [done|].
  simpl in Hpaths. apply orb_false_iff in Hpaths as [Hpath Hpaths].
  cbn [forStackFrames]. unfold_monad.
  destruct frame as [| | | | |fields]; try done; try (by apply IH).
  change (Js.opt_member (Js.opt_member (Some (JObj fields)) "source") "path")
    with (frame_path (JObj fields)).
  rewrite Hpath. by apply IH.
Qed.

Lemma onWillReceiveMessage_untouched m :
  existsb Js.truthy (outbound_paths m) = false →
  forwarded (onWillReceiveMessage toRelativePath) m = m
  ∧ (is_object m = true →
     fst (onWillReceiveMessage toRelativePath (Tracked m [])) = Normal tt).
Proof.
  unfold outbound_paths, forwarded, onWillReceiveMessage. unfold_monad.
  destruct m as [| | | | |fields]; try done. cbn [message].
  destruct (strictEqualsString (Js.opt_member (Some (JObj fields)) "command") "setBreakpoints");
    [|done].
  simpl. rewrite orb_false_r. by intros ->.
Qed.

Lemma onDidSendMessage_untouched m :
  existsb Js.truthy (inbound_paths m) = false →
  forwarded (onDidSendMessage toAbsolutePath) m = m.
Proof.
  unfold inbound_paths. cbn [existsb]. intros [Hpath Hframes]%orb_false_iff.
  unfold forwarded, onDidSendMessage.
  destruct m as [| | | | |fields]; try done.
  unfold bind at 1. unfold getMessage at 1. cbn [message].
  unfold bind at 1. unfold member at 1. unfold ret at 1.
  rewrite Hpath. unfold when at 1. unfold bind at 1. unfold ret at 1.
  unfold bind at 1. unfold getMessage at 1. cbn [message].
  unfold bind at 1. unfold member at 1. unfold ret at 1.
  unfold bind at 1.
  set (loop := match Js.opt_member (Js.opt_member (Some (JObj fields)) "body") "stackFrames" with
               | Some (JArr frames) => forStackFrames toAbsolutePath 0 frames
               | _ => ret tt
               end (Tracked (JObj fields) [])).
  assert (snd loop = Tracked (JObj fields) []) as Hloop.
  { subst loop. unfold stack_frames in Hframes.
    destruct (Js.opt_member (Js.opt_member (Some (JObj fields)) "body") "stackFrames")
      as [[]|]; try done. by apply forStackFrames_untouched. }
  destruct loop as [[[]|e] st']; simpl in Hloop; subst st'; [|done].
  unfold_monad. cbn [message].
  by destruct (strictEqualsString _ "event" && strictEqualsString _ "fatalError").
Qed.

End TrackerUntouched.

Lemma relay_in_order callback ms :
  length (relay callback ms) = length ms
  ∧ ∀ i m, ms !! i = Some m → relay callback ms !! i = Some (forwarded callback m).
Proof.
  unfold relay. split; [apply length_map|].
  intros i m Hm. by rewrite list_lookup_fmap, Hm.
Qed.



Lemma strictEqualsString_object m k literal :
  strictEqualsString (Js.opt_member (Some m) k) literal = true → is_object m = true.
Proof. by destruct m. Qed.

Lemma Current_toAbsolutePath_string root s :
  ∃ r, Current.toAbsolutePath (Some root) (Some (JStr s)) = Normal r.
Proof. unfold Current.toAbsolutePath. destruct (negb (Path.isAbsolute s)); eauto. Qed.

Lemma Earlier_toAbsolutePath_string root s :
  ∃ r, Earlier.toAbsolutePath root (Some (JStr s)) = Normal r.
Proof. unfold Earlier.toAbsolutePath. destruct (negb (Path.isAbsolute s)); eauto. Qed.



Example fatal_boom_notification :
  Current.onDidSendMessage (Some "/home/u/proj") (Tracked fatal_boom [])
  = (Normal tt, Tracked fatal_boom ["[C11 Debugger] boom"])
  ∧ Earlier.onDidSendMessage "/home/u/proj" (Tracked fatal_boom [])
    = (Normal tt, Tracked fatal_boom ["[C11 Debugger] boom"]).
Proof. split; reflexivity. Qed.

(** ** The launch handshake *)

Lemma loop_refusing (server : Ping.endpoint) (start most : Z) :
  (∀ k, ∃ after, server k = Ping.Refused after ∧ 0 ≤ after ≤ most) →
  ∀ n k now,
    now - start ≤ Ping.timeout + most + Ping.backoff →
    Ping.timeout - (now - start) < Ping.backoff * Z.of_nat n →
    ∃ t, Ping.loop (S n) server k start now = Ping.TimedOut t
         ∧ Ping.timeout < t - start ≤ Ping.timeout + most + Ping.backoff.
Proof.
  intros Hserver. unfold Ping.timeout, Ping.backoff.
  induction n as [|n IH]; intros k now Hupper Hfuel; cbn [Ping.loop].
  - unfold Ping.timeout. destruct (Z.gtb_spec (now - start) 60000) as [Hlate|Hearly]; [|lia].
    exists now. split; [done|lia].
  - unfold Ping.timeout. destruct (Z.gtb_spec (now - start) 60000) as [Hlate|Hearly].
    { exists now. split; [done|lia]. }
    destruct (Hserver k) as (after & -> & Hafter).
    unfold Ping.backoff. apply IH; lia.
Qed.

(** A refusing endpoint: the handshake throws its timeout error, no later
    than one attempt and one back-off after the bound. *)
Lemma pingserver_refused_times_out (server : Ping.endpoint) (start most : Z) :
  (∀ k, ∃ after, server k = Ping.Refused after ∧ 0 ≤ after ≤ most) →
  ∃ fuel t, Ping.pingserver fuel server start = Ping.TimedOut t
            ∧ Ping.timeout < t - start ≤ Ping.timeout + most + Ping.backoff.
Proof.
  intros Hserver. exists (S 401). unfold Ping.pingserver.
  apply (loop_refusing server start most Hserver 401 0%nat start).
  - destruct (Hserver 0%nat) as (after & _ & ?). unfold Ping.timeout, Ping.backoff. lia.
  - unfold Ping.timeout, Ping.backoff. lia.
Qed.

(** C4, the case the code misses.  Against an endpoint that accepts the
    connection and then stays silent, the first [await] never returns: however
    long the handshake runs it is suspended at its start time and never throws
    the timeout error. *)
Theorem pingserver_silent_never_times_out (fuel : nat) (start : Z) :
  Ping.pingserver (S fuel) silent_server start = Ping.Suspended start
  ∧ ∀ n t, Ping.pingserver n silent_server start ≠ Ping.TimedOut t.
Proof.
  assert (∀ n, Ping.pingserver (S n) silent_server start = Ping.Suspended start) as Hs.
  { intros n. unfold Ping.pingserver. cbn [Ping.loop].
    replace (start - start) with 0 by lia. reflexivity. }
  split; [apply Hs|].
  intros [|n] t; [done|]. by rewrite Hs.
Qed.

(** ** DurationFormatter *)

Lemma round_nonneg (q : Q) : (0 <= q)%Q → 0 ≤ Profiler.round q.
Proof.
  intros Hq. unfold Profiler.round.
  change 0 with (Qfloor (inject_Z 0)). apply Qfloor_resp_le.
  apply Qle_trans with q; [done|].
  rewrite <-(Qplus_0_r q) at 1. by apply Qplus_le_r.
Qed.

Lemma remainder_nonneg (q : Q) : (0 <= (q - inject_Z (Qfloor q)) * 1000)%Q.
Proof.
  apply Qmult_le_0_compat; [|done].
  pose proof (Qfloor_le q) as Hle.
  apply (Qplus_le_l _ _ (inject_Z (Qfloor q))). ring_simplify. exact Hle.
Qed.

Lemma floor_at_least_1 (q : Q) : Qle_bool 1 q = true → 1 ≤ Qfloor q.
Proof.
  intros Hq%Qle_bool_iff. change 1 with (Qfloor (inject_Z 1)). by apply Qfloor_resp_le.
Qed.

Lemma clocksPerSec_or_1 (clocksPerSec : Q) :
  (0 < clocksPerSec)%Q → Qeq_bool clocksPerSec 0 = false.
Proof.
  intros Hpos. destruct (Qeq_bool clocksPerSec 0) eqn:Heq; [|done].
  apply Qeq_bool_iff in Heq. rewrite Heq in Hpos. by apply Qlt_irrefl in Hpos.
Qed.

Lemma formatDuration_refines (ticks : Z) (clocksPerSec : Q) :
  (0 < clocksPerSec)%Q →
  Profiler.formatDuration clocksPerSec ticks = DurationFormatter ticks clocksPerSec.
Proof.
  intros Hpos. unfold Profiler.formatDuration, DurationFormatter.
  rewrite (clocksPerSec_or_1 _ Hpos). cbv zeta.
  set (seconds := (inject_Z ticks / clocksPerSec)%Q).
  destruct (Qle_bool 1 seconds).
  - pose proof (round_nonneg _ (remainder_nonneg seconds)) as Hr.
    destruct (Z.gtb_spec (Profiler.round ((seconds - inject_Z (Qfloor seconds)) * 1000)) 0),
      (Z.eqb_spec (Profiler.round ((seconds - inject_Z (Qfloor seconds)) * 1000)) 0);
      try lia.
    + reflexivity.
    + by rewrite str_app_nil_r.
  - destruct (Qle_bool 1 (seconds * 1000)); [|done].
    pose proof (round_nonneg _ (remainder_nonneg (seconds * 1000))) as Hr.
    destruct (Z.gtb_spec
                (Profiler.round ((seconds * 1000 - inject_Z (Qfloor (seconds * 1000))) * 1000)) 0),
      (Z.eqb_spec
         (Profiler.round ((seconds * 1000 - inject_Z (Qfloor (seconds * 1000))) * 1000)) 0);
      try lia.
    + reflexivity.
    + by rewrite str_app_nil_r.
Qed.

Lemma formatDuration_carried_down (ticks : Z) (clocksPerSec : Q) :
  carried_down (Profiler.formatDuration clocksPerSec ticks).
Proof.
  unfold Profiler.formatDuration. cbv zeta.
  set (seconds := (inject_Z ticks / _)%Q).
  destruct (Qle_bool 1 seconds) eqn:Hs.
  - apply floor_at_least_1 in Hs.
    destruct (Z.gtb_spec (Profiler.round ((seconds - inject_Z (Qfloor seconds)) * 1000)) 0).
    + apply seconds_and_ms; lia.
    + by apply whole_seconds.
  - destruct (Qle_bool 1 (seconds * 1000)) eqn:Hms; [|apply only_us].
    apply floor_at_least_1 in Hms.
    destruct (Z.gtb_spec
                (Profiler.round ((seconds * 1000 - inject_Z (Qfloor (seconds * 1000))) * 1000)) 0).
    + apply ms_and_us; lia.
    + by apply whole_ms.
Qed.



(** ** HeatmapRenderer: scope totals *)

Lemma addBlockTime_lookup blockLevels blockTimes record scope :
  default 0 (Profiler.addBlockTime blockLevels blockTimes record !! scope)
  = default 0 (blockTimes !! scope)
    + (if decide (scopeOf blockLevels record = scope) then record.2 else 0).
Proof.
  destruct record as [[line hits] time]. unfold Profiler.addBlockTime, scopeOf. simpl.
  destruct (decide (Profiler.blockID (Profiler.blockInfoOf blockLevels line) = scope))
    as [<-|Hne].
  - by rewrite lookup_insert_eq.
  - rewrite lookup_insert_ne by done. lia.
Qed.

Lemma addBlockTime_is_Some blockLevels blockTimes record scope :
  is_Some (blockTimes !! scope) ∨ scopeOf blockLevels record = scope →
  is_Some (Profiler.addBlockTime blockLevels blockTimes record !! scope).
Proof.
  destruct record as [[line hits] time]. unfold Profiler.addBlockTime, scopeOf. simpl.
  intros [Hsome| <-]; [|by rewrite lookup_insert_eq].
  destruct (decide (Profiler.blockID (Profiler.blockInfoOf blockLevels line) = scope))
    as [<-|Hne]; [by rewrite lookup_insert_eq|by rewrite lookup_insert_ne].
Qed.

Lemma fold_addBlockTime_lookup blockLevels records blockTimes scope :
  default 0 (fold_left (Profiler.addBlockTime blockLevels) records blockTimes !! scope)
  = default 0 (blockTimes !! scope) + scopeTotal blockLevels records scope.
Proof.
  revert blockTimes. induction records as [|record records IH]; intros blockTimes; simpl.
  { unfold scopeTotal. simpl. lia. }
  rewrite IH, addBlockTime_lookup. unfold scopeTotal.
  destruct (decide (scopeOf blockLevels record = scope)) as [Heq|Hne].
  - rewrite filter_cons_True by done. simpl. lia.
  - rewrite filter_cons_False by done. lia.
Qed.

Lemma fold_addBlockTime_is_Some blockLevels records blockTimes scope :
  is_Some (blockTimes !! scope) ∨ (∃ record, record ∈ records ∧ scopeOf blockLevels record = scope) →
  is_Some (fold_left (Profiler.addBlockTime blockLevels) records blockTimes !! scope).
Proof.
  revert blockTimes. induction records as [|record records IH]; intros blockTimes; simpl.
  { intros [?|(r & Hr & _)]; [done|]. by apply elem_of_nil in Hr. }
  intros [Hsome|(r & Hr & Hscope)]; apply IH.
  - left. apply addBlockTime_is_Some. by left.
  - apply elem_of_cons in Hr as [->|Hr].
    + left. apply addBlockTime_is_Some. by right.
    + right. eauto.
Qed.

(** The first loop leaves, for the scope of every record, the total of that
    scope. *)
Lemma sumBlockTimes_lookup blockLevels records record :
  record ∈ records →
  Profiler.sumBlockTimes blockLevels records !! scopeOf blockLevels record
  = Some (scopeTotal blockLevels records (scopeOf blockLevels record)).
Proof.
  intros Hin. unfold Profiler.sumBlockTimes.
  pose proof (fold_addBlockTime_lookup blockLevels records ∅ (scopeOf blockLevels record)) as Hsum.
  destruct (fold_addBlockTime_is_Some blockLevels records ∅ (scopeOf blockLevels record))
    as [total Htotal]; [right; eauto|].
  rewrite Htotal in Hsum |- *. rewrite lookup_empty in Hsum. simpl in Hsum. f_equal. clear -Hsum. lia.
Qed.

Lemma scopeTotal_nonneg blockLevels records scope :
  Forall (λ r, 0 ≤ r.2) records → 0 ≤ scopeTotal blockLevels records scope.
Proof.
  unfold scopeTotal. induction 1 as [|r records Hr _ IH]; [done|].
  destruct (decide (scopeOf blockLevels r = scope)).
  - rewrite filter_cons_True by done. simpl in *. lia.
  - by rewrite filter_cons_False.
Qed.

Lemma scopeTotal_cons blockLevels record records scope :
  scopeTotal blockLevels (record :: records) scope
  = (if decide (scopeOf blockLevels record = scope) then record.2 else 0)
    + scopeTotal blockLevels records scope.
Proof.
  unfold scopeTotal. destruct (decide (scopeOf blockLevels record = scope)).
  - by rewrite filter_cons_True.
  - by rewrite filter_cons_False.
Qed.

Lemma scopeTotal_bounds blockLevels records record :
  Forall (λ r, 0 ≤ r.2) records → record ∈ records →
  0 ≤ record.2 ≤ scopeTotal blockLevels records (scopeOf blockLevels record).
Proof.
  intros Htimes Hin.
  induction Htimes as [|r records Hr Htimes IH]; [by apply elem_of_nil in Hin|].
  pose proof (scopeTotal_nonneg blockLevels records (scopeOf blockLevels record) Htimes).
  rewrite scopeTotal_cons. simpl in Hr.
  apply elem_of_cons in Hin as [->|Hin].
  - rewrite decide_True by done. lia.
  - specialize (IH Hin). destruct (decide _); lia.
Qed.

(** ** HeatmapRenderer: the decorations *)

Lemma Range_nonneg (line : Z) : 0 ≤ line → Profiler.Range line = Normal line.
Proof. intros Hline. unfold Profiler.Range. by rewrite (proj2 (Z.ltb_ge _ _)). Qed.

Lemma drawn_pushOption_new colour option backgrounds :
  drawn (Profiler.pushOption colour option backgrounds) option.
Proof.
  induction backgrounds as [|[c options] backgrounds IH]; simpl.
  { exists colour, [option]. split; apply list_elem_of_singleton; done. }
  case_bool_decide.
  - exists c, (options ++ [option]). split; [apply list_elem_of_here|].
    apply elem_of_app. right. by apply list_elem_of_singleton.
  - destruct IH as (c' & options' & Hin & Ho). exists c', options'.
    split; [by apply list_elem_of_further|done].
Qed.

Lemma drawn_pushOption_old colour option backgrounds option' :
  drawn backgrounds option' → drawn (Profiler.pushOption colour option backgrounds) option'.
Proof.
  intros (c' & options' & Hin & Ho).
  induction backgrounds as [|[c options] backgrounds IH]; [by apply elem_of_nil in Hin|].
  simpl. apply elem_of_cons in Hin as [[= <- <-]|Hin].
  - case_bool_decide.
    + exists c', (options' ++ [option]). split; [apply list_elem_of_here|].
      apply elem_of_app. by left.
    + exists c', options'. split; [apply list_elem_of_here|done].
  - destruct (IH Hin) as (c'' & options'' & Hin' & Ho').
    case_bool_decide.
    + exists c', options'. split; [by apply list_elem_of_further|done].
    + exists c'', options''. split; [by apply list_elem_of_further|done].
Qed.

Section Rendering.
Variable clocksPerSec : Q.
Variable blockLevels : gmap Z Profiler.LineInfo.
Variable blockTimes : gmap (option Z) Z.

Lemma decorateRecord_run acc record :
  1 ≤ record.1.1 →
  ∃ acc',
    Profiler.decorateRecord clocksPerSec blockLevels blockTimes acc record = Normal acc'
    ∧ Profiler.prefixOptions acc'
      = Profiler.prefixOptions acc ++ [prefixOfRecord blockLevels blockTimes record]
    ∧ drawn (Profiler.colorToOptions acc')
        (hoverOfRecord clocksPerSec blockLevels blockTimes record)
    ∧ (∀ option, drawn (Profiler.colorToOptions acc) option →
                 drawn (Profiler.colorToOptions acc') option)
    ∧ (∀ line, line ∈ Profiler.coveredLines acc' → 0 ≤ line ∨ line ∈ Profiler.coveredLines acc).
Proof.
  destruct record as [[line hits] time]. simpl. intros Hline.
  unfold Profiler.decorateRecord, Profiler.createLineDecoration,
    Profiler.createPrefixDecoration.
  rewrite Range_nonneg by lia. eexists. split; [done|]. simpl. split_and!.
  - done.
  - apply drawn_pushOption_new.
  - intros option. apply drawn_pushOption_old.
  - intros l [->%elem_of_singleton|Hl]%elem_of_union; [left; lia|by right].
Qed.

Lemma forRecords_run records acc :
  Forall (λ r, 1 ≤ r.1.1) records →
  ∃ acc',
    Profiler.forRecords clocksPerSec blockLevels blockTimes records acc = Normal acc'
    ∧ Profiler.prefixOptions acc'
      = Profiler.prefixOptions acc ++ map (prefixOfRecord blockLevels blockTimes) records
    ∧ (∀ record, record ∈ records →
         drawn (Profiler.colorToOptions acc')
           (hoverOfRecord clocksPerSec blockLevels blockTimes record))
    ∧ (∀ option, drawn (Profiler.colorToOptions acc) option →
                 drawn (Profiler.colorToOptions acc') option).
Proof.
  intros Hlines. revert acc.
  induction Hlines as [|record records Hline _ IH]; intros acc; simpl.
  { exists acc. rewrite app_nil_r. split_and!; [done..| |done].
    intros record Hin. by apply elem_of_nil in Hin. }
  destruct (decorateRecord_run acc record Hline) as (acc1 & -> & Hprefix1 & Hnew1 & Hold1 & _).
  destruct (IH acc1) as (acc' & -> & Hprefix & Hnew & Hold).
  exists acc'. split_and!; [done| | |].
  - by rewrite Hprefix, Hprefix1, <-(assoc_L (++)).
  - intros r [->|Hin]%elem_of_cons; [by apply Hold|by apply Hnew].
  - intros option Ho. by apply Hold, Hold1.
Qed.

Lemma padUncovered_run covered lines prefix :
  Forall (λ i, 0 ≤ i) lines →
  ∃ pads, Profiler.padUncovered covered lines prefix = Normal (prefix ++ pads).
Proof.
  intros Hlines. revert prefix.
  induction Hlines as [|i lines Hi _ IH]; intros prefix; simpl.
  { exists []. by rewrite app_nil_r. }
  case_bool_decide; [apply IH|].
  unfold Profiler.createPaddingDecoration. rewrite Range_nonneg by done.
  destruct (IH (prefix ++ [Profiler.paddingDecoration i])) as [pads ->].
  exists (Profiler.paddingDecoration i :: pads). by rewrite <-(assoc_L (++)).
Qed.

End Rendering.

Lemma seqZ_nonneg (n : Z) : Forall (λ i, 0 ≤ i) (seqZ 0 n).
Proof. apply Forall_forall. intros i Hi%elem_of_seqZ. lia. Qed.

(** What [decorate] hands to [applyDecorations] when every record names a
    line from 1 on: one gutter label per record, in order, before the padding,
    and one background decoration per record. *)
Lemma decorate_run clocksPerSec blockLevels records totalLines :
  Forall (λ r, 1 ≤ r.1.1) records →
  let blockTimes := Profiler.sumBlockTimes blockLevels records in
  ∃ shown pads,
    Profiler.decorate clocksPerSec blockLevels records totalLines = Normal shown
    ∧ Profiler.prefixes shown = map (prefixOfRecord blockLevels blockTimes) records ++ pads
    ∧ ∀ record, record ∈ records →
        drawn (Profiler.backgrounds shown)
          (hoverOfRecord clocksPerSec blockLevels blockTimes record).
Proof.
  intros Hlines blockTimes. unfold Profiler.decorate. fold blockTimes.
  destruct (forRecords_run clocksPerSec blockLevels blockTimes records
              {| Profiler.colorToOptions := []; Profiler.prefixOptions := [];
                 Profiler.coveredLines := ∅ |} Hlines)
    as (acc & -> & Hprefix & Hdrawn & _).
  destruct (padUncovered_run (Profiler.coveredLines acc) (seqZ 0 totalLines)
              (Profiler.prefixOptions acc) (seqZ_nonneg totalLines)) as [pads ->].
  eexists _, pads. split; [done|]. simpl. split; [by rewrite Hprefix|done].
Qed.

(** ** HeatmapRenderer: ratio and percent *)

Lemma round_proper (q q' : Q) : (q == q')%Q → Profiler.round q = Profiler.round q'.
Proof. intros Heq. unfold Profiler.round. by rewrite Heq. Qed.

Lemma ratio_in_scope_bounds (time total : Z) :
  0 ≤ time ≤ total → (0 <= ratio_in_scope time total <= 1)%Q.
Proof.
  intros Htime. unfold ratio_in_scope. destruct (Z.eqb_spec total 0) as [->|Hne]; [done|].
  assert (0 < inject_Z total)%Q as Hpos.
  { change 0%Q with (inject_Z 0). rewrite <-Zlt_Qlt. lia. }
  split.
  - apply Qle_shift_div_l; [done|]. rewrite Qmult_0_l.
    change 0%Q with (inject_Z 0). rewrite <-Zle_Qle. lia.
  - apply Qle_shift_div_r; [done|]. rewrite Qmult_1_l. rewrite <-Zle_Qle. lia.
Qed.

Lemma ratioOf_in_scope (time total : Z) :
  0 ≤ time ≤ total →
  ∃ q, Profiler.ratioOf time (Some total) = Profiler.Finite q
       ∧ (q == ratio_in_scope time total)%Q.
Proof.
  intros Htime. unfold Profiler.ratioOf, Profiler.divide, ratio_in_scope.
  destruct (Z.eqb_spec total 0) as [->|Hne].
  - assert (time = 0) as -> by lia. by exists 0%Q.
  - simpl. destruct (Qeq_bool (inject_Z time / inject_Z total) 0) eqn:Hzero.
    + exists 0%Q. split; [done|]. apply Qeq_bool_iff in Hzero. by rewrite Hzero.
    + by eexists.
Qed.

Lemma percent_bounds (q : Q) : (0 <= q <= 1)%Q → 0 ≤ Profiler.round (q * 100) ≤ 100.
Proof.
  intros [Hlo Hhi]. unfold Profiler.round. split.
  - change 0 with (Qfloor (inject_Z 0)). apply Qfloor_resp_le.
    apply Qle_trans with (0 * 100 + 0)%Q; [done|].
    apply Qplus_le_compat; [|done]. by apply Qmult_le_compat_r.
  - change 100 with (Qfloor (1 * 100 + (1 # 2))%Q). apply Qfloor_resp_le.
    apply Qplus_le_compat; [|apply Qle_refl]. by apply Qmult_le_compat_r.
Qed.

Lemma percentOfRecord_in_scope blockLevels records record :
  Forall (λ r, 0 ≤ r.2) records → record ∈ records →
  let total := scopeTotal blockLevels records (scopeOf blockLevels record) in
  percentOfRecord blockLevels (Profiler.sumBlockTimes blockLevels records) record
  = Profiler.Finite (Profiler.round (ratio_in_scope record.2 total * 100)).
Proof.
  intros Htimes Hin total. unfold percentOfRecord.
  rewrite sumBlockTimes_lookup by done. fold total.
  destruct (ratioOf_in_scope record.2 total) as (q & -> & Hq).
  { by apply scopeTotal_bounds. }
  unfold Profiler.percentOf. simpl. f_equal. apply round_proper. by rewrite Hq.
Qed.

Lemma Forall_and_l {A} (P Q : A → Prop) l : Forall (λ x, P x ∧ Q x) l → Forall P l.
Proof. intros H. eapply Forall_impl; [exact H|]. by intros x [? _]. Qed.

Lemma Forall_and_r {A} (P Q : A → Prop) l : Forall (λ x, P x ∧ Q x) l → Forall Q l.
Proof. intros H. eapply Forall_impl; [exact H|]. by intros x [_ ?]. Qed.



Lemma blockInfoOf_fallback (blockLevels : gmap Z Profiler.LineInfo) (line : Z) :
  blockLevels !! line = None → Profiler.blockInfoOf blockLevels line = module_scope.
Proof. intros Hnone. unfold Profiler.blockInfoOf. by rewrite Hnone. Qed.

(** C10. Every record of a rendered file (lines from 1 on, times not
    negative) is attributed to a scope, the module scope 0 with the first
    palette colour when its line is not in the line map; the total of that
    scope, as the first loop leaves it, includes the record's own time; so the
    ratio lies in [0,1] and the percent shown in the gutter in [0,100]. *)
Theorem ratio_within_unit_interval (clocksPerSec : Q)
    (blockLevels : gmap Z Profiler.LineInfo)
    (records : list Profiler.ProfileRecord) (totalLines : Z) :
  Forall (λ r, 1 ≤ r.1.1 ∧ 0 ≤ r.2) records →
  ∀ (i : nat) (record : Profiler.ProfileRecord), records !! i = Some record →
    let info := Profiler.blockInfoOf blockLevels record.1.1 in
    (blockLevels !! record.1.1 = None → info = module_scope)
    ∧ ∃ total q n shown,
        Profiler.sumBlockTimes blockLevels records !! Profiler.blockID info = Some total
        ∧ 0 ≤ record.2 ≤ total
        ∧ Profiler.ratioOf record.2 (Some total) = Profiler.Finite q
        ∧ (0 <= q <= 1)%Q
        ∧ Profiler.percentOf (Profiler.Finite q) = Profiler.Finite n
        ∧ 0 ≤ n ≤ 100
        ∧ Profiler.decorate clocksPerSec blockLevels records totalLines = Normal shown
        ∧ Profiler.prefixes shown !! i
          = Some (Profiler.prefixDecoration (record.1.1 - 1) (Profiler.Finite n)
                    (Profiler.color info)).
Proof.
  intros Hrecords i record Hi info.
  pose proof (Forall_and_l _ _ _ Hrecords) as Hlines.
  pose proof (Forall_and_r _ _ _ Hrecords) as Htimes.
  pose proof (list_elem_of_lookup_2 _ _ _ Hi) as Hin.
  split; [apply blockInfoOf_fallback|].
  set (total := scopeTotal blockLevels records (scopeOf blockLevels record)).
  pose proof (scopeTotal_bounds blockLevels records record Htimes Hin) as Hbounds.
  fold total in Hbounds.
  destruct (ratioOf_in_scope record.2 total Hbounds) as (q & Hratio & Hq).
  assert (0 <= q <= 1)%Q as Hunit.
  { rewrite Hq. by apply ratio_in_scope_bounds. }
  destruct (decorate_run clocksPerSec blockLevels records totalLines Hlines)
    as (shown & pads & Hrun & Hprefixes & _).
  assert (Profiler.prefixes shown !! i
          = Some (Profiler.prefixDecoration (record.1.1 - 1)
                    (Profiler.Finite (Profiler.round (q * 100))) (Profiler.color info)))
    as Hshown.
  { rewrite Hprefixes, lookup_app_l.
    2:{ rewrite length_map. by eapply lookup_lt_Some. }
    rewrite list_lookup_fmap, Hi. simpl. unfold prefixOfRecord, percentOfRecord.
    rewrite sumBlockTimes_lookup by done. fold total. by rewrite Hratio. }
  pose proof (percent_bounds q Hunit) as Hpercent.
  pose proof (sumBlockTimes_lookup blockLevels records record Hin) as Hsum.
  exists total, q, (Profiler.round (q * 100)), shown.
  split_and!; try done; try apply Hbounds; try apply Hunit; apply Hpercent.
Qed.

Lemma ratio_within_unit_interval_witness :
  let records := [(1, 10, 100); (7, 5, 50)] in
  let info := Profiler.blockInfoOf ∅ 7 in
  ((∅ : gmap Z Profiler.LineInfo) !! 7 = None → info = module_scope)
  ∧ ∃ total q n shown,
      Profiler.sumBlockTimes ∅ records !! Profiler.blockID info = Some total
      ∧ 0 ≤ 50 ≤ total
      ∧ Profiler.ratioOf 50 (Some total) = Profiler.Finite q
      ∧ (0 <= q <= 1)%Q
      ∧ Profiler.percentOf (Profiler.Finite q) = Profiler.Finite n
      ∧ 0 ≤ n ≤ 100
      ∧ Profiler.decorate 1000000 ∅ records 3 = Normal shown
      ∧ Profiler.prefixes shown !! 1%nat
        = Some (Profiler.prefixDecoration (7 - 1) (Profiler.Finite n) (Profiler.color info)).
Proof.
  apply (ratio_within_unit_interval 1000000 ∅ [(1, 10, 100); (7, 5, 50)] 3
           ltac:(repeat constructor; simpl; lia) 1%nat (7, 5, 50) eq_refl).
Defined.

(** ** BlockAttributor: the line map *)

Lemma lineAt_within editor n :
  0 ≤ n < Profiler.lineCount editor → ∃ text, Profiler.lineAt editor n = Normal text.
Proof.
  intros Hn. unfold Profiler.lineAt, Profiler.lineCount in *.
  rewrite (proj2 (Z.leb_le _ _)), (proj2 (Z.ltb_lt _ _)) by lia. simpl.
  destruct (lookup_lt_is_Some_2 (Profiler.lines editor) (Z.to_nat n)) as [text ->]; [lia|].
  by exists text.
Qed.

Lemma forFoldRanges_enterBlocks editor foldRanges st :
  Forall (λ fr, 0 ≤ Profiler.start fr < Profiler.lineCount editor) foldRanges →
  Profiler.forFoldRanges editor foldRanges st
  = Normal (enterBlocks (function_folds editor foldRanges) st).
Proof.
  intros Hstarts. revert st.
  induction Hstarts as [|fr foldRanges Hfr _ IH]; intros st; [done|].
  cbn [Profiler.forFoldRanges]. unfold function_folds, is_function_fold.
  destruct (lineAt_within editor _ Hfr) as [text Htext].
  unfold Profiler.isFunctionFold at 1 2. rewrite Htext.
  destruct (String.prefix "def " (Profiler.trimStart text)) eqn:Hdef.
  - rewrite filter_cons_True.
    2:{ unfold Profiler.isFunctionFold. by rewrite Htext. }
    apply IH.
  - rewrite filter_cons_False.
    2:{ unfold Profiler.isFunctionFold. rewrite Htext, Hdef. done. }
    apply IH.
Qed.

Lemma fold_insert_lookup (value : Z → Profiler.LineInfo) lines (m : gmap Z Profiler.LineInfo) key :
  fold_left (λ m line, <[line + 1 := value line]> m) lines m !! key
  = if decide (key - 1 ∈ lines) then Some (value (key - 1)) else m !! key.
Proof.
  revert m. induction lines as [|line lines IH]; intros m; cbn [fold_left].
  { rewrite decide_False; [done|]. apply not_elem_of_nil. }
  rewrite IH. destruct (decide (key - 1 ∈ lines)) as [Hin|Hnot].
  - rewrite decide_True; [done|]. by apply list_elem_of_further.
  - destruct (decide (key = line + 1)) as [->|Hne].
    + rewrite lookup_insert_eq. rewrite decide_True.
      2:{ replace (line + 1 - 1) with line by lia. apply list_elem_of_here. }
      f_equal. f_equal. lia.
    + rewrite lookup_insert_ne by done. rewrite decide_False; [done|].
      intros [Heq|Hin]%elem_of_cons; [lia|done].
Qed.

Lemma assignRange_lookup fr parent own (m : gmap Z Profiler.LineInfo) key :
  Profiler.assignRange fr parent own m !! key
  = if decide (Profiler.start fr + 1 ≤ key ≤ Profiler.end_ fr + 1)
    then Some (if decide (key = Profiler.start fr + 1) then parent else own)
    else m !! key.
Proof.
  unfold Profiler.assignRange.
  rewrite (fold_insert_lookup
             (λ line, if bool_decide (line = Profiler.start fr) then parent else own)).
  destruct (decide (Profiler.start fr + 1 ≤ key ≤ Profiler.end_ fr + 1)) as [Hin|Hout].
  - rewrite decide_True by (apply elem_of_seqZ; lia).
    f_equal. destruct (decide (key = Profiler.start fr + 1)) as [->|Hne].
    + rewrite bool_decide_eq_true_2; [done|lia].
    + rewrite bool_decide_eq_false_2; [done|lia].
  - rewrite decide_False; [done|]. intros Hin%elem_of_seqZ. lia.
Qed.

Lemma enterBlocks_keys folds st bound :
  Forall (λ fr, Profiler.end_ fr < bound) folds →
  (∀ key, is_Some (Profiler.lineMap st !! key) → key ≤ bound) →
  ∀ key, is_Some (Profiler.lineMap (enterBlocks folds st) !! key) → key ≤ bound.
Proof.
  intros Hfolds. revert st.
  induction Hfolds as [|fr folds Hfr _ IH]; intros st Hst; [done|].
  cbn [enterBlocks fold_left]. apply IH.
  intros key. unfold Profiler.enterBlock. cbn [Profiler.lineMap].
  rewrite assignRange_lookup. destruct (decide _) as [Hin|Hout]; [lia|apply Hst].
Qed.

Lemma Forall_function_folds (P : Profiler.FoldingRange → Prop) editor foldRanges :
  Forall P foldRanges → Forall P (function_folds editor foldRanges).
Proof.
  rewrite !Forall_forall. intros Hall fr Hfr.
  apply list_elem_of_filter in Hfr as [_ Hfr]. by apply Hall.
Qed.

Lemma mapLinesToBlocks_run editorToColors editor foldRanges :
  editorToColors !! Profiler.uri editor = None →
  Forall (within editor) foldRanges →
  ∃ lineMap,
    Profiler.mapLinesToBlocks editorToColors editor (Some foldRanges)
    = Normal (lineMap, <[Profiler.uri editor := lineMap]> editorToColors)
    ∧ lineMap
      = Profiler.lineMap
          (enterBlocks (function_folds editor foldRanges) (Profiler.initialBlocks editor))
    ∧ ∀ key, is_Some (lineMap !! key) → key ≤ Profiler.lineCount editor.
Proof.
  intros Hmiss Hwithin. unfold Profiler.mapLinesToBlocks. rewrite Hmiss. simpl.
  rewrite forFoldRanges_enterBlocks.
  2:{ eapply Forall_impl; [exact Hwithin|]. by intros fr [? _]. }
  eexists. split; [done|]. split; [done|].
  apply enterBlocks_keys.
  - apply Forall_function_folds.
    eapply Forall_impl; [exact Hwithin|]. by intros fr [_ ?].
  - intros key. unfold Profiler.initialBlocks. cbn [Profiler.lineMap].
    intros [info Hkey]. apply lookup_singleton_Some in Hkey as [<- _]. done.
Qed.

(** ** Records beyond the end of the file *)

Lemma scopeTotal_delete blockLevels records i record scope :
  records !! i = Some record →
  scopeTotal blockLevels records scope
  = (if decide (scopeOf blockLevels record = scope) then record.2 else 0)
    + scopeTotal blockLevels (delete i records) scope.
Proof.
  revert i. induction records as [|r records IH]; intros [|i] Hi; try done.
  - injection Hi as ->. by rewrite scopeTotal_cons.
  - change (delete (S i) (r :: records)) with (r :: delete i records).
    rewrite !scopeTotal_cons, (IH i Hi). lia.
Qed.

(** C7, as stated, fails: a record whose line is beyond the last line is not
    left out.  In a three-line file the record for line 50 gets a gutter label
    of its own, and its time is counted in the module scope, which halves the
    percentage of line 1. *)
Lemma out_of_range_record_is_rendered :
  ∃ shown shown' cache cache',
    Profiler.applyToEditor 1000000 "/" "/proj"
      {[ "b.py" := [(1, 10, 100); (50, 5, 100)] ]} ∅ three_lines (Some [])
    = Normal (Some shown, cache)
    ∧ Profiler.applyToEditor 1000000 "/" "/proj"
        {[ "b.py" := [(1, 10, 100)] ]} ∅ three_lines (Some [])
      = Normal (Some shown', cache')
    ∧ Profiler.lineCount three_lines = 3
    ∧ labels shown = [" 50%"; " 50%"; ""; ""]
    ∧ labels shown' = ["100%"; ""; ""]
    ∧ Profiler.range <$> Profiler.prefixes shown = [0; 49; 1; 2]
    ∧ shown ≠ shown'.
Proof.
  do 4 eexists. split; [reflexivity|]. split; [reflexivity|].
  split_and!; [reflexivity..|]. intros Heq. apply (f_equal labels) in Heq.
  vm_compute in Heq. discriminate Heq.
Qed.

(** C7, amended.  For a file whose line map is built from fold ranges inside
    the document, a record whose line lies beyond the last line is not ignored:
    it falls back to the module scope 0 with the first palette colour, its time
    is part of the total of scope 0, and it gets its gutter label and its
    background decoration at line [line - 1] like any other record.  Rendering
    completes without an error when every record names a line from 1 on. *)
Theorem out_of_range_record_counts_in_module_scope
    (clocksPerSec : Q) (cwd sourceRoot : string)
    (data : gmap string (list Profiler.ProfileRecord))
    (editorToColors : gmap string (gmap Z Profiler.LineInfo))
    (editor : Profiler.TextEditor) (foldRanges : list Profiler.FoldingRange)
    (records : list Profiler.ProfileRecord) (i : nat) (line hits time : Z) :
  data !! Path.normalize (Path.relative cwd sourceRoot (Profiler.fsPath editor)) = Some records →
  editorToColors !! Profiler.uri editor = None →
  Forall (within editor) foldRanges →
  Forall (λ r, 1 ≤ r.1.1) records →
  records !! i = Some (line, hits, time) →
  Profiler.lineCount editor < line →
  ∃ lineMap shown,
    Profiler.applyToEditor clocksPerSec cwd sourceRoot data editorToColors editor
      (Some foldRanges)
    = Normal (Some shown, <[Profiler.uri editor := lineMap]> editorToColors)
    ∧ Profiler.blockInfoOf lineMap line = module_scope
    ∧ Profiler.sumBlockTimes lineMap records !! Some 0
      = Some (time + scopeTotal lineMap (delete i records) (Some 0))
    ∧ Profiler.prefixes shown !! i
      = Some (prefixOfRecord lineMap (Profiler.sumBlockTimes lineMap records) (line, hits, time))
    ∧ Profiler.range (prefixOfRecord lineMap (Profiler.sumBlockTimes lineMap records)
                        (line, hits, time)) = line - 1
    ∧ drawn (Profiler.backgrounds shown)
        (hoverOfRecord clocksPerSec lineMap (Profiler.sumBlockTimes lineMap records)
           (line, hits, time)).
Proof.
  intros Hdata Hmiss Hwithin Hlines Hi Hbeyond.
  destruct (mapLinesToBlocks_run editorToColors editor foldRanges Hmiss Hwithin)
    as (lineMap & Hmap & _ & Hkeys).
  destruct (decorate_run clocksPerSec lineMap records (Profiler.lineCount editor) Hlines)
    as (shown & pads & Hrun & Hprefixes & Hdrawn).
  pose proof (list_elem_of_lookup_2 _ _ _ Hi) as Hin.
  assert (Profiler.blockInfoOf lineMap line = module_scope) as Hmodule.
  { apply blockInfoOf_fallback. apply eq_None_not_Some. intros Hsome.
    apply Hkeys in Hsome. lia. }
  assert (scopeOf lineMap (line, hits, time) = Some 0) as Hscope.
  { unfold scopeOf. simpl. by rewrite Hmodule. }
  exists lineMap, shown. split_and!.
  - unfold Profiler.applyToEditor. rewrite Hdata, Hmap, Hrun.
    destruct records; [by apply elem_of_nil in Hin|done].
  - done.
  - rewrite <-Hscope at 1. rewrite sumBlockTimes_lookup by done. f_equal.
    rewrite Hscope. rewrite (scopeTotal_delete lineMap records i _ _ Hi).
    by rewrite decide_True.
  - rewrite Hprefixes, lookup_app_l.
    2:{ rewrite length_map. by eapply lookup_lt_Some. }
    rewrite list_lookup_fmap. unfold Profiler.ProfileRecord in *. by rewrite Hi.
  - done.
  - by apply Hdrawn.
Qed.

Lemma out_of_range_record_counts_in_module_scope_witness :
  ∃ lineMap shown,
    Profiler.applyToEditor 1000000 "/" "/proj"
      {[ "b.py" := [(1, 10, 100); (50, 5, 100)] ]} ∅ three_lines (Some [])
    = Normal (Some shown, <[Profiler.uri three_lines := lineMap]> ∅)
    ∧ Profiler.blockInfoOf lineMap 50 = module_scope
    ∧ Profiler.sumBlockTimes lineMap [(1, 10, 100); (50, 5, 100)] !! Some 0
      = Some (100 + scopeTotal lineMap (delete 1%nat [(1, 10, 100); (50, 5, 100)]) (Some 0))
    ∧ Profiler.prefixes shown !! 1%nat
      = Some (prefixOfRecord lineMap
                (Profiler.sumBlockTimes lineMap [(1, 10, 100); (50, 5, 100)]) (50, 5, 100))
    ∧ Profiler.range (prefixOfRecord lineMap
                        (Profiler.sumBlockTimes lineMap [(1, 10, 100); (50, 5, 100)])
                        (50, 5, 100)) = 50 - 1
    ∧ drawn (Profiler.backgrounds shown)
        (hoverOfRecord 1000000 lineMap
           (Profiler.sumBlockTimes lineMap [(1, 10, 100); (50, 5, 100)]) (50, 5, 100)).
Proof.
  apply (out_of_range_record_counts_in_module_scope 1000000 "/" "/proj"
           {[ "b.py" := [(1, 10, 100); (50, 5, 100)] ]} ∅ three_lines []
           [(1, 10, 100); (50, 5, 100)] 1 50 5 100).
  - reflexivity.
  - reflexivity.
  - constructor.
  - repeat constructor; simpl; lia.
  - reflexivity.
  - reflexivity.
Defined.

(** ** BlockAttributor: parents *)

Lemma popClosed_popClosed (s0 s : Z) stack :
  s0 ≤ s → Profiler.popClosed s (Profiler.popClosed s0 stack) = Profiler.popClosed s stack.
Proof.
  intros Hle. induction stack as [|top stack IH]; [done|]. simpl.
  destruct (Z.gtb_spec s0 top) as [Hgt|Hngt].
  - rewrite IH. by rewrite (proj2 (Z.gtb_lt s top)) by lia.
  - done.
Qed.

Lemma opened_snoc folds c s :
  opened (folds ++ [c]) s
  = opened folds s ++ (if decide (s ≤ Profiler.end_ c) then [(length folds, c)] else []).
Proof.
  unfold opened. rewrite imap_app, filter_app. f_equal. simpl.
  rewrite Nat.add_0_r. destruct (decide (s ≤ Profiler.end_ c)).
  - by rewrite filter_cons_True.
  - by rewrite filter_cons_False.
Qed.

Lemma opened_elem folds s ic :
  ic ∈ opened folds s → folds !! ic.1 = Some ic.2 ∧ s ≤ Profiler.end_ ic.2.
Proof.
  unfold opened. intros [Hopen Hin]%list_elem_of_filter. split; [|done].
  apply list_elem_of_lookup in Hin as [i Hi].
  rewrite list_lookup_imap in Hi.
  destruct (folds !! i) as [c|] eqn:Hc; [|done]. by injection Hi as <-.
Qed.

Lemma opened_ext folds s s' :
  (∀ c, c ∈ folds → s ≤ Profiler.end_ c ↔ s' ≤ Profiler.end_ c) →
  opened folds s = opened folds s'.
Proof.
  intros Hext.
  induction folds as [|c folds IH] using rev_ind; [done|].
  rewrite !opened_snoc. f_equal.
  - apply IH. intros d Hd. apply Hext, elem_of_app. by left.
  - assert (c ∈ folds ++ [c]) as Hc.
    { apply elem_of_app. right. by apply list_elem_of_singleton. }
    destruct (decide (s ≤ Profiler.end_ c)) as [Hs|Hs].
    + rewrite decide_True; [done|]. by apply Hext.
    + rewrite decide_False; [done|]. intros Hs'. by apply Hs, Hext.
Qed.

Lemma own_scope_prefix folds rest ic :
  (ic.1 ≤ length folds)%nat → own_scope (folds ++ rest) ic = own_scope folds ic.
Proof. intros Hlt. unfold own_scope. by rewrite take_app_le. Qed.

Lemma stack_head {A} (f : A → Z) (l : list A) (bottom : Z) :
  head (map f (reverse l) ++ [bottom]) = Some (from_option f bottom (last l)).
Proof.
  induction l as [|x l _] using rev_ind; [done|].
  by rewrite reverse_snoc, last_snoc.
Qed.

Lemma enclosing_head (lineMap : gmap Z Profiler.LineInfo) stack top :
  head stack = Some top → Profiler.enclosing lineMap stack = lineMap !! top.
Proof. destruct stack; [done|]. by intros [= ->]. Qed.

Lemma well_nested_snoc_inv lineCount folds c :
  well_nested lineCount (folds ++ [c]) →
  well_nested lineCount folds ∧ spans lineCount c ∧ Forall (λ d, follows d c) folds.
Proof.
  intros [Hspans Hsorted]. apply Forall_app in Hspans as [Hspans Hc].
  apply StronglySorted_app in Hsorted as (Hcross & Hsorted & _).
  split_and!; [done..|by inversion Hc|].
  apply Forall_forall. intros d Hd. apply Hcross; [done|]. by apply list_elem_of_singleton.
Qed.

Lemma well_nested_skip lineCount folds c fr :
  well_nested lineCount ((folds ++ [c]) ++ [fr]) → well_nested lineCount (folds ++ [fr]).
Proof.
  intros (Hwn & Hfr & Hcross)%well_nested_snoc_inv.
  apply well_nested_snoc_inv in Hwn as ([Hspans Hsorted] & _ & _).
  apply Forall_app in Hcross as [Hcross _].
  split.
  - apply Forall_app. split; [done|]. by constructor.
  - apply StronglySorted_app. split_and!; [|done|by repeat constructor].
    intros d e Hd ->%list_elem_of_singleton.
    by eapply (proj1 (Forall_forall _ _) Hcross).
Qed.

Lemma enterBlocks_snoc folds c st :
  enterBlocks (folds ++ [c]) st = Profiler.enterBlock c (enterBlocks folds st).
Proof. unfold enterBlocks. by rewrite fold_left_app. Qed.

Lemma parent_scope_all folds fr :
  parent_scope folds (length folds) fr
  = from_option (own_scope folds) module_scope (last (opened folds (Profiler.start fr))).
Proof. unfold parent_scope. rewrite take_ge by done. by destruct (last _). Qed.

Lemma opened_index folds s ic : ic ∈ opened folds s → (ic.1 < length folds)%nat.
Proof. intros [Hic _]%opened_elem. by eapply lookup_lt_Some. Qed.

Lemma opened_member folds s ic : ic ∈ opened folds s → ic.2 ∈ folds.
Proof. intros [Hic _]%opened_elem. by eapply list_elem_of_lookup_2. Qed.

(** The state of the loop after the function folds [folds]: the next block id
    counts them, and for any fold that may come next the stack, once the
    closed scopes are popped, holds the ends of the folds still open at its
    first line, innermost first, above the line count; the line registered
    for its top carries the scope of the innermost of them. *)
Lemma enterBlocks_view editor folds :
  well_nested (Profiler.lineCount editor) folds →
  let st := enterBlocks folds (Profiler.initialBlocks editor) in
  Profiler.nextBlockId st = Z.of_nat (length folds) + 1
  ∧ ∀ fr, well_nested (Profiler.lineCount editor) (folds ++ [fr]) →
      Profiler.popClosed (Profiler.start fr) (Profiler.endStack st)
      = map (λ ic, Profiler.end_ ic.2) (reverse (opened folds (Profiler.start fr)))
        ++ [Profiler.lineCount editor]
      ∧ Profiler.enclosing (Profiler.lineMap st)
          (Profiler.popClosed (Profiler.start fr) (Profiler.endStack st))
        = Some (parent_scope folds (length folds) fr).
Proof.
  induction folds as [|c folds IH] using rev_ind; intros Hwn st.
  { split; [done|]. intros fr (_ & [Hfr Hend] & _)%well_nested_snoc_inv.
    subst st. cbn [enterBlocks fold_left Profiler.initialBlocks Profiler.endStack
                   Profiler.lineMap Profiler.popClosed].
    destruct (Z.gtb_spec (Profiler.start fr) (Profiler.lineCount editor)); [lia|].
    split; [done|]. cbn [Profiler.enclosing]. by rewrite lookup_singleton_eq. }
  pose proof Hwn as (Hwn' & Hc & Hbefore)%well_nested_snoc_inv.
  destruct (IH Hwn') as [Hnext Hview]. clear IH.
  destruct (Hview c Hwn) as [Hstack_c Hparent_c].
  subst st. rewrite enterBlocks_snoc.
  set (st := enterBlocks folds (Profiler.initialBlocks editor)) in *.
  split.
  { cbn [Profiler.enterBlock Profiler.nextBlockId]. rewrite Hnext, length_app. simpl. lia. }
  intros fr Hwn_fr.
  pose proof Hwn_fr as (_ & [Hfr Hfr_end] & Hbefore_fr)%well_nested_snoc_inv.
  pose proof (well_nested_skip _ _ _ _ Hwn_fr) as Hskip.
  destruct (Hview fr Hskip) as [Hstack_fr Hparent_fr].
  apply Forall_app in Hbefore_fr as [Hbefore_fr Hc_fr].
  inversion_clear Hc_fr as [|?? [Hstart Hnest] _].
  destruct Hc as [Hc Hc_end].
  cbn [Profiler.enterBlock Profiler.endStack Profiler.lineMap Profiler.popClosed].
  rewrite opened_snoc, parent_scope_all, opened_snoc.
  destruct (Z.gtb_spec (Profiler.start fr) (Profiler.end_ c)) as [Hclosed|Hopen].
  - (* [c] has closed before [fr] starts *)
    rewrite decide_False by lia. rewrite !app_nil_r.
    rewrite popClosed_popClosed by lia. split; [done|].
    rewrite Hstack_fr in Hparent_fr |- *.
    pose proof (stack_head (λ ic : nat * Profiler.FoldingRange, Profiler.end_ ic.2)
                  (opened folds (Profiler.start fr)) (Profiler.lineCount editor)) as Hhead.
    rewrite (enclosing_head (Profiler.lineMap st) _ _ Hhead) in Hparent_fr.
    rewrite (enclosing_head _ _ _ Hhead).
    rewrite assignRange_lookup, decide_False.
    + rewrite Hparent_fr, parent_scope_all.
      destruct (last (opened folds (Profiler.start fr))) as [ic|] eqn:Hlast; [|done].
      simpl. f_equal. symmetry. apply own_scope_prefix.
      apply last_Some_elem_of, opened_index in Hlast. lia.
    + destruct (last (opened folds (Profiler.start fr))) as [ic|] eqn:Hlast; simpl; [|lia].
      apply last_Some_elem_of in Hlast.
      pose proof (opened_elem _ _ _ Hlast) as [_ Hopen].
      pose proof (proj1 (Forall_forall _ _) Hbefore_fr _ (opened_member _ _ _ Hlast))
        as [_ Hnest'].
      lia.
  - (* [fr] lies inside [c] *)
    rewrite decide_True by lia.
    assert (opened folds (Profiler.start fr) = opened folds (Profiler.start c)) as Hsame.
    { apply opened_ext. intros d Hd.
      pose proof (proj1 (Forall_forall _ _) Hbefore _ Hd) as [_ Hd_c]. lia. }
    rewrite Hsame, Hstack_c, reverse_snoc. split; [done|].
    cbn [map app Profiler.enclosing]. rewrite last_snoc. simpl.
    rewrite assignRange_lookup, decide_True by lia.
    rewrite decide_False by lia. f_equal.
    unfold own_scope. cbn [fst snd]. rewrite take_app_length.
    rewrite Hnext. f_equal.
    rewrite length_app, length_map, length_reverse.
    change (length Profiler.getBlockColors) with 5%nat.
    change (length [Profiler.lineCount editor]) with 1%nat.
    by rewrite Nat.add_comm.
Qed.

Lemma enterBlocks_lookup_outside rest st key :
  Forall (λ later, ¬ (Profiler.start later + 1 ≤ key ≤ Profiler.end_ later + 1)) rest →
  Profiler.lineMap (enterBlocks rest st) !! key = Profiler.lineMap st !! key.
Proof.
  intros Hrest. revert st.
  induction Hrest as [|later rest Hlater _ IH]; intros st; [done|].
  cbn [enterBlocks fold_left]. fold (enterBlocks rest (Profiler.enterBlock later st)).
  rewrite IH. cbn [Profiler.enterBlock Profiler.lineMap].
  by rewrite assignRange_lookup, decide_False.
Qed.

Lemma LineInfo_eta (info : Profiler.LineInfo) :
  {| Profiler.color := Some info ≫= Profiler.color;
     Profiler.blockID := Some info ≫= Profiler.blockID |} = info.
Proof. by destruct info. Qed.

(** The line map after all function folds, at the lines of the [j]-th. *)
Lemma enterBlocks_scopes editor folds j fr :
  well_nested (Profiler.lineCount editor) folds →
  folds !! j = Some fr →
  let lineMap := Profiler.lineMap (enterBlocks folds (Profiler.initialBlocks editor)) in
  lineMap !! (Profiler.start fr + 1) = Some (parent_scope folds j fr)
  ∧ ∀ line,
      Profiler.start fr < line ≤ Profiler.end_ fr →
      (∀ k later, (j < k)%nat → folds !! k = Some later →
                  ¬ (Profiler.start later ≤ line ≤ Profiler.end_ later)) →
      lineMap !! (line + 1) = Some (own_scope folds (j, fr)).
Proof.
  intros Hwn Hj lineMap. subst lineMap.
  pose proof (take_drop_middle folds j fr Hj) as Hsplit.
  pose proof (lookup_lt_Some _ _ _ Hj) as Hlt.
  set (before := take j folds) in *. set (rest := drop (S j) folds) in *.
  assert (length before = j) as Hlen by (subst before; rewrite length_take; lia).
  assert (well_nested (Profiler.lineCount editor) (before ++ [fr])
          ∧ Forall (follows fr) rest) as [Hwn_fr Hrest].
  { destruct Hwn as [Hspans Hsorted]. rewrite <-Hsplit in Hspans, Hsorted.
    change (fr :: rest) with ([fr] ++ rest) in Hspans, Hsorted.
    rewrite (assoc_L (++)) in Hspans, Hsorted.
    apply Forall_app in Hspans as [Hspans _].
    pose proof (StronglySorted_app_1_l _ _ _ Hsorted) as Hsorted_l.
    apply StronglySorted_app in Hsorted as (Hcross & _ & _).
    split; [by split|].
    apply Forall_forall. intros later Hlater. apply Hcross; [|done].
    apply elem_of_app. right. by apply list_elem_of_singleton. }
  pose proof Hwn_fr as (Hwn_before & [Hfr Hfr_end] & _)%well_nested_snoc_inv.
  destruct (enterBlocks_view editor before Hwn_before) as [Hnext Hview].
  destruct (Hview fr Hwn_fr) as [Hstack Hparent].
  assert (enterBlocks folds (Profiler.initialBlocks editor)
          = enterBlocks rest
              (Profiler.enterBlock fr (enterBlocks before (Profiler.initialBlocks editor))))
    as ->.
  { rewrite <-Hsplit at 1. unfold enterBlocks. by rewrite fold_left_app. }
  split.
  - rewrite enterBlocks_lookup_outside.
    2:{ eapply Forall_impl; [exact Hrest|]. intros later [Hstart _]. lia. }
    cbn [Profiler.enterBlock Profiler.lineMap].
    rewrite assignRange_lookup, decide_True by lia. rewrite decide_True by done.
    rewrite Hparent, LineInfo_eta. rewrite parent_scope_all. unfold parent_scope.
    fold before. destruct (last (opened before (Profiler.start fr))) as [ic|] eqn:Hlast;
      [|done].
    simpl. f_equal. rewrite <-Hsplit. symmetry. apply own_scope_prefix.
    apply last_Some_elem_of, opened_index in Hlast. lia.
  - intros line Hline Hlater.
    rewrite enterBlocks_lookup_outside.
    2:{ apply Forall_forall. intros later Hin.
        apply list_elem_of_lookup in Hin as [i Hi].
        subst rest. rewrite lookup_drop in Hi.
        specialize (Hlater (S j + i)%nat later ltac:(lia) Hi). lia. }
    cbn [Profiler.enterBlock Profiler.lineMap].
    rewrite assignRange_lookup, decide_True by lia. rewrite decide_False by lia.
    f_equal. unfold own_scope. cbn [fst snd]. fold before.
    rewrite Hnext, Hlen, Hstack. f_equal.
    rewrite length_app, length_map, length_reverse.
    change (length Profiler.getBlockColors) with 5%nat.
    change (length [Profiler.lineCount editor]) with 1%nat.
    by rewrite Nat.add_comm.
Qed.

(** C1. When the function folds of a file, taken in ascending order of their
    first lines, are well nested, [mapLinesToBlocks] gives the first line of
    every function fold the id and the colour of its parent scope, the
    innermost earlier function fold still open there or else the module scope
    0, and gives every other line of the fold the id and the colour of the
    scope created for the fold, unless a later function fold covers the line.
    For the folds (2,10) and (4,6) of a twelve-line file: line 2 is in the
    module scope 0, lines 3 and 7 to 10 in scope 1, line 4, the inner
    definition line, in scope 1, lines 5 and 6 in scope 2. *)
Theorem definition_line_belongs_to_parent
    (editorToColors : gmap string (gmap Z Profiler.LineInfo))
    (editor : Profiler.TextEditor) (foldRanges : list Profiler.FoldingRange) :
  editorToColors !! Profiler.uri editor = None →
  Forall (within editor) foldRanges →
  well_nested (Profiler.lineCount editor) (function_folds editor foldRanges) →
  (∃ lineMap,
     Profiler.mapLinesToBlocks editorToColors editor (Some foldRanges)
     = Normal (lineMap, <[Profiler.uri editor := lineMap]> editorToColors)
     ∧ ∀ j fr, function_folds editor foldRanges !! j = Some fr →
         lineMap !! (Profiler.start fr + 1)
         = Some (parent_scope (function_folds editor foldRanges) j fr)
         ∧ ∀ line,
             Profiler.start fr < line ≤ Profiler.end_ fr →
             (∀ k later, (j < k)%nat → function_folds editor foldRanges !! k = Some later →
                         ¬ (Profiler.start later ≤ line ≤ Profiler.end_ later)) →
             lineMap !! (line + 1) = Some (own_scope (function_folds editor foldRanges) (j, fr)))
  ∧ (∃ lineMap cache,
       Profiler.mapLinesToBlocks ∅ twelve_lines (Some nested_folds) = Normal (lineMap, cache)
       ∧ function_folds twelve_lines nested_folds = nested_folds
       ∧ scope_at lineMap <$> [2; 3; 4; 5; 6; 7; 8; 9; 10]
         = [Some 0; Some 1; Some 1; Some 2; Some 2; Some 1; Some 1; Some 1; Some 1]
       ∧ colour_at lineMap <$> [2; 3; 4; 5; 6; 7; 8; 9; 10]
         = [Some "#9C27B0"; Some "#2196F3"; Some "#2196F3"; Some "#4CAF50"; Some "#4CAF50";
            Some "#2196F3"; Some "#2196F3"; Some "#2196F3"; Some "#2196F3"]).
Proof.
  intros Hmiss Hwithin Hwn. split.
  - destruct (mapLinesToBlocks_run editorToColors editor foldRanges Hmiss Hwithin)
      as (lineMap & Hrun & -> & _).
    eexists. split; [exact Hrun|].
    intros j fr Hj. by apply enterBlocks_scopes.
  - do 2 eexists. split; [reflexivity|]. split_and!; reflexivity.
Qed.

Lemma nested_folds_well_nested :
  well_nested (Profiler.lineCount twelve_lines) (function_folds twelve_lines nested_folds).
Proof.
  change (function_folds twelve_lines nested_folds) with nested_folds.
  split.
  - repeat constructor; simpl; lia.
  - repeat constructor; simpl; lia.
Defined.

Lemma definition_line_belongs_to_parent_witness :
  ∃ lineMap,
    Profiler.mapLinesToBlocks ∅ twelve_lines (Some nested_folds)
    = Normal (lineMap, <[Profiler.uri twelve_lines := lineMap]> ∅)
    ∧ ∀ j fr, function_folds twelve_lines nested_folds !! j = Some fr →
        lineMap !! (Profiler.start fr + 1)
        = Some (parent_scope (function_folds twelve_lines nested_folds) j fr)
        ∧ ∀ line,
            Profiler.start fr < line ≤ Profiler.end_ fr →
            (∀ k later, (j < k)%nat →
                        function_folds twelve_lines nested_folds !! k = Some later →
                        ¬ (Profiler.start later ≤ line ≤ Profiler.end_ later)) →
            lineMap !! (line + 1)
            = Some (own_scope (function_folds twelve_lines nested_folds) (j, fr)).
Proof.
  apply (definition_line_belongs_to_parent ∅ twelve_lines nested_folds).
  - reflexivity.
  - repeat constructor; simpl; lia.
  - exact nested_folds_well_nested.
Defined.

(** ** The launch handshake: its schedule *)

Lemma attempt_start_mono server start i k :
  (∀ j, (j < k)%nat → 0 ≤ duration (server j)) → (i ≤ k)%nat →
  attempt_start server start i ≤ attempt_start server start k.
Proof.
  intros Hd Hik. induction k as [|k IH]; [by replace i with 0%nat by lia|].
  destruct (decide (i = S k)) as [->|Hne]; [done|].
  cbn [attempt_start]. unfold Ping.backoff.
  pose proof (Hd k ltac:(lia)). etrans; [apply IH; [|lia]|lia].
  intros j Hj. apply Hd. lia.
Qed.

Lemma loop_answered server start k after :
  (∀ i, (i < k)%nat → ∃ d, server i = Ping.Refused d ∧ 0 ≤ d) →
  server k = Ping.Answered after →
  attempt_start server start k - start ≤ Ping.timeout →
  ∀ n i fuel, (i + n = k)%nat → (n < fuel)%nat →
    Ping.loop fuel server i start (attempt_start server start i)
    = Ping.Returned (attempt_start server start k + after).
Proof.
  intros Hrefused Hanswer Hstart.
  assert (∀ j, (j < k)%nat → 0 ≤ duration (server j)) as Hd.
  { intros j Hj. by destruct (Hrefused j Hj) as (d & -> & ?). }
  induction n as [|n IH]; intros i [|fuel] Hi Hfuel; try lia; cbn [Ping.loop].
  - replace i with k by lia.
    destruct (Z.gtb_spec (attempt_start server start k - start) Ping.timeout); [lia|].
    by rewrite Hanswer.
  - pose proof (attempt_start_mono server start i k Hd ltac:(lia)).
    destruct (Z.gtb_spec (attempt_start server start i - start) Ping.timeout); [lia|].
    destruct (Hrefused i ltac:(lia)) as (d & Hi_refused & _).
    rewrite Hi_refused.
    replace (attempt_start server start i + d + Ping.backoff)
      with (attempt_start server start (S i)).
    + apply IH; lia.
    + cbn [attempt_start]. by rewrite Hi_refused.
Qed.

(** X1.  The handshake returns as soon as an attempt is answered: when the first
    [k] attempts are refused, the next one is answered and begins no later
    than 60000 ms after the start, [pingserver] returns when that answer
    arrives, whatever the endpoint would do afterwards. *)
Theorem pingserver_returns_on_first_answer
    (server : Ping.endpoint) (start : Z) (k : nat) (after : Z) (fuel : nat) :
  (∀ i, (i < k)%nat → ∃ d, server i = Ping.Refused d ∧ 0 ≤ d) →
  server k = Ping.Answered after →
  attempt_start server start k - start ≤ Ping.timeout →
  (k < fuel)%nat →
  Ping.pingserver fuel server start
  = Ping.Returned (attempt_start server start k + after).
Proof.
  intros Hrefused Hanswer Hstart Hfuel. unfold Ping.pingserver.
  by apply (loop_answered server start k after Hrefused Hanswer Hstart k 0%nat).
Qed.

Lemma pingserver_returns_on_first_answer_witness :
  Ping.pingserver 3
    (λ k, if (k <? 2)%nat then Ping.Refused 10 else Ping.Answered 5) 0
  = Ping.Returned 325.
Proof.
  apply (pingserver_returns_on_first_answer
           (λ k, if (k <? 2)%nat then Ping.Refused 10 else Ping.Answered 5) 0 2 5 3).
  - intros i Hi. exists 10. split; [|lia].
    destruct i as [|[|i]]; [reflexivity|reflexivity|lia].
  - reflexivity.
  - vm_compute. discriminate.
  - lia.
Defined.

(** X2.  The handshake gives up on a server that keeps refusing: when every
    attempt is refused within [most] ms, 402 turns of the loop or more end in
    the timeout error, thrown after more than 60000 ms and no later than one
    attempt and one back-off of 150 ms after that bound. *)
Theorem pingserver_gives_up_on_refusals
    (server : Ping.endpoint) (start most : Z) (fuel : nat) :
  (∀ k, ∃ after, server k = Ping.Refused after ∧ 0 ≤ after ≤ most) →
  (402 ≤ fuel)%nat →
  ∃ t, Ping.pingserver fuel server start = Ping.TimedOut t
       ∧ 60000 < t - start ≤ 60000 + most + 150.
Proof.
  intros Hserver Hfuel. destruct fuel as [|n]; [lia|]. unfold Ping.pingserver.
  apply (loop_refusing server start most Hserver n 0%nat start).
  - destruct (Hserver 0%nat) as (after & _ & ?). unfold Ping.timeout, Ping.backoff. lia.
  - unfold Ping.timeout, Ping.backoff. lia.
Qed.

Lemma pingserver_gives_up_on_refusals_witness :
  ∃ t, Ping.pingserver 402 (λ _, Ping.Refused 10) 0 = Ping.TimedOut t
       ∧ 60000 < t - 0 ≤ 60000 + 10 + 150.
Proof.
  apply (pingserver_gives_up_on_refusals (λ _, Ping.Refused 10) 0 10 402).
  - intros k. exists 10. split; [reflexivity|lia].
  - lia.
Defined.

Lemma loop_settles server start :
  (∀ k, 0 ≤ duration (server k)) →
  ∀ n k now extra,
    Ping.timeout - (now - start) < Ping.backoff * Z.of_nat n →
    Ping.loop (S n + extra) server k start now = Ping.loop (S n) server k start now
    ∧ ∀ t, Ping.loop (S n) server k start now ≠ Ping.Running t.
Proof.
  intros Hd. induction n as [|n IH]; intros k now extra Hn.
  - cbn [Ping.loop Nat.add].
    destruct (Z.gtb_spec (now - start) Ping.timeout); [done|].
    unfold Ping.backoff in Hn. lia.
  - change (S (S n) + extra)%nat with (S (S n + extra)).
    cbn [Ping.loop].
    destruct (Z.gtb_spec (now - start) Ping.timeout); [done|].
    pose proof (Hd k) as Hk.
    destruct (server k) as [after|after|]; [|done..].
    simpl in Hk. apply IH. unfold Ping.backoff in *. lia.
Qed.

Lemma loop_TimedOut server start fuel :
  ∀ k now t, Ping.loop fuel server k start now = Ping.TimedOut t → Ping.timeout < t - start.
Proof.
  induction fuel as [|fuel IH]; intros k now t; cbn [Ping.loop]; [done|].
  destruct (Z.gtb_spec (now - start) Ping.timeout); [intros [= <-]; lia|].
  destruct (server k) as [after|after|]; [apply IH|done..].
Qed.

(** X3.  The handshake is bounded in its attempts: when no attempt takes negative
    time, 402 turns of the loop settle it (it has returned, thrown, or is
    suspended in an attempt that stays silent), further turns change nothing,
    and the timeout error is thrown only once more than 60000 ms have passed,
    although its text speaks of 10 s. *)
Theorem pingserver_settles_within_402_turns
    (server : Ping.endpoint) (start : Z) (fuel : nat) :
  (∀ k, 0 ≤ duration (server k)) →
  (402 ≤ fuel)%nat →
  Ping.pingserver fuel server start = Ping.pingserver 402 server start
  ∧ (∀ t, Ping.pingserver fuel server start ≠ Ping.Running t)
  ∧ (∀ t, Ping.pingserver fuel server start = Ping.TimedOut t → 60000 < t - start).
Proof.
  intros Hd Hfuel. unfold Ping.pingserver.
  destruct (loop_settles server start Hd 401 0%nat start (fuel - 402)%nat) as [Hsame Hrun].
  { unfold Ping.timeout, Ping.backoff. lia. }
  replace (402 + (fuel - 402))%nat with fuel in Hsame by lia.
  split; [done|]. split.
  - intros t. rewrite Hsame. apply Hrun.
  - intros t Ht. by apply loop_TimedOut in Ht.
Qed.

Lemma pingserver_settles_within_402_turns_witness :
  Ping.pingserver 500 (λ _, Ping.Refused 0) 7 = Ping.pingserver 402 (λ _, Ping.Refused 0) 7
  ∧ (∀ t, Ping.pingserver 500 (λ _, Ping.Refused 0) 7 ≠ Ping.Running t)
  ∧ (∀ t, Ping.pingserver 500 (λ _, Ping.Refused 0) 7 = Ping.TimedOut t → 60000 < t - 7).
Proof.
  apply (pingserver_settles_within_402_turns (λ _, Ping.Refused 0) 7 500).
  - intros k. simpl. lia.
  - lia.
Defined.

(** ** The descriptor factory *)

Lemma strictEqualsString_spec v literal :
  strictEqualsString v literal = true ↔ v = Some (JStr literal).
Proof.
  unfold strictEqualsString. destruct v as [[]|]; try (split; [discriminate|congruence]).
  rewrite bool_decide_eq_true. split; congruence.
Qed.

Lemma strictEqualsString_false v literal :
  strictEqualsString v literal = false ↔ v ≠ Some (JStr literal).
Proof.
  rewrite <-strictEqualsString_spec. by destruct (strictEqualsString v literal).
Qed.

(** X4.  Only a [launch] request reaches the terminal and the network.  An
    [attach] request resolves at once to the server at [port || 6110] and
    [host || 'localhost'] and leaves the window as it is; any other request
    type that is not [launch], also a missing one, resolves to [null] after
    one error notification that names the type, and opens no terminal. *)
Theorem only_launch_opens_a_terminal
    (network : json → json → Ping.endpoint) (fuel : nat) (now : Z)
    (config : list (string * json)) (w : Descriptor.window) :
  ¬ request_is config "launch" →
  (request_is config "attach"
   ∧ Descriptor.createDebugAdapterDescriptor network fuel now config w
     = (Descriptor.Resolved
          (Some {| Descriptor.port :=
                     Descriptor.orDefault (Js.field "port" config) (JNum 6110);
                   Descriptor.host :=
                     Descriptor.orDefault (Js.field "host" config) (JStr "localhost") |}),
        w))
  ∨ (¬ request_is config "attach"
     ∧ Descriptor.createDebugAdapterDescriptor network fuel now config w
       = (Descriptor.Resolved None,
          {| Descriptor.terminals := Descriptor.terminals w;
             Descriptor.errors :=
               Descriptor.errors w
               ++ ["unsupported type: "
                   +:+ Descriptor.template (Js.field "request" config)] |})).
Proof.
  intros Hlaunch. unfold request_is in *. unfold Descriptor.createDebugAdapterDescriptor.
  destruct (strictEqualsString (Js.field "request" config) "attach") eqn:Hattach.
  - left. split; [by apply strictEqualsString_spec|done].
  - right. split; [by apply strictEqualsString_false|].
    by rewrite (proj2 (strictEqualsString_false _ _) Hlaunch).
Qed.

Lemma only_launch_opens_a_terminal_witness :
  Descriptor.createDebugAdapterDescriptor (λ _ _ _, Ping.Silent) 0 0
    [("type", JStr "pocketpy"); ("port", JNum 0)] no_window
  = (Descriptor.Resolved None,
     {| Descriptor.terminals := [];
        Descriptor.errors := ["unsupported type: undefined"] |}).
Proof.
  destruct (only_launch_opens_a_terminal (λ _ _ _, Ping.Silent) 0 0
              [("type", JStr "pocketpy"); ("port", JNum 0)] no_window)
    as [[Hattach _]|[_ Hrun]].
  - unfold request_is. simpl. discriminate.
  - unfold request_is in Hattach. simpl in Hattach. discriminate.
  - exact Hrun.
Defined.

(** X5.  A [launch] request whose [args] is not an array is rejected with the
    [TypeError] of [args.join]: by then the terminal has been created, but no
    command is sent to it, it is not shown, the server is never pinged and no
    error notification is raised. *)
Theorem launch_without_argument_list_is_rejected
    (network : json → json → Ping.endpoint) (fuel : nat) (now : Z)
    (config : list (string * json)) (w : Descriptor.window) :
  request_is config "launch" →
  (∀ elems, Js.field "args" config ≠ Some (JArr elems)) →
  ∃ error,
    Descriptor.createDebugAdapterDescriptor network fuel now config w
    = (Descriptor.Rejected error,
       {| Descriptor.terminals :=
            Descriptor.terminals w
            ++ [{| Descriptor.name := "pocketpy"; Descriptor.cwd := Js.field "cwd" config;
                   Descriptor.sent := []; Descriptor.shown := false |}];
          Descriptor.errors := Descriptor.errors w |}).
Proof.
  intros Hlaunch Hargs. unfold request_is in Hlaunch.
  unfold Descriptor.createDebugAdapterDescriptor.
  rewrite Hlaunch. cbn [strictEqualsString].
  rewrite bool_decide_eq_false_2 by done. rewrite bool_decide_eq_true_2 by done.
  destruct (Js.field "args" config) as [[| | | |elems|]|]; simpl; eauto.
  by destruct (Hargs elems).
Qed.

Lemma launch_without_argument_list_is_rejected_witness :
  ∃ error,
    Descriptor.createDebugAdapterDescriptor (λ _ _ _, Ping.Answered 1) 9 0
      [("request", JStr "launch"); ("program", JStr "./main")] no_window
    = (Descriptor.Rejected error,
       {| Descriptor.terminals :=
            [{| Descriptor.name := "pocketpy"; Descriptor.cwd := None;
                Descriptor.sent := []; Descriptor.shown := false |}];
          Descriptor.errors := [] |}).
Proof.
  apply (launch_without_argument_list_is_rejected (λ _ _ _, Ping.Answered 1) 9 0
           [("request", JStr "launch"); ("program", JStr "./main")] no_window).
  - reflexivity.
  - intros elems. simpl. discriminate.
Defined.

(** X6.  A [launch] request with an argument list opens a terminal named
    [pocketpy], sends it the program followed by the arguments joined by
    spaces, shows it, and then follows the handshake with the endpoint at
    [host || 'localhost'] and [port || 6110]: it resolves to that server once
    an attempt is answered, it is rejected with the timeout error when every
    attempt is refused, and it stays pending when the first connection is
    accepted and stays silent.  No error notification is raised in any of
    these cases. *)
Theorem launch_follows_the_handshake
    (network : json → json → Ping.endpoint) (now : Z)
    (config : list (string * json)) (w : Descriptor.window) (joined : string) :
  request_is config "launch" →
  Descriptor.joinArgs " " (Js.field "args" config) = Normal joined →
  let port := Descriptor.orDefault (Js.field "port" config) (JNum 6110) in
  let host := Descriptor.orDefault (Js.field "host" config) (JStr "localhost") in
  let server := network host port in
  let opened :=
    {| Descriptor.terminals :=
         Descriptor.terminals w
         ++ [{| Descriptor.name := "pocketpy"; Descriptor.cwd := Js.field "cwd" config;
                Descriptor.sent :=
                  [Descriptor.template (Js.field "program" config) +:+ " " +:+ joined];
                Descriptor.shown := true |}];
       Descriptor.errors := Descriptor.errors w |} in
  (∀ k after fuel,
     (∀ i, (i < k)%nat → ∃ d, server i = Ping.Refused d ∧ 0 ≤ d) →
     server k = Ping.Answered after →
     attempt_start server now k - now ≤ Ping.timeout →
     (k < fuel)%nat →
     Descriptor.createDebugAdapterDescriptor network fuel now config w
     = (Descriptor.Resolved (Some {| Descriptor.port := port; Descriptor.host := host |}),
        opened))
  ∧ (∀ most,
       (∀ k, ∃ after, server k = Ping.Refused after ∧ 0 ≤ after ≤ most) →
       ∃ fuel,
         Descriptor.createDebugAdapterDescriptor network fuel now config w
         = (Descriptor.Rejected "Timeout: server did not respond within 10s", opened))
  ∧ (server 0%nat = Ping.Silent →
     ∀ fuel,
       Descriptor.createDebugAdapterDescriptor network (S fuel) now config w
       = (Descriptor.Pending, opened)).
Proof.
  intros Hlaunch Hjoin port host server opened. unfold request_is in Hlaunch.
  assert (∀ fuel,
            Descriptor.createDebugAdapterDescriptor network fuel now config w
            = match Ping.pingserver fuel server now with
              | Ping.Returned _ =>
                  (Descriptor.Resolved
                     (Some {| Descriptor.port := port; Descriptor.host := host |}), opened)
              | Ping.TimedOut _ =>
                  (Descriptor.Rejected "Timeout: server did not respond within 10s", opened)
              | Ping.Suspended _ => (Descriptor.Pending, opened)
              | Ping.Running _ => (Descriptor.Unsettled, opened)
              end) as Hrun.
  { intros fuel. unfold Descriptor.createDebugAdapterDescriptor.
    rewrite Hlaunch. cbn [strictEqualsString].
    rewrite bool_decide_eq_false_2 by done. rewrite bool_decide_eq_true_2 by done.
    by rewrite Hjoin. }
  split_and!.
  - intros k after fuel Hrefused Hanswer Hstart Hfuel. rewrite Hrun.
    unfold Ping.pingserver.
    pose proof (loop_answered server now k after Hrefused Hanswer Hstart k 0%nat fuel
                  ltac:(lia) Hfuel) as Hloop.
    change (attempt_start server now 0) with now in Hloop. by rewrite Hloop.
  - intros most Hserver. exists (S 401). rewrite Hrun. unfold Ping.pingserver.
    destruct (loop_refusing server now most Hserver 401 0%nat now) as (t & -> & _);
      [|unfold Ping.timeout, Ping.backoff; lia|done].
    destruct (Hserver 0%nat) as (after & _ & ?). unfold Ping.timeout, Ping.backoff. lia.
  - intros Hsilent fuel. rewrite Hrun. unfold Ping.pingserver. cbn [Ping.loop].
    rewrite Z.sub_diag, Hsilent. done.
Qed.

Lemma launch_follows_the_handshake_witness :
  let config :=
    [("request", JStr "launch"); ("program", JStr "pocketpy");
     ("args", JArr [JStr "main.py"; JNum 3]); ("port", JNum 7000)] in
  let network : json → json → Ping.endpoint :=
    λ _ _ k, if (k <? 1)%nat then Ping.Refused 10 else Ping.Answered 5 in
  let opened :=
    {| Descriptor.terminals :=
         [{| Descriptor.name := "pocketpy"; Descriptor.cwd := None;
             Descriptor.sent := ["pocketpy main.py 3"]; Descriptor.shown := true |}];
       Descriptor.errors := [] |} in
  Descriptor.createDebugAdapterDescriptor network 2 0 config no_window
  = (Descriptor.Resolved
       (Some {| Descriptor.port := JNum 7000; Descriptor.host := JStr "localhost" |}),
     opened).
Proof.
  intros config network opened.
  destruct (launch_follows_the_handshake network 0 config no_window "main.py 3")
    as (Hanswered & _ & _).
  - reflexivity.
  - reflexivity.
  - apply (Hanswered 1%nat 5 2%nat).
    + intros i Hi. exists 10. split; [|lia]. by replace i with 0%nat by lia.
    + reflexivity.
    + vm_compute. discriminate.
    + lia.
Defined.

(** ** The inbound callback as a map over the message *)

Lemma update_field_ext_on k f g fields :
  (∀ x, Js.field k fields = Some x → f x = g x) →
  Js.update_field k f fields = Js.update_field k g fields.
Proof.
  induction fields as [|[k0 v] fields IH]; intros Hfg; [done|].
  simpl in Hfg |- *. destruct (bool_decide (k = k0)); [by rewrite Hfg|].
  f_equal. by apply IH.
Qed.

Lemma update_field_id k fields : Js.update_field k (λ x, x) fields = fields.
Proof.
  induction fields as [|[k0 v] fields IH]; [done|]. simpl.
  destruct (bool_decide (k = k0)); [done|by rewrite IH].
Qed.

Lemma at_field_ext_on k f g v :
  (∀ x, Js.opt_member (Some v) k = Some x → f x = g x) →
  Js.at_field k f v = Js.at_field k g v.
Proof. destruct v; try done. intros Hfg. simpl. f_equal. by apply update_field_ext_on. Qed.

Lemma at_field_id k f v :
  (∀ x, Js.opt_member (Some v) k = Some x → f x = x) → Js.at_field k f v = v.
Proof.
  intros Hf. rewrite (at_field_ext_on k f (λ x, x)) by done.
  destruct v; try done. simpl. by rewrite update_field_id.
Qed.

Lemma stack_frames_at_index i g m :
  stack_frames (Js.at_field "body" (Js.at_field "stackFrames" (Js.at_index i g)) m)
  = alter g i (stack_frames m).
Proof.
  unfold stack_frames. rewrite opt_member_at_field_eq.
  destruct (Js.opt_member (Some m) "body") as [body|]; [|done].
  change (Js.at_field "stackFrames" (Js.at_index i g) <$> Some body)
    with (Some (Js.at_field "stackFrames" (Js.at_index i g) body)).
  rewrite opt_member_at_field_eq.
  by destruct (Js.opt_member (Some body) "stackFrames") as [[]|].
Qed.

Lemma stack_frames_of m x :
  Js.opt_member (Js.opt_member (Some m) "body") "stackFrames" = Some x →
  x = JArr (stack_frames m) ∨ (stack_frames m = [] ∧ ∀ elems, x ≠ JArr elems).
Proof. unfold stack_frames. intros ->. destruct x; eauto. Qed.

Lemma at_stack_frames_ext f g m :
  (∀ elems, stack_frames m = elems → f (JArr elems) = g (JArr elems)) →
  (∀ x, (∀ elems, x ≠ JArr elems) → f x = g x) →
  Js.at_field "body" (Js.at_field "stackFrames" f) m
  = Js.at_field "body" (Js.at_field "stackFrames" g) m.
Proof.
  intros Harr Hother. apply at_field_ext_on. intros body Hbody.
  apply at_field_ext_on. intros x Hx.
  destruct (stack_frames_of m x) as [->|[_ Hx']]; [by rewrite Hbody| |by apply Hother].
  by apply Harr.
Qed.

Lemma at_from_all f v : at_from 0 f v = Js.at_each f v.
Proof. by destruct v. Qed.

Lemma at_from_none i f elems :
  (length elems ≤ i)%nat → at_from i f (JArr elems) = JArr elems.
Proof.
  intros Hi. simpl. by rewrite take_ge, drop_ge, app_nil_r by done.
Qed.

Lemma at_from_step i f g pre frame rest :
  length pre = i → g frame = f frame →
  at_from (S i) f (Js.at_index i g (JArr (pre ++ frame :: rest)))
  = at_from i f (JArr (pre ++ frame :: rest)).
Proof.
  intros <- Hg. simpl.
  rewrite alter_app_r_alt by done. rewrite Nat.sub_diag. simpl.
  rewrite take_app_length, drop_app_length. simpl.
  rewrite (cons_middle (g frame) pre rest), (assoc_L (++)).
  rewrite take_app_length', drop_app_length' by (rewrite length_app; simpl; lia).
  by rewrite <-(assoc_L (++)), Hg.
Qed.

Section Absolutize.
Variable helper : option json → completion string.
Hypothesis helper_total : ∀ s, ∃ r, helper (Some (JStr s)) = Normal r.

Lemma absolutize_source_assigned frame a :
  Js.truthy (frame_path frame) = true → helper (frame_path frame) = Normal a →
  Js.at_field "source" (Js.at_field "path" (λ _, JStr a)) frame
  = absolutize_source helper frame.
Proof.
  unfold frame_path, absolutize_source. intros Ht Ha.
  apply at_field_ext_on. intros source Hsource. rewrite Hsource in Ht, Ha.
  apply at_field_ext_on. intros v Hv. rewrite Hv in Ht, Ha.
  unfold assign. by rewrite Ht, Ha.
Qed.

Lemma absolutize_source_skipped frame :
  Js.truthy (frame_path frame) = false → absolutize_source helper frame = frame.
Proof.
  unfold frame_path, absolutize_source. intros Ht.
  apply at_field_id. intros source Hsource. rewrite Hsource in Ht.
  apply at_field_id. intros v Hv. rewrite Hv in Ht.
  unfold assign. by rewrite Ht.
Qed.

(** The loop over the stack frames, started at frame [i] with the frames
    before it already visited. *)
Lemma forStackFrames_absolutize frames :
  forallb is_object frames = true →
  forallb path_ok (map frame_path frames) = true →
  ∀ i m shown pre,
    stack_frames m = pre ++ frames → length pre = i →
    forStackFrames helper i frames (Tracked m shown)
    = (Normal tt,
       Tracked (Js.at_field "body"
                  (Js.at_field "stackFrames" (at_from i (absolutize_source helper))) m)
         shown).
Proof.
  induction frames as [|frame frames IH]; intros Hobjs Hpaths i m shown pre Hm Hpre.
  { cbn [forStackFrames]. unfold ret. do 2 f_equal. symmetry.
    rewrite app_nil_r in Hm.
    rewrite (at_stack_frames_ext _ (λ x, x)).
    - apply at_field_id. intros body _. by apply at_field_id.
    - intros elems <-. apply at_from_none. rewrite Hm. lia.
    - intros [| | | |elems|] Hx; try done; by destruct (Hx elems). }
  simpl in Hobjs, Hpaths.
  apply andb_true_iff in Hobjs as [Hobj Hobjs].
  apply andb_true_iff in Hpaths as [Hpath Hpaths].
  destruct frame as [| | | | |fields]; try done.
  cbn [forStackFrames]. unfold_monad.
  change (Js.opt_member (Js.opt_member (Some (JObj fields)) "source") "path")
    with (frame_path (JObj fields)).
  destruct (Js.truthy (frame_path (JObj fields))) eqn:Ht.
  - destruct (path_ok_truthy _ Hpath Ht) as [s Hs].
    destruct (helper_total s) as [a Ha]. rewrite <-Hs in Ha. rewrite Ha.
    cbn [message notifications].
    set (g := Js.at_field "source" (Js.at_field "path" (λ _, JStr a))).
    assert (g (JObj fields) = absolutize_source helper (JObj fields)) as Hg
      by by apply absolutize_source_assigned.
    rewrite (IH Hobjs Hpaths (S i) _ shown (pre ++ [g (JObj fields)])).
    + do 2 f_equal. rewrite at_field_compose.
      rewrite (at_field_ext "body" _
                 (Js.at_field "stackFrames"
                    (λ x, at_from (S i) (absolutize_source helper) (Js.at_index i g x))))
        by (intros body; apply at_field_compose).
      apply at_stack_frames_ext.
      * intros elems <-. rewrite Hm. by apply at_from_step.
      * intros [| | | |elems|] Hx; try done; by destruct (Hx elems).
    + rewrite stack_frames_at_index, Hm.
      rewrite alter_app_r_alt by lia. rewrite Hpre, Nat.sub_diag. simpl.
      by rewrite <-(assoc_L (++)).
    + rewrite length_app. simpl. lia.
  - rewrite (IH Hobjs Hpaths (S i) m shown (pre ++ [JObj fields])).
    + do 2 f_equal. apply at_stack_frames_ext.
      * intros elems <-. rewrite Hm.
        rewrite <-(at_from_step i (absolutize_source helper) (λ x, x) pre (JObj fields) frames)
          by (by rewrite ?absolutize_source_skipped).
        simpl. by rewrite list_alter_id.
      * intros [| | | |elems|] Hx; try done; by destruct (Hx elems).
    + by rewrite <-(assoc_L (++)).
    + rewrite length_app. simpl. lia.
Qed.

(** On a message whose path fields hold strings and whose stack frames are
    objects the callback completes and leaves [absolutize helper m]. *)
Lemma onDidSendMessage_absolutize m shown :
  is_object m = true →
  well_formed_inbound m = true →
  onDidSendMessage helper (Tracked m shown)
  = (Normal tt,
     Tracked (absolutize helper m)
       (if strictEqualsString (Js.opt_member (Some m) "type") "event"
           && strictEqualsString (Js.opt_member (Some m) "event") "fatalError"
        then shown ++ ["[C11 Debugger] " +:+ fatal_error_text m] else shown)).
Proof.
  intros Hobj [Hpaths Hframes]%andb_true_iff.
  unfold inbound_paths in Hpaths. cbn [forallb] in Hpaths.
  apply andb_true_iff in Hpaths as [Hpath Hpaths].
  set (m1 := Js.at_field "body" (absolutize_source helper) m).
  assert (stack_frames m1 = stack_frames m) as Hsf1 by apply stack_frames_assign_source.
  assert (erase_inbound m1 = erase_inbound m) as Herase1.
  { subst m1. unfold erase_inbound. rewrite at_field_compose. apply at_field_ext.
    intros body. unfold erase_body, absolutize_source.
    rewrite (at_field_comm "stackFrames" "source") by done.
    rewrite erase_path_idem. by rewrite (at_field_comm "source" "stackFrames"). }
  assert (is_object m1 = true) as Hobj1 by by rewrite (erase_inbound_is_object _ _ Herase1).
  assert (when (Js.truthy (Js.opt_member (Js.opt_member (Js.opt_member (Some m) "body")
                                            "source") "path"))
            (let* absolute :=
               lift (helper (Js.opt_member (Js.opt_member (Js.opt_member (Some m) "body")
                                              "source") "path")) in
             mutate (Js.at_field "body" (Js.at_field "source"
                       (Js.at_field "path" (λ _, JStr absolute)))))
            (Tracked m shown) = (Normal tt, Tracked m1 shown)) as Hstep1.
  { subst m1.
    destruct (Js.truthy (Js.opt_member (Js.opt_member (Js.opt_member (Some m) "body")
                                          "source") "path")) eqn:Ht.
    - destruct (path_ok_truthy _ Hpath Ht) as [s Hs].
      destruct (helper_total s) as [a Ha]. rewrite <-Hs in Ha.
      unfold when, bind, lift, mutate. rewrite Ha. cbn [message notifications].
      do 2 f_equal. apply at_field_ext_on. intros body Hbody.
      apply absolutize_source_assigned; unfold frame_path; by rewrite <-Hbody.
    - unfold when, ret. do 2 f_equal. symmetry. apply at_field_id. intros body Hbody.
      apply absolutize_source_skipped. unfold frame_path. by rewrite <-Hbody. }
  set (m2 := Js.at_field "body"
               (Js.at_field "stackFrames" (at_from 0 (absolutize_source helper))) m1).
  assert (match Js.opt_member (Js.opt_member (Some m1) "body") "stackFrames" with
          | Some (JArr frames) => forStackFrames helper 0 frames
          | _ => ret tt
          end (Tracked m1 shown) = (Normal tt, Tracked m2 shown)) as Hstep2.
  { pose proof (forStackFrames_absolutize (stack_frames m) Hframes Hpaths 0%nat m1 shown []
                  Hsf1 eq_refl) as Hloop.
    fold m2 in Hloop. revert Hloop. rewrite <-Hsf1. unfold stack_frames at 1.
    destruct (Js.opt_member (Js.opt_member (Some m1) "body") "stackFrames")
      as [[]|] eqn:Hx; try done. }
  assert (m2 = absolutize helper m) as Hm2.
  { subst m2 m1. unfold absolutize. rewrite at_field_compose. apply at_field_ext.
    intros body. apply at_field_ext. intros x. apply at_from_all. }
  assert (erase_inbound m2 = erase_inbound m) as Herase.
  { pose proof (forStackFrames_keeps helper 0 (stack_frames m) (Tracked m1 shown)) as Hk.
    rewrite (forStackFrames_absolutize (stack_frames m) Hframes Hpaths 0%nat m1 shown []
               Hsf1 eq_refl) in Hk.
    cbn [snd message] in Hk. fold m2 in Hk. by rewrite Hk. }
  assert (is_object m2 = true) as Hobj2 by by rewrite (erase_inbound_is_object _ _ Herase).
  rewrite <-Hm2. clearbody m1 m2. clear Hm2.
  unfold onDidSendMessage.
  destruct m as [| | | | |fields]; try done.
  destruct m1 as [| | | | |fields1]; try done.
  destruct m2 as [| | | | |fields2]; try done.
  unfold bind at 1. unfold getMessage at 1. cbn [message].
  unfold bind at 1. unfold member at 1. unfold ret at 1.
  unfold bind at 1. rewrite Hstep1.
  unfold bind at 1. unfold getMessage at 1. cbn [message].
  unfold bind at 1. unfold member at 1. unfold ret at 1.
  unfold bind at 1. rewrite Hstep2.
  unfold bind at 1. unfold getMessage at 1. cbn [message].
  unfold bind at 1. unfold member at 1. unfold ret at 1.
  unfold bind at 1. unfold member at 1. unfold ret at 1.
  rewrite (erase_inbound_member _ _ "type" ltac:(done) Herase).
  rewrite (erase_inbound_member _ _ "event" ltac:(done) Herase).
  destruct (strictEqualsString _ "event" && strictEqualsString _ "fatalError"); [|done].
  unfold when, bind, member, ret, showErrorMessage. cbn [message notifications].
  unfold fatal_error_text.
  by rewrite (erase_inbound_body_member _ _ "message" ltac:(done) ltac:(done) Herase).
Qed.

End Absolutize.

(** X7.  On every message whose path fields, where present, hold strings and whose
    stack frames are objects, and with a helper that returns on every string,
    the inbound callback is a map over the message: what it hands on is the
    message with [toAbsolutePath] applied to [body.source.path] and to the
    [source.path] of each stack frame, where that field is truthy, and with
    nothing else changed; on an object message it completes normally. *)
Theorem inbound_callback_is_a_map_over_path_fields
    (helper : option json → completion string) (m : json) :
  (∀ s, ∃ r, helper (Some (JStr s)) = Normal r) →
  well_formed_inbound m = true →
  forwarded (onDidSendMessage helper) m = absolutize helper m
  ∧ (is_object m = true → fst (onDidSendMessage helper (Tracked m [])) = Normal tt).
Proof.
  intros Htotal Hwf. destruct (is_object m) eqn:Hobj.
  - unfold forwarded. by rewrite (onDidSendMessage_absolutize helper Htotal m [] Hobj Hwf).
  - split; [|done]. rewrite onDidSendMessage_untouched; by destruct m.
Qed.

Lemma inbound_callback_is_a_map_over_path_fields_witness :
  forwarded (Current.onDidSendMessage (Some "/proj")) stack_trace_response
  = absolutize (Current.toAbsolutePath (Some "/proj")) stack_trace_response
  ∧ (is_object stack_trace_response = true →
     fst (Current.onDidSendMessage (Some "/proj") (Tracked stack_trace_response []))
     = Normal tt).
Proof.
  apply (inbound_callback_is_a_map_over_path_fields
           (Current.toAbsolutePath (Some "/proj")) stack_trace_response).
  - intros s. apply Current_toAbsolutePath_string.
  - reflexivity.
Defined.

(** ** Absolute paths inbound, relative paths outbound *)

Lemma isAbsolute_normalize p : Path.isAbsolute p = true → Path.isAbsolute (Path.normalize p) = true.
Proof.
  intros Habs. unfold Path.normalize.
  case_bool_decide as Hp; [by subst|]. rewrite Habs.
  by repeat case_bool_decide.
Qed.

Lemma isAbsolute_app p q : Path.isAbsolute p = true → Path.isAbsolute (p +:+ q) = true.
Proof. by destruct p. Qed.

Lemma isAbsolute_join root p :
  Path.isAbsolute root = true → Path.isAbsolute (Path.join root p) = true.
Proof.
  intros Habs. unfold Path.join.
  assert (root ≠ "") as Hroot by by destruct root.
  rewrite (bool_decide_eq_false_2 (root = "")) by done.
  assert (∀ joined, Path.isAbsolute joined = true →
            Path.isAbsolute (if bool_decide (joined = "") then "." else Path.normalize joined)
            = true) as Hjoined.
  { intros joined Hj. case_bool_decide; [by subst|by apply isAbsolute_normalize]. }
  destruct (bool_decide (p = "")); apply Hjoined; [done|by apply isAbsolute_app].
Qed.

Lemma isAbsolute_segments l :
  Forall (λ s, s ≠ "" ∧ slash_free s = true) l →
  Path.isAbsolute (Path.join_segments l) = false.
Proof.
  destruct l as [|x l]; [done|]. intros [Hne Hfree]%Forall_cons_1%proj1.
  destruct x as [|c x]; [done|].
  simpl in Hfree. apply andb_true_iff in Hfree as [Hc _].
  apply negb_true_iff in Hc.
  unfold Path.join_segments. by destruct l.
Qed.

Lemma segments_of_nonempty p :
  Forall (λ s, s ≠ "" ∧ slash_free s = true) (Path.segments_of p).
Proof.
  unfold Path.segments_of. apply Forall_forall.
  intros s [Hne Hin]%list_elem_of_filter. split; [done|].
  by apply (proj1 (Forall_forall _ _) (split_is_slash_free p)).
Qed.

(** [path.relative] never returns an absolute path. *)
Lemma relative_not_absolute cwd from to :
  Path.isAbsolute (Path.relative cwd from to) = false.
Proof.
  unfold Path.relative. case_bool_decide; [done|]. case_bool_decide; [done|].
  apply isAbsolute_segments, Forall_app. split.
  - apply Forall_forall. intros s ->%elem_of_replicate%proj1. done.
  - apply Forall_drop, segments_of_nonempty.
Qed.

Section Settles.
Variable helper : option json → completion string.
Hypothesis helper_total : ∀ s, ∃ r, helper (Some (JStr s)) = Normal r.
Hypothesis helper_absolute : ∀ v r, helper v = Normal r → Path.isAbsolute r = true.
Hypothesis helper_fixes : ∀ r, Path.isAbsolute r = true → helper (Some (JStr r)) = Normal r.

Lemma assign_idem v : assign helper (assign helper v) = assign helper v.
Proof.
  assert (∀ r, Path.isAbsolute r = true → assign helper (JStr r) = JStr r) as Hfix.
  { intros r Hr. unfold assign. rewrite (helper_fixes r Hr). by destruct r. }
  destruct (Js.truthy (Some v)) eqn:Ht.
  - destruct (helper (Some v)) as [r|e] eqn:Hr.
    + assert (assign helper v = JStr r) as -> by (unfold assign; by rewrite Ht, Hr).
      apply Hfix. by eapply helper_absolute.
    + assert (assign helper v = v) as Hv by (unfold assign; by rewrite Ht, Hr).
      by rewrite !Hv.
  - assert (assign helper v = v) as Hv by (unfold assign; by rewrite Ht).
    by rewrite !Hv.
Qed.

Lemma assign_path_ok v :
  path_ok (Some v) = true →
  path_ok (Some (assign helper v)) = true
  ∧ (Js.truthy (Some (assign helper v)) = true → absolute_path (Some (assign helper v))).
Proof.
  intros Hok. unfold assign. destruct (Js.truthy (Some v)) eqn:Ht.
  - destruct (path_ok_truthy _ Hok Ht) as [s [= ->]].
    destruct (helper_total s) as [r Hr]. rewrite Hr. split; [done|].
    intros _. exists r. split; [done|]. by eapply helper_absolute.
  - split; [done|]. by rewrite Ht.
Qed.

Lemma absolutize_source_idem x :
  absolutize_source helper (absolutize_source helper x) = absolutize_source helper x.
Proof.
  unfold absolutize_source. rewrite at_field_compose. apply at_field_ext. intros source.
  rewrite at_field_compose. apply at_field_ext. intros v. apply assign_idem.
Qed.

Lemma absolutize_idem m : absolutize helper (absolutize helper m) = absolutize helper m.
Proof.
  unfold absolutize. rewrite at_field_compose. apply at_field_ext. intros body.
  unfold absolutize_source at 2.
  rewrite (at_field_comm "source" "stackFrames") by done.
  fold (absolutize_source helper). rewrite absolutize_source_idem.
  rewrite at_field_compose. apply at_field_ext. intros frames.
  destruct frames as [| | | |elems|]; try done. simpl. f_equal.
  rewrite map_map. apply map_ext. intros frame. apply absolutize_source_idem.
Qed.

Lemma frame_path_absolutize_source frame :
  frame_path (absolutize_source helper frame) = assign helper <$> frame_path frame.
Proof.
  unfold frame_path, absolutize_source. rewrite opt_member_at_field_eq.
  destruct (Js.opt_member (Some frame) "source") as [source|]; [|done].
  change (Js.at_field "path" (assign helper) <$> Some source)
    with (Some (Js.at_field "path" (assign helper) source)).
  by rewrite opt_member_at_field_eq.
Qed.

Lemma stack_frames_absolutize m :
  stack_frames (absolutize helper m) = map (absolutize_source helper) (stack_frames m).
Proof.
  unfold stack_frames, absolutize. rewrite opt_member_at_field_eq.
  destruct (Js.opt_member (Some m) "body") as [body|]; [|done].
  cbn [fmap option_fmap option_map]. rewrite opt_member_at_field_eq.
  unfold absolutize_source at 2. rewrite opt_member_at_field_ne by done.
  by destruct (Js.opt_member (Some body) "stackFrames") as [[]|].
Qed.

Lemma inbound_paths_absolutize m :
  inbound_paths (absolutize helper m) = map (fmap (assign helper)) (inbound_paths m).
Proof.
  unfold inbound_paths. rewrite stack_frames_absolutize. cbn [map]. f_equal.
  - unfold absolutize. rewrite opt_member_at_field_eq.
    destruct (Js.opt_member (Some m) "body") as [body|]; [|done].
    cbn [fmap option_fmap option_map]. rewrite opt_member_at_field_ne by done.
    apply (frame_path_absolutize_source body).
  - rewrite !map_map. apply map_ext. intros frame. apply frame_path_absolutize_source.
Qed.

Lemma well_formed_absolutize m :
  well_formed_inbound m = true →
  well_formed_inbound (absolutize helper m) = true
  ∧ Forall (λ v, Js.truthy v = true → absolute_path v) (inbound_paths (absolutize helper m)).
Proof.
  unfold well_formed_inbound. intros [Hpaths Hframes]%andb_true_iff.
  rewrite inbound_paths_absolutize, stack_frames_absolutize.
  rewrite forallb_forall in Hpaths.
  assert (∀ v, v ∈ inbound_paths m →
            path_ok (assign helper <$> v) = true
            ∧ (Js.truthy (assign helper <$> v) = true → absolute_path (assign helper <$> v)))
    as Hv.
  { intros [v|] Hin; [|done]. apply assign_path_ok, Hpaths. by apply list_elem_of_In. }
  split.
  - apply andb_true_iff. split.
    + apply forallb_forall. intros v' [v [<- Hin]]%in_map_iff.
      apply Hv. by apply list_elem_of_In.
    + rewrite forallb_forall in Hframes. apply forallb_forall.
      intros frame' [frame [<- Hin]]%in_map_iff.
      specialize (Hframes frame Hin). by destruct frame.
  - apply Forall_forall. intros v' [v [-> Hin]]%list_elem_of_fmap. by apply Hv.
Qed.

Lemma inbound_settles m :
  well_formed_inbound m = true →
  Forall (λ v, Js.truthy v = true → absolute_path v)
    (inbound_paths (forwarded (onDidSendMessage helper) m))
  ∧ forwarded (onDidSendMessage helper) (forwarded (onDidSendMessage helper) m)
    = forwarded (onDidSendMessage helper) m.
Proof.
  intros Hwf. destruct (well_formed_absolutize m Hwf) as [Hwf' Habs].
  assert (∀ m, well_formed_inbound m = true →
            forwarded (onDidSendMessage helper) m = absolutize helper m) as Hmap.
  { intros m0 Hwf0. destruct (is_object m0) eqn:Hobj.
    - unfold forwarded. by rewrite (onDidSendMessage_absolutize helper helper_total m0 [] Hobj Hwf0).
    - rewrite onDidSendMessage_untouched; by destruct m0. }
  rewrite (Hmap m Hwf). split; [done|].
  rewrite (Hmap _ Hwf'). apply absolutize_idem.
Qed.

End Settles.

(** X8.  With an absolute source folder the inbound rewriting settles: after the
    callback every truthy path field of the message ([body.source.path] and
    the [source.path] of each stack frame) holds an absolute path, and running
    the callback on its own result changes nothing more.  This holds for the
    current and for the earlier revision, on messages whose path fields hold
    strings and whose stack frames are objects. *)
Theorem inbound_paths_become_absolute_and_stay
    (callback : M unit) (root : string) (m : json) :
  callback = Current.onDidSendMessage (Some root)
  ∨ callback = Earlier.onDidSendMessage root →
  Path.isAbsolute root = true →
  well_formed_inbound m = true →
  Forall (λ v, Js.truthy v = true → absolute_path v) (inbound_paths (forwarded callback m))
  ∧ forwarded callback (forwarded callback m) = forwarded callback m.
Proof.
  intros Hcallback Hroot Hwf.
  destruct Hcallback as [->| ->].
  - apply (inbound_settles (Current.toAbsolutePath (Some root))); [| | |done].
    + apply Current_toAbsolutePath_string.
    + intros [[]|] r; try discriminate. unfold Current.toAbsolutePath.
      destruct (Path.isAbsolute s) eqn:Hs; simpl; intros [= <-]; [done|].
      by apply isAbsolute_join.
    + intros r Hr. unfold Current.toAbsolutePath. by rewrite Hr.
  - apply (inbound_settles (Earlier.toAbsolutePath root)); [| | |done].
    + apply Earlier_toAbsolutePath_string.
    + intros [[]|] r; try discriminate. unfold Earlier.toAbsolutePath.
      destruct (Path.isAbsolute s) eqn:Hs; simpl; intros [= <-]; [done|].
      by apply isAbsolute_join.
    + intros r Hr. unfold Earlier.toAbsolutePath. by rewrite Hr.
Qed.

Lemma inbound_paths_become_absolute_and_stay_witness :
  Forall (λ v, Js.truthy v = true → absolute_path v)
    (inbound_paths (forwarded (Current.onDidSendMessage (Some "/proj")) stack_trace_response))
  ∧ forwarded (Current.onDidSendMessage (Some "/proj"))
      (forwarded (Current.onDidSendMessage (Some "/proj")) stack_trace_response)
    = forwarded (Current.onDidSendMessage (Some "/proj")) stack_trace_response.
Proof.
  apply (inbound_paths_become_absolute_and_stay
           (Current.onDidSendMessage (Some "/proj")) "/proj" stack_trace_response).
  - by left.
  - reflexivity.
  - reflexivity.
Defined.

(** X9.  In the current revision a breakpoint request never leaves with an
    absolute path: for a [setBreakpoints] request whose
    [arguments.source.path] is a non-empty string and with a source folder
    given, the path handed on is [path.relative(sourceFolder, path)], which is
    not absolute, whether the file lies under the source folder or not. *)
Theorem breakpoint_paths_leave_relative (cwd root : string) (m : json) (p : string) :
  Js.opt_member (Some m) "command" = Some (JStr "setBreakpoints") →
  breakpoint_path m = Some (JStr p) →
  p ≠ "" →
  breakpoint_path (forwarded (Current.onWillReceiveMessage cwd (Some root)) m)
  = Some (JStr (Path.relative cwd root p))
  ∧ Path.isAbsolute (Path.relative cwd root p) = false.
Proof.
  intros Hcommand Hpath Hp. split; [|apply relative_not_absolute].
  unfold breakpoint_path in *.
  unfold forwarded, Current.onWillReceiveMessage, onWillReceiveMessage.
  destruct m as [| | | | |fields]; try done.
  unfold_monad. cbn [message]. rewrite Hcommand, Hpath.
  cbn [strictEqualsString Js.truthy]. rewrite bool_decide_eq_true_2 by done.
  rewrite bool_decide_eq_false_2 by done.
  cbn [andb negb Current.toRelativePath snd message].
  rewrite opt_member_at_field_eq.
  destruct (Js.opt_member (Some (JObj fields)) "arguments") as [arguments|]; [|done].
  cbn [fmap option_fmap option_map]. rewrite opt_member_at_field_eq.
  destruct (Js.opt_member (Some arguments) "source") as [source|]; [|done].
  cbn [fmap option_fmap option_map]. rewrite opt_member_at_field_eq.
  by rewrite Hpath.
Qed.

Lemma breakpoint_paths_leave_relative_witness :
  breakpoint_path (forwarded (Current.onWillReceiveMessage "/" (Some "/home/u/proj"))
                     set_breakpoints_request)
  = Some (JStr (Path.relative "/" "/home/u/proj" "/tmp/x.py"))
  ∧ Path.isAbsolute (Path.relative "/" "/home/u/proj" "/tmp/x.py") = false.
Proof.
  apply (breakpoint_paths_leave_relative "/" "/home/u/proj" set_breakpoints_request "/tmp/x.py").
  - reflexivity.
  - reflexivity.
  - discriminate.
Defined.

(** X10.  When the path helper throws on [body.source.path] (a truthy value that
    is not a string, or a relative path while no source folder is known), the
    inbound callback ends there with that exception: the message is handed on
    as it came, no stack frame is rewritten and no notification is shown, also
    when the message is a [fatalError] event. *)
Theorem failed_rewrite_suppresses_the_notification
    (helper : option json → completion string) (m : json) (shown : list string)
    (error : string) :
  let path := Js.opt_member (Js.opt_member (Js.opt_member (Some m) "body") "source") "path" in
  Js.truthy path = true →
  helper path = Throw error →
  onDidSendMessage helper (Tracked m shown) = (Throw error, Tracked m shown).
Proof.
  intros path Ht Hthrow. subst path. unfold onDidSendMessage.
  destruct m as [| | | | |fields]; try done.
  unfold bind at 1. unfold getMessage at 1. cbn [message].
  unfold bind at 1. unfold member at 1. unfold ret at 1.
  unfold bind at 1. rewrite Ht. unfold when, bind, lift. by rewrite Hthrow.
Qed.

Lemma failed_rewrite_suppresses_the_notification_witness :
  Current.onDidSendMessage None (Tracked fatal_error_in_file [])
  = (Throw "TypeError [ERR_INVALID_ARG_TYPE]", Tracked fatal_error_in_file []).
Proof.
  apply (failed_rewrite_suppresses_the_notification (Current.toAbsolutePath None)
           fatal_error_in_file [] "TypeError [ERR_INVALID_ARG_TYPE]").
  - reflexivity.
  - reflexivity.
Defined.

(** ** The layout of a rendering *)

Lemma pushOption_keys colour option backgrounds :
  (Profiler.pushOption colour option backgrounds).*1
  = if decide (colour ∈ backgrounds.*1) then backgrounds.*1 else backgrounds.*1 ++ [colour].
Proof.
  induction backgrounds as [|[c options] backgrounds IH]; [done|].
  cbn [Profiler.pushOption]. case_bool_decide as Hc.
  - subst. cbn [fmap list_fmap fst]. by rewrite decide_True by apply list_elem_of_here.
  - cbn [fmap list_fmap fst] in IH |- *. rewrite IH.
    destruct (decide (colour ∈ backgrounds.*1)) as [Hin|Hin].
    + by rewrite decide_True by by apply list_elem_of_further.
    + rewrite decide_False; [done|]. by intros [?|?]%elem_of_cons.
Qed.

Lemma pushOption_length colour option backgrounds :
  length (concat (Profiler.pushOption colour option backgrounds).*2)
  = S (length (concat backgrounds.*2)).
Proof.
  induction backgrounds as [|[c options] backgrounds IH]; [done|].
  cbn [Profiler.pushOption]. case_bool_decide.
  - cbn [fmap list_fmap snd concat]. rewrite !length_app. simpl. lia.
  - cbn [fmap list_fmap snd concat] in IH |- *. rewrite !length_app, IH. lia.
Qed.

Lemma pushOption_NoDup colour option backgrounds :
  NoDup backgrounds.*1 → NoDup (Profiler.pushOption colour option backgrounds).*1.
Proof.
  intros Hnd. rewrite pushOption_keys. case_decide as Hin; [done|].
  apply NoDup_app. split_and!; [done| |apply NoDup_singleton].
  by intros x Hx ->%list_elem_of_singleton.
Qed.

Lemma filter_only {A} `{EqDecision A} (i : A) (l : list A) :
  NoDup l → filter (λ j, j = i) l = if decide (i ∈ l) then [i] else [].
Proof.
  induction 1 as [|x l Hx _ IH]; [done|].
  destruct (decide (x = i)) as [->|Hne].
  - rewrite filter_cons_True by done. rewrite decide_True by apply list_elem_of_here.
    rewrite IH. by rewrite decide_False.
  - rewrite filter_cons_False by done. rewrite IH.
    destruct (decide (i ∈ l)) as [Hin|Hin].
    + by rewrite decide_True by by apply list_elem_of_further.
    + rewrite decide_False; [done|]. intros [?|?]%elem_of_cons; by subst.
Qed.

Lemma records_at_nil records i : records_at records i = [] ↔ i ∉ covered_by records.
Proof.
  unfold records_at, covered_by. induction records as [|r records IH]; simpl.
  { split; [intros _; apply not_elem_of_nil|done]. }
  destruct (decide (r.1.1 = i + 1)) as [Hr|Hr].
  - rewrite filter_cons_True by done. split; [done|].
    intros Hnot. destruct Hnot. apply elem_of_cons. left. lia.
  - rewrite filter_cons_False by done. rewrite IH. rewrite not_elem_of_cons.
    split; [|by intros [_ ?]]. intros Hnot. split; [lia|done].
Qed.

Section Layout.
Variable clocksPerSec : Q.
Variable blockLevels : gmap Z Profiler.LineInfo.
Variable blockTimes : gmap (option Z) Z.

Lemma decorateRecord_exact acc (record : Profiler.ProfileRecord) :
  1 ≤ record.1.1 →
  Profiler.decorateRecord clocksPerSec blockLevels blockTimes acc record
  = Normal {|
      Profiler.colorToOptions :=
        pushRecord clocksPerSec blockLevels blockTimes (Profiler.colorToOptions acc) record;
      Profiler.prefixOptions :=
        Profiler.prefixOptions acc ++ [prefixOfRecord blockLevels blockTimes record];
      Profiler.coveredLines := {[ record.1.1 - 1 ]} ∪ Profiler.coveredLines acc |}.
Proof.
  destruct record as [[line hits] time]. simpl. intros Hline.
  unfold Profiler.decorateRecord, Profiler.createLineDecoration,
    Profiler.createPrefixDecoration.
  by rewrite Range_nonneg by lia.
Qed.

Lemma forRecords_exact (records : list Profiler.ProfileRecord) acc :
  Forall (λ r, 1 ≤ r.1.1) records →
  Profiler.forRecords clocksPerSec blockLevels blockTimes records acc
  = Normal {|
      Profiler.colorToOptions :=
        fold_left (pushRecord clocksPerSec blockLevels blockTimes) records
          (Profiler.colorToOptions acc);
      Profiler.prefixOptions :=
        Profiler.prefixOptions acc ++ map (prefixOfRecord blockLevels blockTimes) records;
      Profiler.coveredLines := list_to_set (covered_by records) ∪ Profiler.coveredLines acc |}.
Proof.
  intros Hlines. revert acc.
  induction Hlines as [|record records Hline _ IH]; intros acc; cbn [Profiler.forRecords].
  { destruct acc. simpl. rewrite app_nil_r. do 2 f_equal.
    by rewrite (left_id_L ∅ (∪)). }
  rewrite decorateRecord_exact by done. rewrite IH.
  cbn [Profiler.colorToOptions Profiler.prefixOptions Profiler.coveredLines fold_left].
  do 2 f_equal; [by rewrite <-(assoc_L (++))|].
  unfold covered_by. cbn [map]. rewrite list_to_set_cons.
  rewrite (comm_L (∪) {[record.1.1 - 1]} (list_to_set _)).
  by rewrite (assoc_L (∪)).
Qed.

Lemma padUncovered_exact (covered : gset Z) lines prefix :
  Forall (λ i, 0 ≤ i) lines →
  Profiler.padUncovered covered lines prefix
  = Normal (prefix ++ map Profiler.paddingDecoration (filter (λ i, i ∉ covered) lines)).
Proof.
  intros Hlines. revert prefix.
  induction Hlines as [|i lines Hi _ IH]; intros prefix; cbn [Profiler.padUncovered].
  { by rewrite app_nil_r. }
  case_bool_decide.
  - rewrite filter_cons_False by by intros ?. apply IH.
  - rewrite filter_cons_True by done.
    unfold Profiler.createPaddingDecoration. rewrite Range_nonneg by done.
    rewrite IH. by rewrite <-(assoc_L (++)).
Qed.

Lemma gutter_of_records (records : list Profiler.ProfileRecord) i :
  filter (λ d, Profiler.range d = i) (map (prefixOfRecord blockLevels blockTimes) records)
  = map (prefixOfRecord blockLevels blockTimes) (records_at records i).
Proof.
  unfold records_at. induction records as [|r records IH]; [done|]. cbn [map].
  destruct (decide (r.1.1 = i + 1)) as [Hr|Hr].
  - rewrite (filter_cons_True (λ r : Profiler.ProfileRecord, r.1.1 = i + 1)) by done.
    rewrite filter_cons_True by (simpl; lia). cbn [map]. by rewrite IH.
  - rewrite (filter_cons_False (λ r : Profiler.ProfileRecord, r.1.1 = i + 1)) by done.
    rewrite filter_cons_False by (simpl; lia). apply IH.
Qed.

End Layout.

Lemma gutter_of_padding (lines : list Z) i :
  filter (λ d, Profiler.range d = i) (map Profiler.paddingDecoration lines)
  = map Profiler.paddingDecoration (filter (λ j, j = i) lines).
Proof.
  induction lines as [|j lines IH]; [done|]. cbn [map].
  destruct (decide (j = i)) as [Hj|Hj].
  - rewrite (filter_cons_True (λ j, j = i)) by done.
    rewrite filter_cons_True by done. cbn [map]. by rewrite IH.
  - rewrite (filter_cons_False (λ j, j = i)) by done.
    rewrite filter_cons_False by done. apply IH.
Qed.

Lemma decorate_exact clocksPerSec blockLevels (records : list Profiler.ProfileRecord)
    totalLines :
  Forall (λ r, 1 ≤ r.1.1) records →
  let blockTimes := Profiler.sumBlockTimes blockLevels records in
  Profiler.decorate clocksPerSec blockLevels records totalLines
  = Normal {|
      Profiler.backgrounds :=
        fold_left (pushRecord clocksPerSec blockLevels blockTimes) records [];
      Profiler.prefixes :=
        map (prefixOfRecord blockLevels blockTimes) records
        ++ map Profiler.paddingDecoration
             (filter (λ i, i ∉ covered_by records) (seqZ 0 totalLines)) |}.
Proof.
  intros Hlines blockTimes. unfold Profiler.decorate. fold blockTimes.
  rewrite forRecords_exact by done.
  cbn [Profiler.coveredLines Profiler.prefixOptions Profiler.colorToOptions].
  rewrite padUncovered_exact by apply seqZ_nonneg. cbn [app].
  do 4 f_equal. apply list_filter_iff. intros i.
  by rewrite (right_id_L ∅ (∪)), elem_of_list_to_set.
Qed.

(** X12.  Every line of the document has its gutter entries, and nothing else: a
    line some record names carries the labels of its records, in their order,
    and a line no record names carries exactly one empty padding entry, so
    that the text of all lines stays aligned. *)
Theorem every_line_has_its_gutter_entries
    (clocksPerSec : Q) (blockLevels : gmap Z Profiler.LineInfo)
    (records : list Profiler.ProfileRecord) (totalLines : Z) :
  Forall (λ r, 1 ≤ r.1.1) records →
  ∃ shown,
    Profiler.decorate clocksPerSec blockLevels records totalLines = Normal shown
    ∧ ∀ i, 0 ≤ i < totalLines →
        gutter_at shown i
        = match records_at records i with
          | [] => [Profiler.paddingDecoration i]
          | here =>
              map (prefixOfRecord blockLevels (Profiler.sumBlockTimes blockLevels records))
                here
          end.
Proof.
  intros Hlines. eexists. split; [by apply decorate_exact|].
  intros i Hi. unfold gutter_at. cbn [Profiler.prefixes].
  rewrite filter_app, gutter_of_records, gutter_of_padding.
  rewrite filter_only by apply NoDup_filter, NoDup_seqZ.
  destruct (records_at records i) as [|r here] eqn:Hhere.
  - rewrite decide_True; [done|]. apply list_elem_of_filter. split.
    + by apply records_at_nil.
    + apply elem_of_seqZ. lia.
  - rewrite decide_False; [by rewrite app_nil_r|].
    intros [Hnot _]%list_elem_of_filter. apply records_at_nil in Hnot. congruence.
Qed.

Lemma every_line_has_its_gutter_entries_witness :
  ∃ shown,
    Profiler.decorate 1000000 ∅ [(1, 10, 100); (3, 5, 50); (3, 1, 50)] 4 = Normal shown
    ∧ ∀ i, 0 ≤ i < 4 →
        gutter_at shown i
        = match records_at [(1, 10, 100); (3, 5, 50); (3, 1, 50)] i with
          | [] => [Profiler.paddingDecoration i]
          | here =>
              map (prefixOfRecord ∅
                     (Profiler.sumBlockTimes ∅ [(1, 10, 100); (3, 5, 50); (3, 1, 50)]))
                here
          end.
Proof.
  apply (every_line_has_its_gutter_entries 1000000 ∅ [(1, 10, 100); (3, 5, 50); (3, 1, 50)] 4).
  repeat constructor; simpl; lia.
Defined.

(** ** Background tints *)

Lemma hundredths_tint (q : Q) :
  (0 <= q <= 1)%Q → 0 ≤ Profiler.hundredths (q * (8 # 10)) ≤ 80.
Proof.
  intros [Hlo Hhi]. unfold Profiler.hundredths.
  assert (0 <= q * (8 # 10))%Q as Hnonneg by by apply Qmult_le_0_compat.
  rewrite (proj2 (Qle_bool_iff _ _) Hnonneg). unfold Profiler.round. split.
  - change 0 with (Qfloor (inject_Z 0)). apply Qfloor_resp_le.
    apply Qle_trans with (0 * 100 + 0)%Q; [done|].
    apply Qplus_le_compat; [|done]. by apply Qmult_le_compat_r.
  - change 80 with (Qfloor (1 * (8 # 10) * 100 + (1 # 2))%Q). apply Qfloor_resp_le.
    apply Qplus_le_compat; [|apply Qle_refl].
    apply Qmult_le_compat_r; [|done]. by apply Qmult_le_compat_r.
Qed.

Lemma colourOfRecord_tint blockLevels (records : list Profiler.ProfileRecord) record :
  Forall (λ r, 0 ≤ r.2) records → record ∈ records →
  colourOfRecord blockLevels (Profiler.sumBlockTimes blockLevels records) record ∈ tints.
Proof.
  intros Htimes Hin. unfold colourOfRecord.
  rewrite sumBlockTimes_lookup by done.
  pose proof (scopeTotal_bounds blockLevels records record Htimes Hin) as Hbounds.
  destruct (ratioOf_in_scope record.2 _ Hbounds) as (q & -> & Hq).
  pose proof (ratio_in_scope_bounds _ _ Hbounds) as Hratio. rewrite <-Hq in Hratio.
  unfold Profiler.generateBackgroundColor, tints.
  apply list_elem_of_fmap. exists (Profiler.hundredths (q * (8 # 10))).
  split; [done|]. apply elem_of_seqZ. pose proof (hundredths_tint q Hratio). lia.
Qed.

Lemma fold_pushRecord clocksPerSec blockLevels blockTimes (allowed : list string)
    (records : list Profiler.ProfileRecord) backgrounds :
  (∀ record, record ∈ records → colourOfRecord blockLevels blockTimes record ∈ allowed) →
  NoDup backgrounds.*1 →
  (∀ colour, colour ∈ backgrounds.*1 → colour ∈ allowed) →
  let result := fold_left (pushRecord clocksPerSec blockLevels blockTimes) records backgrounds in
  NoDup result.*1
  ∧ (∀ colour, colour ∈ result.*1 → colour ∈ allowed)
  ∧ length (concat result.*2) = (length (concat backgrounds.*2) + length records)%nat.
Proof.
  revert backgrounds. induction records as [|record records IH];
    intros backgrounds Hcolours Hnd Hallowed; cbn [fold_left].
  { cbn zeta. split_and!; [done..|simpl; lia]. }
  destruct (IH (pushRecord clocksPerSec blockLevels blockTimes backgrounds record))
    as (Hnd' & Hallowed' & Hlen).
  - intros r Hr. apply Hcolours. by apply list_elem_of_further.
  - by apply pushOption_NoDup.
  - intros colour. unfold pushRecord. rewrite pushOption_keys.
    case_decide; [apply Hallowed|].
    intros [?| ->%list_elem_of_singleton]%elem_of_app; [by apply Hallowed|].
    apply Hcolours, list_elem_of_here.
  - cbn zeta. split_and!; [done..|].
    rewrite Hlen. unfold pushRecord. rewrite pushOption_length. simpl. lia.
Qed.

(** X13.  The number of background decoration types a rendering asks for does not
    grow with the profile: the records are grouped by tint, every tint is one
    of the 81 values [hsla(210, 60%, 65%, a)] with [a] from 0 to 0.8 in
    hundredths, no tint is listed twice, and every record has exactly one
    background decoration in the group of its tint. *)
Theorem background_tints_are_bounded
    (clocksPerSec : Q) (blockLevels : gmap Z Profiler.LineInfo)
    (records : list Profiler.ProfileRecord) (totalLines : Z) :
  Forall (λ r, 1 ≤ r.1.1 ∧ 0 ≤ r.2) records →
  ∃ shown,
    Profiler.decorate clocksPerSec blockLevels records totalLines = Normal shown
    ∧ NoDup (Profiler.backgrounds shown).*1
    ∧ (∀ colour, colour ∈ (Profiler.backgrounds shown).*1 → colour ∈ tints)
    ∧ (length (Profiler.backgrounds shown) ≤ 81)%nat
    ∧ length (all_backgrounds shown) = length records.
Proof.
  intros Hrecords.
  pose proof (Forall_and_l _ _ _ Hrecords) as Hlines.
  pose proof (Forall_and_r _ _ _ Hrecords) as Htimes.
  eexists. split; [by apply decorate_exact|].
  unfold all_backgrounds. cbn [Profiler.backgrounds].
  destruct (fold_pushRecord clocksPerSec blockLevels
              (Profiler.sumBlockTimes blockLevels records) tints records [])
    as (Hnd & Hallowed & Hlen).
  - intros record Hin. by apply colourOfRecord_tint.
  - apply NoDup_nil_2.
  - intros colour Hin. by apply elem_of_nil in Hin.
  - split_and!; [done..| |done].
    rewrite <-(length_fmap fst).
    etrans; [apply submseteq_length, NoDup_submseteq; [exact Hnd|exact Hallowed]|].
    unfold tints. by rewrite length_fmap, length_seqZ.
Qed.

Lemma background_tints_are_bounded_witness :
  ∃ shown,
    Profiler.decorate 1000000 ∅ hot_loop_records 6 = Normal shown
    ∧ NoDup (Profiler.backgrounds shown).*1
    ∧ (∀ colour, colour ∈ (Profiler.backgrounds shown).*1 → colour ∈ tints)
    ∧ (length (Profiler.backgrounds shown) ≤ 81)%nat
    ∧ length (all_backgrounds shown) = length hot_loop_records.
Proof.
  apply (background_tints_are_bounded 1000000 ∅ hot_loop_records 6).
  repeat constructor; simpl; lia.
Defined.

(** ** Gutter labels *)

Lemma label_width (n : Z) :
  0 ≤ n ≤ 100 → String.length (Profiler.padStart 3 (pretty n) +:+ "%") = 4%nat.
Proof.
  intros Hn.
  assert (forallb (λ n, String.length (Profiler.padStart 3 (pretty n) +:+ "%") =? 4)%nat
            (seqZ 0 101) = true) as Hall by (vm_compute; reflexivity).
  rewrite forallb_forall in Hall. apply Nat.eqb_eq, Hall, list_elem_of_In, elem_of_seqZ. lia.
Qed.

(** X14.  The gutter label of every record is exactly four characters wide: the
    percentage, which lies between 0 and 100, right-aligned in three
    characters, and the percent sign. *)
Theorem gutter_labels_are_four_wide
    (clocksPerSec : Q) (blockLevels : gmap Z Profiler.LineInfo)
    (records : list Profiler.ProfileRecord) (totalLines : Z) :
  Forall (λ r, 1 ≤ r.1.1 ∧ 0 ≤ r.2) records →
  ∃ shown,
    Profiler.decorate clocksPerSec blockLevels records totalLines = Normal shown
    ∧ ∀ i record, records !! i = Some record →
        ∃ entry attachment,
          Profiler.prefixes shown !! i = Some entry
          ∧ Profiler.range entry = record.1.1 - 1
          ∧ Profiler.before entry = Some attachment
          ∧ String.length (Profiler.contentText attachment) = 4%nat.
Proof.
  intros Hrecords.
  pose proof (Forall_and_l _ _ _ Hrecords) as Hlines.
  pose proof (Forall_and_r _ _ _ Hrecords) as Htimes.
  eexists. split; [by apply decorate_exact|].
  intros i record Hi. cbn [Profiler.prefixes].
  pose proof (list_elem_of_lookup_2 _ _ _ Hi) as Hin.
  exists (prefixOfRecord blockLevels (Profiler.sumBlockTimes blockLevels records) record).
  unfold prefixOfRecord.
  rewrite (percentOfRecord_in_scope blockLevels records record Htimes Hin).
  eexists. split_and!; [|done..|].
  - rewrite lookup_app_l by (rewrite length_map; by eapply lookup_lt_Some).
    rewrite list_lookup_fmap. unfold Profiler.ProfileRecord in *. rewrite Hi.
    cbn [fmap option_fmap option_map]. unfold prefixOfRecord.
    by rewrite (percentOfRecord_in_scope blockLevels records record Htimes Hin).
  - cbn [Profiler.prefixDecoration Profiler.before Profiler.contentText Profiler.String_].
    apply label_width, percent_bounds, ratio_in_scope_bounds.
    by apply scopeTotal_bounds.
Qed.

Lemma gutter_labels_are_four_wide_witness :
  ∃ shown,
    Profiler.decorate 1000000 ∅ hot_loop_records 6 = Normal shown
    ∧ ∀ i record, hot_loop_records !! i = Some record →
        ∃ entry attachment,
          Profiler.prefixes shown !! i = Some entry
          ∧ Profiler.range entry = record.1.1 - 1
          ∧ Profiler.before entry = Some attachment
          ∧ String.length (Profiler.contentText attachment) = 4%nat.
Proof.
  apply (gutter_labels_are_four_wide 1000000 ∅ hot_loop_records 6).
  repeat constructor; simpl; lia.
Defined.

(** ** The line map: cache and failure *)

(** X17.  The line map of a document is computed once.  After a call of
    [mapLinesToBlocks] has returned, every further call for an editor on the
    same document returns that same map and leaves the cache as it is,
    whatever the text of the document and its fold ranges have become. *)
Theorem line_map_is_computed_once
    (editorToColors cache : gmap string (gmap Z Profiler.LineInfo))
    (editor editor' : Profiler.TextEditor)
    (foldRanges foldRanges' : option (list Profiler.FoldingRange))
    (lineMap : gmap Z Profiler.LineInfo) :
  Profiler.mapLinesToBlocks editorToColors editor foldRanges = Normal (lineMap, cache) →
  Profiler.uri editor' = Profiler.uri editor →
  Profiler.mapLinesToBlocks cache editor' foldRanges' = Normal (lineMap, cache).
Proof.
  unfold Profiler.mapLinesToBlocks. intros Hfirst ->.
  destruct (editorToColors !! Profiler.uri editor) as [cached|] eqn:Hcached.
  - injection Hfirst as <- <-. by rewrite Hcached.
  - destruct (Profiler.forFoldRanges editor (default [] foldRanges)
                (Profiler.initialBlocks editor)) as [st|e]; [|done].
    injection Hfirst as <- <-. by rewrite lookup_insert_eq.
Qed.

Lemma line_map_is_computed_once_witness :
  ∃ lineMap cache,
    Profiler.mapLinesToBlocks ∅ twelve_lines (Some nested_folds) = Normal (lineMap, cache)
    ∧ Profiler.mapLinesToBlocks cache
        {| Profiler.uri := "file:///proj/a.py"; Profiler.fsPath := "/proj/a.py";
           Profiler.languageId := "python"; Profiler.lines := ["pass"] |}
        None
      = Normal (lineMap, cache).
Proof.
  eexists _, _. split; [reflexivity|].
  apply (line_map_is_computed_once ∅ _ twelve_lines _ (Some nested_folds) None).
  - reflexivity.
  - reflexivity.
Defined.

Lemma lineAt_Normal editor n text :
  Profiler.lineAt editor n = Normal text → 0 ≤ n < Profiler.lineCount editor.
Proof.
  unfold Profiler.lineAt.
  by destruct (Z.leb_spec 0 n), (Z.ltb_spec n (Profiler.lineCount editor)).
Qed.

Lemma forFoldRanges_Normal editor foldRanges st st' :
  Profiler.forFoldRanges editor foldRanges st = Normal st' →
  Forall (λ fr, 0 ≤ Profiler.start fr < Profiler.lineCount editor) foldRanges.
Proof.
  revert st. induction foldRanges as [|fr foldRanges IH]; intros st; [by constructor|].
  cbn [Profiler.forFoldRanges]. unfold Profiler.isFunctionFold.
  destruct (Profiler.lineAt editor (Profiler.start fr)) as [text|e] eqn:Hline; [|done].
  apply lineAt_Normal in Hline.
  destruct (String.prefix "def " (Profiler.trimStart text)); intros Hrest;
    constructor; eauto.
Qed.

(** X18.  Building the line map succeeds exactly when every fold range, whether it
    starts a function or not, begins on a line of the document: a fold range
    that begins outside makes [lineAt] throw, and nothing is cached then.
    Where a fold range ends is not checked. *)
Theorem line_map_needs_fold_starts_in_document
    (editorToColors : gmap string (gmap Z Profiler.LineInfo))
    (editor : Profiler.TextEditor) (foldRanges : list Profiler.FoldingRange) :
  editorToColors !! Profiler.uri editor = None →
  (∃ result,
     Profiler.mapLinesToBlocks editorToColors editor (Some foldRanges) = Normal result)
  ↔ Forall (λ fr, 0 ≤ Profiler.start fr < Profiler.lineCount editor) foldRanges.
Proof.
  intros Hmiss. unfold Profiler.mapLinesToBlocks. rewrite Hmiss.
  change (default [] (Some foldRanges)) with foldRanges. split.
  - intros [result Hrun].
    destruct (Profiler.forFoldRanges editor foldRanges (Profiler.initialBlocks editor))
      as [st|e] eqn:Hloop; [|done].
    by eapply forFoldRanges_Normal.
  - intros Hstarts. rewrite forFoldRanges_enterBlocks by done. eauto.
Qed.

Lemma line_map_needs_fold_starts_in_document_witness :
  (∃ result,
     Profiler.mapLinesToBlocks ∅ three_lines
       (Some [{| Profiler.start := 1; Profiler.end_ := 40 |}]) = Normal result)
  ↔ Forall (λ fr, 0 ≤ Profiler.start fr < Profiler.lineCount three_lines)
      [{| Profiler.start := 1; Profiler.end_ := 40 |}].
Proof.
  apply (line_map_needs_fold_starts_in_document ∅ three_lines
           [{| Profiler.start := 1; Profiler.end_ := 40 |}]).
  reflexivity.
Defined.

(** ** A file without functions *)

Lemma blockInfoOf_sentinel (lineCount line : Z) :
  Profiler.blockInfoOf
    {[ lineCount := {| Profiler.color := Profiler.getBlockColors !! 0%nat;
                       Profiler.blockID := Some 0 |} ]} line
  = module_scope.
Proof.
  unfold Profiler.blockInfoOf. destruct (decide (line = lineCount)) as [->|Hne].
  - by rewrite lookup_singleton_eq.
  - by rewrite lookup_singleton_ne.
Qed.

Lemma scopeTotal_all blockLevels (records : list Profiler.ProfileRecord) scope :
  (∀ record, scopeOf blockLevels record = scope) →
  scopeTotal blockLevels records scope = total_time records.
Proof.
  intros Hall. unfold scopeTotal, total_time. do 2 f_equal.
  induction records as [|r records IH]; [done|].
  rewrite filter_cons_True by done. by rewrite IH.
Qed.



(** ** DurationFormatter: the second unit does not carry *)

Lemma round_remainder_bounds (q : Q) :
  0 ≤ Profiler.round ((q - inject_Z (Qfloor q)) * 1000) ≤ 1000
  ∧ ((9995 # 10000 <= q - inject_Z (Qfloor q))%Q →
     Profiler.round ((q - inject_Z (Qfloor q)) * 1000) = 1000).
Proof.
  pose proof (Qfloor_le q) as Hlo. pose proof (Qlt_floor q) as Hhi.
  rewrite inject_Z_plus in Hhi.
  set (fraction := (q - inject_Z (Qfloor q))%Q).
  assert (0 <= fraction)%Q as Hnonneg by (subst fraction; lra).
  assert (fraction < 1)%Q as Hbelow by (subst fraction; change (inject_Z 1) with 1%Q in Hhi; lra).
  clearbody fraction. unfold Profiler.round.
  assert (Qfloor (fraction * 1000 + (1 # 2)) < 1001) as Hupper.
  { rewrite Zlt_Qlt. eapply Qle_lt_trans; [apply Qfloor_le|].
    change (inject_Z 1001) with 1001%Q. lra. }
  split_and!.
  - change 0 with (Qfloor (inject_Z 0)). apply Qfloor_resp_le.
    change (inject_Z 0) with 0%Q. lra.
  - lia.
  - intros Hhigh.
    assert (1000 ≤ Qfloor (fraction * 1000 + (1 # 2))); [|lia].
    change 1000 with (Qfloor (inject_Z 1000)) at 1. apply Qfloor_resp_le.
    change (inject_Z 1000) with 1000%Q. lra.
Qed.



(** ** Loading a report *)

Lemma normalizeKeys_snoc {V} (entries : list (string * V)) kv :
  Report.normalizeKeys (entries ++ [kv])
  = <[Path.normalize kv.1 := kv.2]> (Report.normalizeKeys entries).
Proof. unfold Report.normalizeKeys. by rewrite fold_left_app. Qed.

(** Under a key the data holds the value of the last entry whose key
    normalises to it. *)
Lemma normalizeKeys_lookup {V} (entries : list (string * V)) key :
  Report.normalizeKeys entries !! key
  = snd <$> last (filter (λ kv, Path.normalize kv.1 = key) entries).
Proof.
  induction entries as [|kv entries IH] using rev_ind; [done|].
  rewrite normalizeKeys_snoc, filter_app.
  destruct (decide (Path.normalize kv.1 = key)) as [<-|Hne].
  - rewrite lookup_insert_eq. rewrite filter_cons_True by done.
    by rewrite filter_nil, last_snoc.
  - rewrite lookup_insert_ne by done. rewrite filter_cons_False by done.
    by rewrite filter_nil, app_nil_r.
Qed.

Lemma normalize_relative ks :
  ks ≠ [] → Forall (λ s, proper_segment s = true) ks →
  Path.normalize (Path.join_segments ks) = Path.join_segments ks.
Proof.
  intros Hne Hks. destruct ks as [|x ks]; [done|].
  destruct (join_segments_proper x ks Hks) as (Hnonempty & Hend & Habs).
  unfold Path.normalize. rewrite bool_decide_eq_false_2 by done.
  rewrite Habs, Hend. cbn [negb]. cbv zeta.
  unfold Path.normalizeString.
  rewrite split_join_segments; [|done|].
  2:{ eapply Forall_impl; [exact Hks|]. by intros s (_ & _ & _ & ?)%proper_segment_spec. }
  rewrite normalize_segments_proper.
  2:{ eapply Forall_impl; [exact Hks|]. intros s ?. by right. }
  rewrite filter_nonempty_proper by done.
  by rewrite bool_decide_eq_false_2 by done.
Qed.

(** X21.  The records of a file are found again.  When the source root is a
    canonical absolute path and the editor shows the file [ks] below it, the
    key [applyToEditor] looks up is the relative path of the file, and the
    profile holds under it the records of the last entry of the report whose
    key normalises to that path (a key written as the relative path itself
    does): rendering the editor from the whole report is rendering it from
    that one entry. *)
Theorem records_of_a_file_are_found
    (clocksPerSec : Q) (cwd : string) (rs ks : list string)
    (entries : list (string * list Profiler.ProfileRecord))
    (key : string) (records : list Profiler.ProfileRecord)
    (editorToColors : gmap string (gmap Z Profiler.LineInfo))
    (editor : Profiler.TextEditor) (foldRanges : option (list Profiler.FoldingRange)) :
  Forall (λ s, proper_segment s = true) rs →
  Forall (λ s, proper_segment s = true) ks →
  ks ≠ [] →
  Profiler.fsPath editor = absolute_of (rs ++ ks) →
  last (filter (λ kv, Path.normalize kv.1 = Path.join_segments ks) entries)
  = Some (key, records) →
  Path.normalize (Path.join_segments ks) = Path.join_segments ks
  ∧ Report.normalizeKeys entries !! Path.join_segments ks = Some records
  ∧ Profiler.applyToEditor clocksPerSec cwd (absolute_of rs) (Report.normalizeKeys entries)
      editorToColors editor foldRanges
    = Profiler.applyToEditor clocksPerSec cwd (absolute_of rs)
        {[ Path.join_segments ks := records ]} editorToColors editor foldRanges.
Proof.
  intros Hrs Hks Hne Hpath Hlast.
  pose proof (normalize_relative ks Hne Hks) as Hnormal.
  assert (Report.normalizeKeys entries !! Path.join_segments ks = Some records) as Hfound
    by by rewrite normalizeKeys_lookup, Hlast.
  split_and!; [done..|].
  unfold Profiler.applyToEditor. rewrite Hpath, relative_under by done.
  by rewrite Hnormal, Hfound, lookup_singleton_eq.
Qed.

Lemma records_of_a_file_are_found_witness :
  Path.normalize (Path.join_segments ["pkg"; "util.py"]) = Path.join_segments ["pkg"; "util.py"]
  ∧ Report.normalizeKeys
      [("pkg/util.py", [(1, 1, 5)]); ("main.py", [(2, 1, 7)]);
       ("./pkg//util.py", hot_loop_records)]
    !! Path.join_segments ["pkg"; "util.py"] = Some hot_loop_records
  ∧ Profiler.applyToEditor 1000000 "/" (absolute_of ["proj"])
      (Report.normalizeKeys
         [("pkg/util.py", [(1, 1, 5)]); ("main.py", [(2, 1, 7)]);
          ("./pkg//util.py", hot_loop_records)])
      ∅ util_editor None
    = Profiler.applyToEditor 1000000 "/" (absolute_of ["proj"])
        {[ Path.join_segments ["pkg"; "util.py"] := hot_loop_records ]} ∅ util_editor None.
Proof.
  apply (records_of_a_file_are_found 1000000 "/" ["proj"] ["pkg"; "util.py"]
           [("pkg/util.py", [(1, 1, 5)]); ("main.py", [(2, 1, 7)]);
            ("./pkg//util.py", hot_loop_records)]
           "./pkg//util.py" hot_loop_records ∅ util_editor None).
  - repeat constructor.
  - repeat constructor.
  - discriminate.
  - reflexivity.
  - reflexivity.
Defined.

(** ** The read-only marks *)

Lemma add_elem_of p q set : q ∈ Report.add p set ↔ q = p ∨ q ∈ set.
Proof.
  unfold Report.add. case_decide as Hin.
  - split; [by right|]. by intros [->|?].
  - rewrite elem_of_app, list_elem_of_singleton. tauto.
Qed.

Lemma markReadOnly_fold cwd workspacePath sourceRoot filepaths acc :
  let path := Report.analysisFilesPath cwd workspacePath sourceRoot in
  let result :=
    fold_left
      (λ acc filepath,
         {| Report.readonlyInclude :=
              <[path filepath := JBool true]> (Report.readonlyInclude acc);
            Report.analysisFilesSet := Report.add (path filepath) (Report.analysisFilesSet acc) |})
      filepaths acc in
  (∀ p, p ∈ Report.analysisFilesSet result
        ↔ p ∈ Report.analysisFilesSet acc ∨ p ∈ map path filepaths)
  ∧ (∀ p, Report.readonlyInclude result !! p
          = if decide (p ∈ map path filepaths)
            then Some (JBool true) else Report.readonlyInclude acc !! p).
Proof.
  intros path. revert acc. induction filepaths as [|filepath filepaths IH]; intros acc result.
  { subst result. cbn [fold_left map]. split.
    - intros p. split; [by left|]. by intros [?|[]%elem_of_nil].
    - intros p. by rewrite decide_False by apply not_elem_of_nil. }
  subst result. cbn [fold_left map].
  destruct (IH {| Report.readonlyInclude :=
                    <[path filepath := JBool true]> (Report.readonlyInclude acc);
                  Report.analysisFilesSet :=
                    Report.add (path filepath) (Report.analysisFilesSet acc) |})
    as [Hset Hinclude].
  cbn zeta in Hset, Hinclude. cbn [Report.readonlyInclude Report.analysisFilesSet] in *.
  split.
  - intros p. rewrite Hset, add_elem_of, elem_of_cons. tauto.
  - intros p. rewrite Hinclude.
    destruct (decide (p ∈ map path filepaths)) as [Hin|Hnot].
    + by rewrite decide_True by by apply list_elem_of_further.
    + destruct (decide (p = path filepath)) as [->|Hne].
      * rewrite lookup_insert_eq. by rewrite decide_True by apply list_elem_of_here.
      * rewrite lookup_insert_ne by done. rewrite decide_False; [done|].
        by intros [?|?]%elem_of_cons.
Qed.

Lemma clearReadOnlyConfig_lookup set include p :
  Report.clearReadOnlyConfig set include !! p
  = if decide (p ∈ set) then Some (JBool false) else include !! p.
Proof.
  unfold Report.clearReadOnlyConfig. revert include.
  induction set as [|q set IH]; intros include; cbn [fold_left].
  { by rewrite decide_False by apply not_elem_of_nil. }
  rewrite IH. destruct (decide (p ∈ set)) as [Hin|Hin].
  - by rewrite decide_True by by apply list_elem_of_further.
  - destruct (decide (p = q)) as [->|Hne].
    + rewrite lookup_insert_eq. by rewrite decide_True by apply list_elem_of_here.
    + rewrite lookup_insert_ne by done. rewrite decide_False; [done|].
      by intros [?|?]%elem_of_cons.
Qed.

(** X22.  Marking and unmarking the analysed files.  Unless the list of workspace
    folders is empty (the constructor then throws), the constructor sets the
    entry of every analysed file in [files.readonlyInclude] to [true] and
    leaves the other entries as they are; [clearReadOnlyConfig], applied to
    that setting, sets exactly those entries to [false] and removes none: an
    analysed file ends up not read-only also when the setting marked it
    read-only before the report was loaded. *)
Theorem read_only_marks_are_set_and_cleared
    (cwd : string) (workspaceFolders : option (list string)) (sourceRoot : string)
    (filepaths : list string) (currentInclude : gmap string json) :
  workspaceFolders ≠ Some [] →
  ∃ workspacePath marked,
    Report.workspacePath workspaceFolders sourceRoot = Normal workspacePath
    ∧ Report.markReadOnly cwd workspaceFolders sourceRoot filepaths currentInclude
      = Normal marked
    ∧ (∀ p, p ∈ Report.analysisFilesSet marked
            ↔ p ∈ map (Report.analysisFilesPath cwd workspacePath sourceRoot) filepaths)
    ∧ (∀ p, Report.readonlyInclude marked !! p
            = if decide (p ∈ Report.analysisFilesSet marked)
              then Some (JBool true) else currentInclude !! p)
    ∧ (∀ p, Report.clearReadOnlyConfig (Report.analysisFilesSet marked)
              (Report.readonlyInclude marked) !! p
            = if decide (p ∈ Report.analysisFilesSet marked)
              then Some (JBool false) else currentInclude !! p).
Proof.
  intros Hfolders. unfold Report.markReadOnly.
  assert (∃ workspacePath,
            Report.workspacePath workspaceFolders sourceRoot = Normal workspacePath)
    as [workspacePath Hws].
  { destruct workspaceFolders as [[|folder folders]|]; simpl; eauto. done. }
  rewrite Hws. eexists workspacePath, _. split; [done|]. split; [done|].
  destruct (markReadOnly_fold cwd workspacePath sourceRoot filepaths
              {| Report.readonlyInclude := currentInclude; Report.analysisFilesSet := [] |})
    as [Hset Hinclude].
  cbn zeta in Hset, Hinclude. cbn [Report.readonlyInclude Report.analysisFilesSet] in *.
  set (marked := fold_left _ filepaths _) in *.
  assert (∀ p, p ∈ Report.analysisFilesSet marked
               ↔ p ∈ map (Report.analysisFilesPath cwd workspacePath sourceRoot) filepaths)
    as Hset'.
  { intros p. rewrite Hset. split; [|by right]. by intros [[]%elem_of_nil|?]. }
  split_and!.
  - exact Hset'.
  - intros p. rewrite Hinclude. apply decide_ext. by rewrite Hset'.
  - intros p. rewrite clearReadOnlyConfig_lookup. case_decide as Hin; [done|].
    rewrite Hinclude. rewrite decide_False; [done|]. by rewrite <-Hset'.
Qed.

Lemma read_only_marks_are_set_and_cleared_witness :
  ∃ workspacePath marked,
    Report.workspacePath (Some ["/proj"]) "/proj/src" = Normal workspacePath
    ∧ Report.markReadOnly "/" (Some ["/proj"]) "/proj/src" ["main.py"; "pkg/util.py"]
        {[ "src/main.py" := JBool true ]}
      = Normal marked
    ∧ (∀ p, p ∈ Report.analysisFilesSet marked
            ↔ p ∈ map (Report.analysisFilesPath "/" workspacePath "/proj/src")
                    ["main.py"; "pkg/util.py"])
    ∧ (∀ p, Report.readonlyInclude marked !! p
            = if decide (p ∈ Report.analysisFilesSet marked)
              then Some (JBool true) else ({[ "src/main.py" := JBool true ]} : gmap string json) !! p)
    ∧ (∀ p, Report.clearReadOnlyConfig (Report.analysisFilesSet marked)
              (Report.readonlyInclude marked) !! p
            = if decide (p ∈ Report.analysisFilesSet marked)
              then Some (JBool false) else ({[ "src/main.py" := JBool true ]} : gmap string json) !! p).
Proof.
  apply (read_only_marks_are_set_and_cleared "/" (Some ["/proj"]) "/proj/src"
           ["main.py"; "pkg/util.py"] {[ "src/main.py" := JBool true ]}).
  discriminate.
Defined.

(** ** The life of a decoration type *)

Lemma disposed_app a b : disposed (a ++ b) = disposed a ++ disposed b.
Proof. apply omap_app. Qed.

Lemma disposed_disposeType dts : disposed (map Decorations.disposeType dts) = dts.
Proof. unfold disposed. induction dts as [|dt dts IH]; [done|]. simpl. by f_equal. Qed.

Lemma disposed_cons dt calls :
  disposed (Decorations.disposeType dt :: calls) = dt :: disposed calls.
Proof. done. Qed.

Lemma disposed_concat (m : list (string * list nat)) :
  disposed (concat (map (λ entry, map Decorations.disposeType entry.2) m)) = concat m.*2.
Proof.
  induction m as [|[k dts] m IH]; [done|]. cbn [map concat fmap list_fmap snd].
  by rewrite disposed_app, disposed_disposeType, IH.
Qed.

Lemma create_not_disposal dt color (m : list (string * list nat)) :
  Decorations.createTextEditorDecorationType dt color
  ∉ concat (map (λ entry, map Decorations.disposeType entry.2) m).
Proof.
  induction m as [|[k dts] m IH]; [apply not_elem_of_nil|].
  cbn [map concat snd]. rewrite elem_of_app. intros [Hin|Hin]; [|done].
  by apply list_elem_of_fmap in Hin as (? & [=] & _).
Qed.

Lemma disposals_app d (new : list Decorations.call) dt :
  length (filter (λ x, x = dt) (disposed (Decorations.calls d ++ new)))
  = (disposals d dt + length (filter (λ x, x = dt) (disposed new)))%nat.
Proof. unfold disposals. by rewrite disposed_app, filter_app, length_app. Qed.

Lemma count_NoDup (dt : nat) l :
  NoDup l → length (filter (λ x, x = dt) l) = if decide (dt ∈ l) then 1%nat else 0%nat.
Proof. intros Hnd. rewrite filter_only by done. by case_decide. Qed.

Lemma count_absent (dt : nat) l : dt ∉ l → length (filter (λ x, x = dt) l) = 0%nat.
Proof.
  induction l as [|y l IH]; [done|]. intros [Hy Hl]%not_elem_of_cons.
  rewrite filter_cons_False by congruence. by apply IH.
Qed.

Lemma Map_get_None key m : Decorations.Map_get key m = None → key ∉ m.*1.
Proof.
  induction m as [|[k dts] m IH]; [intros _; apply not_elem_of_nil|].
  rewrite fmap_cons. cbn [Decorations.Map_get fst].
  case_bool_decide; [done|]. intros Hm. apply not_elem_of_cons.
  split; [congruence|by apply IH].
Qed.

Lemma Map_delete_absent key m : key ∉ m.*1 → Decorations.Map_delete key m = m.
Proof.
  unfold Decorations.Map_delete. induction m as [|[k dts] m IH]; [done|].
  rewrite fmap_cons. cbn [fst]. intros [Hk Hm]%not_elem_of_cons.
  rewrite filter_cons_True by (simpl; congruence).
  by rewrite IH.
Qed.

Lemma Map_get_split key m dts :
  NoDup m.*1 → Decorations.Map_get key m = Some dts →
  ∃ m1 m2, m = m1 ++ (key, dts) :: m2 ∧ Decorations.Map_delete key m = m1 ++ m2.
Proof.
  induction m as [|[k old] m IH]; [done|].
  rewrite fmap_cons. cbn [Decorations.Map_get fst]. intros [Hk Hnd]%NoDup_cons.
  case_bool_decide as Heq.
  - intros [= ->]. subst k. exists [], m. split; [done|].
    unfold Decorations.Map_delete. rewrite filter_cons_False by (simpl; by intros ?).
    by apply Map_delete_absent.
  - intros Hget. destruct (IH Hnd Hget) as (m1 & m2 & -> & Hdelete).
    exists ((k, old) :: m1), m2. split; [done|].
    unfold Decorations.Map_delete in *. rewrite filter_cons_True by done.
    by rewrite Hdelete.
Qed.

Lemma Map_set_absent key dts m :
  key ∉ m.*1 → Decorations.Map_set key dts m = m ++ [(key, dts)].
Proof.
  induction m as [|[k old] m IH]; [done|].
  rewrite fmap_cons. cbn [fst]. intros [Hk Hm]%not_elem_of_cons.
  cbn [Decorations.Map_set]. rewrite bool_decide_eq_false_2 by congruence.
  by rewrite IH.
Qed.

Lemma forColors_run editor colorToOptions d createdDts :
  let result := Decorations.forColors editor colorToOptions d createdDts in
  Decorations.nextType result.1 = (Decorations.nextType d + length colorToOptions)%nat
  ∧ Decorations.prefixDecorationType result.1 = Decorations.prefixDecorationType d
  ∧ Decorations.editorToDecorationTypes result.1 = Decorations.editorToDecorationTypes d
  ∧ result.2 = createdDts ++ seq (Decorations.nextType d) (length colorToOptions)
  ∧ disposed (Decorations.calls result.1) = disposed (Decorations.calls d)
  ∧ ∀ dt color,
      Decorations.createTextEditorDecorationType dt (Some color) ∈ Decorations.calls result.1 →
      Decorations.createTextEditorDecorationType dt (Some color) ∈ Decorations.calls d
      ∨ (Decorations.nextType d ≤ dt < Decorations.nextType d + length colorToOptions)%nat.
Proof.
  revert d createdDts.
  induction colorToOptions as [|[color options] rest IH]; intros d createdDts;
    cbn [Decorations.forColors]; cbn zeta.
  { cbn [fst snd length seq]. rewrite app_nil_r, Nat.add_0_r.
    split_and!; try done. intros dt color ?. by left. }
  set (d1 := Decorations.Build_decorator _ _ _ _).
  destruct (IH d1 (createdDts ++ [Decorations.nextType d]))
    as (Hnext & Hprefix & Hmap & Hcreated & Hdisposed & Hcalls).
  cbn [d1 Decorations.nextType Decorations.prefixDecorationType
       Decorations.editorToDecorationTypes Decorations.calls] in *.
  split_and!.
  - rewrite Hnext. simpl. lia.
  - done.
  - done.
  - rewrite Hcreated. by rewrite <-(assoc_L (++)).
  - rewrite Hdisposed, disposed_app. cbn. by rewrite app_nil_r.
  - intros dt c Hin. destruct (Hcalls dt c Hin) as [Hold|Hrange]; [|right; simpl; lia].
    apply elem_of_app in Hold as [?|Hnew]; [by left|]. right.
    apply elem_of_cons in Hnew as [[= -> _]|Hnew]; [simpl; lia|].
    by apply list_elem_of_singleton in Hnew.
Qed.

Lemma in_order_create first : in_order (Decorations.create first).
Proof.
  constructor; cbn.
  - apply NoDup_nil_2.
  - apply NoDup_nil_2.
  - by intros dt []%elem_of_nil.
  - lia.
  - by intros dt []%elem_of_nil.
  - intros dt color [[=]|[]%elem_of_nil]%elem_of_cons.
  - intros dt. lia.
Qed.

Lemma in_order_setDecorations editor dt options d :
  in_order d → in_order (Decorations.log [Decorations.setDecorations editor dt options] d).
Proof.
  intros [Hkeys Htypes Hknown Hprefix Hdisposed Hcreated Honce].
  constructor; cbn [Decorations.log Decorations.calls Decorations.nextType
                    Decorations.prefixDecorationType Decorations.editorToDecorationTypes];
    try done.
  - intros x. rewrite disposed_app. cbn. rewrite app_nil_r. apply Hdisposed.
  - intros x color [?|Hnew%list_elem_of_singleton]%elem_of_app; [by eapply Hcreated|done].
  - intros x Hx. unfold disposals, registered in *.
    cbn [Decorations.log Decorations.calls Decorations.editorToDecorationTypes].
    rewrite disposed_app. cbn. rewrite app_nil_r. by apply Honce.
Qed.

Lemma in_order_clearEditorDecorations editor d :
  in_order d →
  in_order (Decorations.clearEditorDecorations editor d)
  ∧ (Profiler.uri editor
     ∉ (Decorations.editorToDecorationTypes (Decorations.clearEditorDecorations editor d)).*1)
  ∧ Decorations.nextType (Decorations.clearEditorDecorations editor d) = Decorations.nextType d
  ∧ Decorations.prefixDecorationType (Decorations.clearEditorDecorations editor d)
    = Decorations.prefixDecorationType d.
Proof.
  intros Hd. pose proof Hd as [Hkeys Htypes Hknown Hprefix Hdisposed Hcreated Honce].
  unfold Decorations.clearEditorDecorations.
  destruct (Decorations.Map_get (Profiler.uri editor) (Decorations.editorToDecorationTypes d))
    as [dts|] eqn:Hget.
  2:{ split; [done|]. split; [by apply Map_get_None|done]. }
  destruct (Map_get_split _ _ _ Hkeys Hget) as (m1 & m2 & Hm & Hdelete).
  cbn [Decorations.editorToDecorationTypes Decorations.nextType
       Decorations.prefixDecorationType].
  rewrite Hdelete.
  unfold registered in *. rewrite Hm in *.
  rewrite !fmap_app, !fmap_cons in *. cbn [fst snd] in *.
  rewrite concat_app, concat_cons in *.
  apply NoDup_app in Hkeys as (Hkeys1 & Hkeys12 & Hkeys2).
  apply NoDup_cons in Hkeys2 as [Hkey2 Hkeys2].
  apply NoDup_app in Htypes as (Htypes1 & Htypes12 & Htypes2).
  apply NoDup_app in Htypes2 as (Hdts & Hdts2 & Htypes2).
  split_and!; [|..|done|done].
  - constructor; unfold registered, disposals;
      cbn [Decorations.editorToDecorationTypes Decorations.nextType
           Decorations.prefixDecorationType Decorations.calls];
      rewrite ?fmap_app, ?concat_app.
    + apply NoDup_app. split_and!; [done| |done].
      intros k Hk1 Hk2. apply (Hkeys12 k Hk1). by apply list_elem_of_further.
    + apply NoDup_app. split_and!; [done| |done].
      intros x Hx1 Hx2. apply (Htypes12 x Hx1). apply elem_of_app. by right.
    + intros x Hx. apply Hknown. rewrite !elem_of_app in *. tauto.
    + done.
    + intros x. rewrite disposed_app, disposed_disposeType.
      intros [?|Hx]%elem_of_app; [by apply Hdisposed|].
      apply Hknown. rewrite !elem_of_app. tauto.
    + intros x color [?|Hnew]%elem_of_app; [by eapply Hcreated|].
      by apply list_elem_of_fmap in Hnew as (? & [=] & _).
    + intros x Hx. rewrite disposals_app, disposed_disposeType.
      rewrite (Honce x Hx), (count_NoDup x dts Hdts).
      destruct (decide (x ∈ concat m1.*2 ++ concat m2.*2)) as [Hin|Hnot].
      * rewrite decide_True by (rewrite !elem_of_app in *; tauto).
        rewrite decide_False; [done|].
        intros Hdt. apply elem_of_app in Hin as [Hin|Hin].
        -- apply (Htypes12 x Hin). apply elem_of_app. by left.
        -- by apply (Hdts2 x Hdt).
      * destruct (decide (x ∈ dts)) as [Hdt|Hdt].
        -- by rewrite decide_True by (rewrite !elem_of_app; tauto).
        -- rewrite decide_False; [done|]. rewrite !elem_of_app in *. tauto.
  - intros [Hk|Hk]%elem_of_app; [|done].
    apply (Hkeys12 _ Hk). apply list_elem_of_here.
Qed.

Lemma in_order_applyDecorations editor colorToOptions prefixOptions d :
  in_order d → in_order (Decorations.applyDecorations editor colorToOptions prefixOptions d).
Proof.
  intros Hd. unfold Decorations.applyDecorations.
  pose proof (in_order_setDecorations editor (Decorations.prefixDecorationType d) [] d Hd)
    as Hd1.
  set (d1 := Decorations.log _ d) in *.
  destruct (in_order_clearEditorDecorations editor d1 Hd1) as (Hd2 & Hkey & _ & _).
  set (d2 := Decorations.clearEditorDecorations editor d1) in *. clearbody d2. clear d1 Hd1.
  pose proof (forColors_run editor colorToOptions d2 []) as Hloop. cbn zeta in Hloop.
  destruct (Decorations.forColors editor colorToOptions d2 []) as [d3 createdDts].
  cbn [fst snd app] in Hloop.
  destruct Hloop as (Hnext & Hprefix3 & Hmap & -> & Hsame & Hcalls).
  apply in_order_setDecorations.
  destruct Hd2 as [Hkeys Htypes Hknown Hprefix Hdisposed Hcreated Honce].
  unfold registered in *.
  constructor; cbn [Decorations.editorToDecorationTypes Decorations.nextType
                    Decorations.prefixDecorationType Decorations.calls];
    unfold registered, disposals;
    cbn [Decorations.editorToDecorationTypes Decorations.calls];
    rewrite ?Hmap, ?Hnext, ?Hprefix3, ?Hsame, ?Map_set_absent by done;
    rewrite ?fmap_app, ?concat_app; cbn [fmap list_fmap fst snd concat];
    rewrite ?app_nil_r.
  - apply NoDup_app. split_and!; [done| |apply NoDup_singleton].
    by intros k Hk ->%list_elem_of_singleton.
  - apply NoDup_app. split_and!; [done| |apply NoDup_seq].
    intros x Hx [Hlo _]%elem_of_seq. specialize (Hknown x Hx). lia.
  - intros x [Hx|[Hlo Hhi]%elem_of_seq]%elem_of_app; [specialize (Hknown x Hx)|]; lia.
  - lia.
  - intros x Hx. specialize (Hdisposed x Hx). lia.
  - intros x color Hin. destruct (Hcalls x color Hin) as [Hold|Hnew]; [|lia].
    specialize (Hcreated x color Hold). lia.
  - intros x Hx.
    destruct (decide (x < Decorations.nextType d2)%nat) as [Hlt|Hge].
    + pose proof (Honce x ltac:(lia)) as Hbefore. unfold disposals in Hbefore.
      rewrite Hbefore. apply decide_ext. rewrite elem_of_app, elem_of_seq.
      split; [by left|]. intros [?|?]; [done|lia].
    + rewrite decide_True by (rewrite elem_of_app, elem_of_seq; right; lia).
      apply count_absent. intros Hin. specialize (Hdisposed x Hin). lia.
Qed.

Lemma in_order_show editor shown d : in_order d → in_order (Decorations.show editor shown d).
Proof.
  intros Hd. destruct shown as [r|]; cbn [Decorations.show].
  - by apply in_order_applyDecorations.
  - by apply in_order_clearEditorDecorations, in_order_setDecorations.
Qed.

Lemma in_order_dispose d :
  in_order d →
  in_order (Decorations.dispose d)
  ∧ ∀ dt, (Decorations.prefixDecorationType d < dt < Decorations.nextType d)%nat →
          disposals (Decorations.dispose d) dt = 1%nat.
Proof.
  intros [Hkeys Htypes Hknown Hprefix Hdisposed Hcreated Honce].
  assert (∀ dt, (Decorations.prefixDecorationType d < dt < Decorations.nextType d)%nat →
                disposals (Decorations.dispose d) dt = 1%nat) as Hall.
  { intros x Hx. unfold disposals. cbn [Decorations.dispose Decorations.calls].
    rewrite disposals_app. rewrite disposed_cons.
    rewrite disposed_concat. rewrite filter_cons_False by lia.
    fold (registered d). rewrite (Honce x Hx), (count_NoDup x _ Htypes).
    by case_decide. }
  split; [|done].
  constructor; cbn [Decorations.dispose Decorations.editorToDecorationTypes Decorations.nextType
                    Decorations.prefixDecorationType Decorations.calls]; unfold registered;
    cbn [Decorations.dispose Decorations.editorToDecorationTypes fmap list_fmap concat].
  - apply NoDup_nil_2.
  - apply NoDup_nil_2.
  - by intros x []%elem_of_nil.
  - done.
  - intros x. rewrite disposed_app. rewrite disposed_cons.
    rewrite disposed_concat.
    intros [?|[->|Hx]%elem_of_cons]%elem_of_app; [by apply Hdisposed|done|].
    by apply Hknown.
  - intros x color [?|[[=]|Hnew]%elem_of_cons]%elem_of_app; [by eapply Hcreated|].
    by apply create_not_disposal in Hnew.
  - intros x Hx. rewrite decide_False by apply not_elem_of_nil. by apply Hall.
Qed.

Lemma in_order_serve requests d : in_order d → in_order (fold_left serve requests d).
Proof.
  revert d. induction requests as [|r requests IH]; intros d Hd; [done|].
  cbn [fold_left]. apply IH.
  destruct r as [editor shown|]; cbn [serve];
    [by apply in_order_show|by apply in_order_dispose].
Qed.

(** X23.  No decoration type leaks and none is disposed twice.  Whatever the
    decorator has been asked to show on whatever editors, and however often it
    has been disposed in between, each background decoration type it created
    is, at any time, either held for an editor and not disposed or disposed
    exactly once; and when [dispose] has run it holds none, so that every
    background type it ever created has been disposed exactly once. *)
Theorem every_background_type_is_disposed_once (first : nat) (requests : list request) :
  let d := fold_left serve requests (Decorations.create first) in
  (∀ dt color,
     Decorations.createTextEditorDecorationType dt (Some color) ∈ Decorations.calls d →
     disposals d dt = if decide (dt ∈ registered d) then 0%nat else 1%nat)
  ∧ Decorations.editorToDecorationTypes (Decorations.dispose d) = []
  ∧ (∀ dt color,
       Decorations.createTextEditorDecorationType dt (Some color)
       ∈ Decorations.calls (Decorations.dispose d) →
       disposals (Decorations.dispose d) dt = 1%nat).
Proof.
  intros d.
  pose proof (in_order_serve requests (Decorations.create first) (in_order_create first))
    as Hd. fold d in Hd.
  destruct (in_order_dispose d Hd) as [Hdisposed Hall].
  split_and!.
  - intros dt color Hin. apply (disposed_once d Hd). by eapply (created_known d Hd).
  - done.
  - intros dt color Hin. apply Hall.
    by apply (created_known _ Hdisposed dt color).
Qed.

(** ** The round trip outside the source folder *)

Lemma join_segments_plain x l :
  Forall (λ s, s ≠ "" ∧ slash_free s = true) (x :: l) →
  Path.join_segments (x :: l) ≠ ""
  ∧ Path.endsWithSlash (Path.join_segments (x :: l)) = false.
Proof.
  revert x. induction l as [|y l IH]; intros x Hl.
  - inversion_clear Hl as [|?? [Hx Hfree] _].
    split; [done|]. by apply endsWithSlash_slash_free.
  - inversion Hl as [|?? [Hx Hfree] Hl']; subst.
    destruct (IH y Hl') as (Hne & Hend).
    rewrite join_segments_cons. split.
    + destruct x; [done|]. by rewrite str_app_cons.
    + rewrite !endsWithSlash_app; [done..|]. destruct y; by rewrite ?str_app_cons.
Qed.

Lemma common_prefix_take xs ys :
  take (Path.common_prefix_length xs ys) xs = take (Path.common_prefix_length xs ys) ys.
Proof.
  revert ys. induction xs as [|x xs IH]; intros [|y ys]; simpl; try done.
  case_bool_decide; [|done]. subst. simpl. by rewrite IH.
Qed.

Lemma fold_dotdot b k res :
  Forall (λ s, proper_segment s = true) res → (k ≤ length res)%nat →
  fold_left (Path.normalize_step b) (replicate k "..") res = drop k res.
Proof.
  revert res. induction k as [|k IH]; intros res Hres Hk; [done|].
  destruct res as [|last res]; [simpl in Hk; lia|].
  inversion Hres as [|?? Hlast Hres']; subst.
  apply proper_segment_spec in Hlast as (_ & _ & Hlast & _).
  cbn [replicate fold_left drop]. unfold Path.normalize_step at 2.
  cbn [orb]. rewrite (bool_decide_eq_false_2 (".." = "")) by done.
  rewrite (bool_decide_eq_false_2 (".." = ".")) by done. cbn [orb].
  rewrite (bool_decide_eq_true_2 (".." = "..")) by done.
  rewrite bool_decide_eq_false_2 by done.
  apply IH; [done|]. simpl in Hk. lia.
Qed.

(** [path.join] undoes what [path.relative] did: climbing [k] segments out
    of the root and descending into [suffix]. *)
Lemma join_climbing rs k suffix :
  Forall (λ s, proper_segment s = true) rs →
  Forall (λ s, proper_segment s = true) suffix →
  (k ≤ length rs)%nat →
  Path.join (absolute_of rs) (Path.join_segments (replicate k ".." ++ suffix))
  = absolute_of (take (length rs - k) rs ++ suffix).
Proof.
  intros Hrs Hsuffix Hk.
  destruct (replicate k ".." ++ suffix) as [|x l] eqn:Hl.
  { apply app_eq_nil in Hl as [Hrep ->]. destruct k; [|done].
    rewrite Nat.sub_0_r, firstn_all.
    by apply (join_under rs []). }
  assert (Forall (λ s, s ≠ "" ∧ slash_free s = true) (x :: l)) as Hplain.
  { rewrite <-Hl. apply Forall_app. split.
    - apply Forall_forall. by intros s ->%elem_of_replicate%proj1.
    - eapply Forall_impl; [exact Hsuffix|].
      by intros s (? & _ & _ & ?)%proper_segment_spec. }
  destruct (join_segments_plain x l Hplain) as [Hne Hend].
  unfold Path.join.
  rewrite (bool_decide_eq_false_2 (absolute_of rs = "")) by done.
  rewrite (bool_decide_eq_false_2 (Path.join_segments (x :: l) = "")) by done.
  rewrite bool_decide_eq_false_2 by done.
  unfold Path.normalize. rewrite bool_decide_eq_false_2 by done.
  change (Path.isAbsolute (absolute_of rs +:+ "/" +:+ Path.join_segments (x :: l))) with true.
  cbn [negb]. cbv zeta.
  assert (Path.normalizeString
            (absolute_of rs +:+ "/" +:+ Path.join_segments (x :: l)) false
          = Path.join_segments (take (length rs - k) rs ++ suffix)) as ->.
  { unfold Path.normalizeString, Path.normalize_segments. f_equal.
    rewrite split_app_slash, fold_left_app.
    destruct (split_absolute_of rs Hrs) as [Hall Hfilter].
    rewrite (fold_normalize_step false (Path.split (absolute_of rs)) []) by done.
    rewrite Hfilter, app_nil_r.
    rewrite split_join_segments; [|done|].
    2:{ eapply Forall_impl; [exact Hplain|]. by intros s [_ ?]. }
    rewrite <-Hl, fold_left_app.
    rewrite fold_dotdot; [| |by rewrite length_rev].
    2:{ apply Forall_forall. intros s Hs%list_elem_of_In%in_rev%list_elem_of_In.
        by apply (proj1 (Forall_forall _ _) Hrs). }
    rewrite fold_normalize_step.
    2:{ eapply Forall_impl; [exact Hsuffix|]. by right. }
    rewrite filter_nonempty_proper by done.
    rewrite rev_app_distr, rev_involutive. f_equal.
    by rewrite skipn_rev, rev_involutive. }
  assert (Forall (λ s, proper_segment s = true) (take (length rs - k) rs ++ suffix)) as Hall.
  { apply Forall_app. split; [by apply Forall_take|done]. }
  destruct (take (length rs - k) rs ++ suffix) as [|y l'] eqn:Heq; [done|].
  destruct (join_segments_proper y l' Hall) as (Hne' & _ & _).
  rewrite bool_decide_eq_false_2 by done.
  rewrite !endsWithSlash_app by done. by rewrite Hend.
Qed.

Lemma relative_then_join cwd rs ps :
  Forall (λ s, proper_segment s = true) rs →
  Forall (λ s, proper_segment s = true) ps →
  Path.join (absolute_of rs) (Path.relative cwd (absolute_of rs) (absolute_of ps))
  = absolute_of ps.
Proof.
  intros Hrs Hps. unfold Path.relative.
  case_bool_decide as Heq.
  { rewrite <-Heq. rewrite <-(app_nil_r rs) at 2. by apply (join_under rs []). }
  rewrite !resolve_canonical by done.
  rewrite bool_decide_eq_false_2 by done.
  rewrite !segments_of_absolute by done.
  pose proof (common_prefix_length_le rs ps) as Hle.
  rewrite join_climbing; [|done|by apply Forall_drop|lia].
  replace (length rs - (length rs - Path.common_prefix_length rs ps))%nat
    with (Path.common_prefix_length rs ps) by lia.
  by rewrite common_prefix_take, take_drop.
Qed.

(** X11.  The round trip is the identity on every canonical absolute path, not only
    on those under the root: what [toRelativePath] makes of a path, be it a
    path that climbs out of the root with [..], [toAbsolutePath] maps back to
    the path itself, in the current and in the earlier revision. *)
Theorem roundtrip_on_every_canonical_path (cwd root p : string) :
  canonical root = true →
  canonical p = true →
  (∃ r, Current.toRelativePath cwd (Some root) (Some (JStr p)) = Normal r
        ∧ Current.toAbsolutePath (Some root) (Some (JStr r)) = Normal p)
  ∧ (∃ r, Earlier.toRelativePath cwd root (Some (JStr p)) = Normal r
          ∧ Earlier.toAbsolutePath root (Some (JStr r)) = Normal p).
Proof.
  intros (rs & Hrs & ->)%canonical_spec (ps & Hps & ->)%canonical_spec.
  pose proof (relative_then_join cwd rs ps Hrs Hps) as Hback.
  pose proof (relative_not_absolute cwd (absolute_of rs) (absolute_of ps)) as Hrel.
  split.
  - eexists. split; [done|]. unfold Current.toAbsolutePath. by rewrite Hrel, Hback.
  - unfold Earlier.toRelativePath.
    destruct (Path.startsWith (absolute_of ps) (absolute_of rs)).
    + eexists. split; [done|]. unfold Earlier.toAbsolutePath. by rewrite Hrel, Hback.
    + eexists. split; [done|]. unfold Earlier.toAbsolutePath.
      by rewrite isAbsolute_absolute_of.
Qed.

Lemma roundtrip_on_every_canonical_path_witness :
  (∃ r, Current.toRelativePath "/" (Some "/home/u/proj") (Some (JStr "/tmp/x.py")) = Normal r
        ∧ Current.toAbsolutePath (Some "/home/u/proj") (Some (JStr r)) = Normal "/tmp/x.py")
  ∧ (∃ r, Earlier.toRelativePath "/" "/home/u/proj" (Some (JStr "/tmp/x.py")) = Normal r
          ∧ Earlier.toAbsolutePath "/home/u/proj" (Some (JStr r)) = Normal "/tmp/x.py").
Proof.
  apply (roundtrip_on_every_canonical_path "/" "/home/u/proj" "/tmp/x.py").
  - reflexivity.
  - reflexivity.
Defined.

(** ** Shares of a scope *)

Lemma sumQ_shares (l : list Profiler.ProfileRecord) (total : Z) :
  total ≠ 0 →
  (sumQ (map (λ r, inject_Z r.2 / inject_Z total) l)
   == inject_Z (foldr Z.add 0%Z (map snd l)) / inject_Z total)%Q.
Proof.
  intros Htotal.
  assert (¬ (inject_Z total == 0)%Q) as Hne.
  { change 0%Q with (inject_Z 0). rewrite inject_Z_injective. done. }
  unfold sumQ. induction l as [|r l IH]; cbn [map foldr].
  { change (inject_Z 0) with 0%Q. by field. }
  rewrite IH, inject_Z_plus. by field.
Qed.

Lemma sumQ_proper {A} (f g : A → Q) (l : list A) :
  (∀ x, x ∈ l → (f x == g x)%Q) → (sumQ (map f l) == sumQ (map g l))%Q.
Proof.
  unfold sumQ. induction l as [|x l IH]; intros Hfg; [done|]. cbn [map foldr].
  rewrite (Hfg x) by apply list_elem_of_here.
  rewrite IH; [done|]. intros y Hy. by apply Hfg, list_elem_of_further.
Qed.

Lemma ratioOfRecord_in_scope blockLevels (records : list Profiler.ProfileRecord) record :
  Forall (λ r, 0 ≤ r.2) records → record ∈ records →
  let total := scopeTotal blockLevels records (scopeOf blockLevels record) in
  ∃ q, ratioOfRecord blockLevels (Profiler.sumBlockTimes blockLevels records) record
       = Profiler.Finite q
       ∧ (q == ratio_in_scope record.2 total)%Q
       ∧ (0 <= q <= 1)%Q.
Proof.
  intros Htimes Hin total. unfold ratioOfRecord.
  rewrite sumBlockTimes_lookup by done. fold total.
  pose proof (scopeTotal_bounds blockLevels records record Htimes Hin) as Hbounds.
  destruct (ratioOf_in_scope record.2 total Hbounds) as (q & -> & Hq).
  exists q. split; [done|]. split; [done|].
  rewrite Hq. by apply ratio_in_scope_bounds.
Qed.



(** ** Heat is monotone *)

Lemma round_mono (q q' : Q) : (q <= q')%Q → Profiler.round q ≤ Profiler.round q'.
Proof. intros Hle. unfold Profiler.round. apply Qfloor_resp_le. lra. Qed.

Lemma hundredths_nonneg (q : Q) :
  (0 <= q)%Q → Profiler.hundredths q = Profiler.round (q * 100).
Proof.
  intros Hq. unfold Profiler.hundredths. by rewrite (proj2 (Qle_bool_iff 0 q) Hq).
Qed.

(** X16.  Within a scope a record that took longer is never drawn cooler: of two
    records of the same scope, the one with the larger time has a percentage
    and a background opacity (in hundredths) that are at least those of the
    other. *)
Theorem hotter_lines_are_not_drawn_cooler
    (blockLevels : gmap Z Profiler.LineInfo) (records : list Profiler.ProfileRecord)
    (cooler hotter : Profiler.ProfileRecord) :
  Forall (λ r, 0 ≤ r.2) records →
  cooler ∈ records →
  hotter ∈ records →
  scopeOf blockLevels cooler = scopeOf blockLevels hotter →
  cooler.2 ≤ hotter.2 →
  let blockTimes := Profiler.sumBlockTimes blockLevels records in
  ∃ q q',
    ratioOfRecord blockLevels blockTimes cooler = Profiler.Finite q
    ∧ ratioOfRecord blockLevels blockTimes hotter = Profiler.Finite q'
    ∧ (q <= q')%Q
    ∧ Profiler.round (q * 100) ≤ Profiler.round (q' * 100)
    ∧ Profiler.hundredths (q * (8 # 10)) ≤ Profiler.hundredths (q' * (8 # 10))
    ∧ percentOfRecord blockLevels blockTimes cooler
      = Profiler.Finite (Profiler.round (q * 100))
    ∧ percentOfRecord blockLevels blockTimes hotter
      = Profiler.Finite (Profiler.round (q' * 100))
    ∧ colourOfRecord blockLevels blockTimes hotter
      = "hsla(210, 60%, 65%, "
        +:+ Profiler.print_hundredths (Profiler.hundredths (q' * (8 # 10))) +:+ ")".
Proof.
  intros Htimes Hcooler Hhotter Hscope Hle blockTimes.
  destruct (ratioOfRecord_in_scope blockLevels records cooler Htimes Hcooler)
    as (q & Hq & Heq & Hbounds).
  destruct (ratioOfRecord_in_scope blockLevels records hotter Htimes Hhotter)
    as (q' & Hq' & Heq' & Hbounds').
  fold blockTimes in Hq, Hq'.
  exists q, q'.
  assert (q <= q')%Q as Hmono.
  { rewrite Heq, Heq', Hscope. unfold ratio_in_scope.
    pose proof (scopeTotal_bounds blockLevels records hotter Htimes Hhotter) as Hb.
    destruct (Z.eqb_spec (scopeTotal blockLevels records (scopeOf blockLevels hotter)) 0)
      as [|Hne]; [done|].
    apply Qmult_le_compat_r.
    - rewrite <-Zle_Qle. lia.
    - apply Qinv_le_0_compat. change 0%Q with (inject_Z 0). rewrite <-Zle_Qle. lia. }
  split_and!; [done..| | | | |].
  - apply round_mono. lra.
  - rewrite !hundredths_nonneg by lra. apply round_mono. lra.
  - unfold percentOfRecord. fold (ratioOfRecord blockLevels blockTimes cooler).
    by rewrite Hq.
  - unfold percentOfRecord. fold (ratioOfRecord blockLevels blockTimes hotter).
    by rewrite Hq'.
  - unfold colourOfRecord. fold (ratioOfRecord blockLevels blockTimes hotter).
    by rewrite Hq'.
Qed.

Lemma hotter_lines_are_not_drawn_cooler_witness :
  ∃ q q',
    ratioOfRecord ∅ (Profiler.sumBlockTimes ∅ hot_loop_records) (5, 100, 350)
    = Profiler.Finite q
    ∧ ratioOfRecord ∅ (Profiler.sumBlockTimes ∅ hot_loop_records) (3, 100, 600)
      = Profiler.Finite q'
    ∧ (q <= q')%Q
    ∧ Profiler.round (q * 100) ≤ Profiler.round (q' * 100)
    ∧ Profiler.hundredths (q * (8 # 10)) ≤ Profiler.hundredths (q' * (8 # 10))
    ∧ percentOfRecord ∅ (Profiler.sumBlockTimes ∅ hot_loop_records) (5, 100, 350)
      = Profiler.Finite (Profiler.round (q * 100))
    ∧ percentOfRecord ∅ (Profiler.sumBlockTimes ∅ hot_loop_records) (3, 100, 600)
      = Profiler.Finite (Profiler.round (q' * 100))
    ∧ colourOfRecord ∅ (Profiler.sumBlockTimes ∅ hot_loop_records) (3, 100, 600)
      = "hsla(210, 60%, 65%, "
        +:+ Profiler.print_hundredths (Profiler.hundredths (q' * (8 # 10))) +:+ ")".
Proof.
  apply (hotter_lines_are_not_drawn_cooler ∅ hot_loop_records (5, 100, 350) (3, 100, 600)).
  - repeat constructor; simpl; lia.
  - unfold hot_loop_records. apply list_elem_of_further, list_elem_of_further, list_elem_of_here.
  - unfold hot_loop_records. apply list_elem_of_further, list_elem_of_here.
  - reflexivity.
  - simpl. lia.
Defined.
